(** * mlops-adtech-api: the daily recommendation pipeline and its read API

    A shallow embedding of
      - [tp_pipeline_dag.py]  (module [Pipeline]): FiltrarDatos, TopProduct,
        TopCTR and DBWriting, the four tasks of the Airflow DAG;
      - [main.py]             (module [ApiMain]): the FastAPI service that
        sanitises [ctr] with [safe_float];
      - [tp-api/app/main.py]  (module [TpApi]): the second FastAPI service,
        built on [fetch_one]/[fetch_all] of [tp-api/app/db.py].

    Modelling conventions.
      - A DataFrame is the list of its rows, in row order; a row is a record
        with one field per column.
      - A CSV cell of a raw log is [option string]: [None] is a missing value
        (pandas reads it as NaN).  Identifiers are text, as in the persisted
        schema, and are ordered as Python orders [str].
      - A missing value in a column of dtype object is [None], stored as
        NULL; the missing value of a float64 column is the float NaN,
        [Some NaN], stored as the NaN of the database.
      - Counts are [nat] (pandas int64, far from overflow); [ctr] is the
        exact quotient in [Q].
      - S3 transfers and the CSV files passed between tasks are loads and
        saves of the same table.
      - The relational store is the list of rows of table [recommendations];
        psycopg2's transaction is a pending copy that [commit] publishes and
        [rollback] discards, and a fault oracle says which database call
        raises. *)

From Stdlib Require Import List String Ascii Bool Arith PeanoNat Lia.
From Stdlib Require Import ZArith QArith Lqa Sorted Permutation OrderedTypeEx.
Import ListNotations.
Open Scope string_scope.
Open Scope nat_scope.
Open Scope list_scope.

(** ** Values shared by the pipeline and the services *)

(** A Python float as the database driver hands it over. *)
Inductive pyfloat : Type :=
| Finite (q : Q)
| NaN
| PosInf
| NegInf.

(** One row of table [recommendations]. *)
Record RankingRecord : Type := mkRecord {
  date : string;
  advertiser_id : string;
  model : string;
  product_id : string;
  rank : nat;
  views : option nat;
  impressions : option nat;
  clicks : option nat;
  ctr : option pyfloat
}.

Definition Table : Type := list RankingRecord.

(** Python's [<] on [str]. *)
Definition str_lt (a b : string) : Prop := String.compare a b = Lt.

Module Pipeline.

(** *** Raw logs *)

Definition cell : Type := option string.

Definition cell_eqb (c1 c2 : cell) : bool :=
  match c1, c2 with
  | Some a, Some b => String.eqb a b
  | None, None => true
  | _, _ => false
  end.

Record ProductView : Type := mkProductView {
  pv_advertiser_id : cell;
  pv_product_id : cell
}.

Record AdView : Type := mkAdView {
  av_advertiser_id : cell;
  av_product_id : cell;
  av_type : cell
}.

(** [Series.isin(values)]. *)
Definition isin (c : cell) (values : list cell) : bool :=
  existsb (cell_eqb c) values.

(** [Series.unique()]: the distinct values, in order of first appearance. *)
Fixpoint unique_from (seen : list cell) (l : list cell) : list cell :=
  match l with
  | [] => []
  | c :: l' =>
      if isin c seen then unique_from seen l'
      else c :: unique_from (c :: seen) l'
  end.

Definition unique (l : list cell) : list cell := unique_from [] l.

(** *** FiltrarDatos

    [advertisers] is column [advertiser_id] of the registry. *)
Definition filtrar_datos (advertisers : list cell)
    (product_views : list ProductView) (ads_views : list AdView)
    : list ProductView * list AdView :=
  let active_ids := unique advertisers in
  let product_views_filtered :=
    filter (fun r => isin (pv_advertiser_id r) active_ids) product_views in
  let ads_views_filtered :=
    filter (fun r => isin (av_advertiser_id r) active_ids) ads_views in
  (product_views_filtered, ads_views_filtered).

(** *** Data-frame operations used by the rankers *)

(** A group key: the values of columns [advertiser_id] and [product_id]. *)
Definition key : Type := (string * string)%type.

Definition key_compare (k1 k2 : key) : comparison :=
  match String.compare (fst k1) (fst k2) with
  | Eq => String.compare (snd k1) (snd k2)
  | c => c
  end.

(** Python's [<] on the tuple (advertiser_id, product_id). *)
Definition key_before (k1 k2 : key) : Prop :=
  str_lt (fst k1) (fst k2) \/
  (fst k1 = fst k2 /\ str_lt (snd k1) (snd k2)).

Definition key_eqb (k1 k2 : key) : bool :=
  String.eqb (fst k1) (fst k2) && String.eqb (snd k1) (snd k2).

Fixpoint key_insert (k : key) (ks : list key) : list key :=
  match ks with
  | [] => [k]
  | k' :: ks' =>
      match key_compare k k' with
      | Lt => k :: ks
      | Eq => ks
      | Gt => k' :: key_insert k ks'
      end
  end.

(** The group labels of [groupby(..., sort=True)]: the distinct keys in
    ascending order. *)
Definition group_keys (ks : list key) : list key :=
  fold_right key_insert [] ks.

Section GroupBy.
Context {R : Type} (keyof : R -> option key).

(** Keys of the rows that have one; [groupby] leaves out a row with a
    missing key value ([dropna=True]). *)
Fixpoint present_keys (rows : list R) : list key :=
  match rows with
  | [] => []
  | r :: rows' =>
      match keyof r with
      | Some k => k :: present_keys rows'
      | None => present_keys rows'
      end
  end.

Definition in_group (k : key) (r : R) : bool :=
  match keyof r with
  | Some k' => key_eqb k k'
  | None => false
  end.

(** [df.groupby(["advertiser_id", "product_id"])]: every group label with
    its member rows, in row order. *)
Definition groupby (rows : list R) : list (key * list R) :=
  map (fun k => (k, filter (in_group k) rows))
      (group_keys (present_keys rows)).
End GroupBy.

Section ByAdvertiser.
Context {R : Type} (adv : R -> string).

(** [sort_values] with several [by] columns goes through pandas'
    lexsort, which is stable: rows with equal sort keys keep their
    relative order.  [leb x y] is "the sort key of [x] is not after that
    of [y]". *)
Fixpoint insert_row (leb : R -> R -> bool) (x : R) (l : list R) : list R :=
  match l with
  | [] => [x]
  | y :: l' => if leb x y then x :: l else y :: insert_row leb x l'
  end.

Definition sort_values (leb : R -> R -> bool) (l : list R) : list R :=
  fold_right (insert_row leb) [] l.

(** Selects the rows of advertiser [a]. *)
Definition of_adv (a : string) (r : R) : bool := String.eqb (adv r) a.

Definition seen_count (a : string) (seen : list string) : nat :=
  count_occ string_dec seen a.

(** [groupby("advertiser_id").cumcount()]: for each row, how many earlier
    rows have its advertiser. *)
Fixpoint cumcount_from (seen : list string) (l : list R) : list nat :=
  match l with
  | [] => []
  | r :: l' =>
      seen_count (adv r) seen :: cumcount_from (adv r :: seen) l'
  end.

Definition cumcount (l : list R) : list nat := cumcount_from [] l.

(** [groupby("advertiser_id").head(n)]: the rows that are among the first
    [n] of their advertiser, in row order. *)
Fixpoint head_from (n : nat) (seen : list string) (l : list R) : list R :=
  match l with
  | [] => []
  | r :: l' =>
      if seen_count (adv r) seen <? n
      then r :: head_from n (adv r :: seen) l'
      else head_from n (adv r :: seen) l'
  end.

Definition groupby_head (n : nat) (l : list R) : list R := head_from n [] l.
End ByAdvertiser.

(** *** TopProduct *)

Definition pv_key (r : ProductView) : option key :=
  match pv_advertiser_id r, pv_product_id r with
  | Some a, Some p => Some (a, p)
  | _, _ => None
  end.

(** Frame [views]: columns advertiser_id, product_id, views. *)
Record ViewsRow : Type := mkViews {
  vw_advertiser_id : string;
  vw_product_id : string;
  vw_views : nat
}.

(** [by=["advertiser_id", "views"], ascending=[True, False]]. *)
Definition views_leb (x y : ViewsRow) : bool :=
  match String.compare (vw_advertiser_id x) (vw_advertiser_id y) with
  | Lt => true
  | Eq => vw_views y <=? vw_views x
  | Gt => false
  end.

(** Frame [top_product] as written to top_product.csv. *)
Record TopProductRow : Type := mkTopProduct {
  tp_advertiser_id : string;
  tp_product_id : string;
  tp_views : nat;
  tp_model : string;
  tp_rank : nat
}.

Definition calcular_top_product (product_views_filtered : list ProductView)
    : list TopProductRow :=
  let views :=
    map (fun g => mkViews (fst (fst g)) (snd (fst g)) (List.length (snd g)))
        (groupby pv_key product_views_filtered) in
  let views := sort_values views_leb views in
  let top_product := groupby_head vw_advertiser_id 20 views in
  map (fun p =>
         mkTopProduct (vw_advertiser_id (fst p)) (vw_product_id (fst p))
                      (vw_views (fst p)) "top_product" (snd p + 1))
      (combine top_product (cumcount vw_advertiser_id top_product)).

(** *** TopCTR *)

(** [(df["type"] == t).astype(int)]. *)
Definition type_is (t : string) (c : cell) : nat :=
  match c with
  | Some s => if String.eqb s t then 1 else 0
  | None => 0
  end.

(** Frame [df]: the filtered log with columns [impression] and [click]. *)
Record AdRow : Type := mkAdRow {
  ad_advertiser_id : cell;
  ad_product_id : cell;
  ad_type : cell;
  ad_impression : nat;
  ad_click : nat
}.

Definition with_flags (r : AdView) : AdRow :=
  mkAdRow (av_advertiser_id r) (av_product_id r) (av_type r)
          (type_is "impression" (av_type r))
          (type_is "click" (av_type r)).

Definition ad_key (r : AdRow) : option key :=
  match ad_advertiser_id r, ad_product_id r with
  | Some a, Some p => Some (a, p)
  | _, _ => None
  end.

(** Frame [agg] with its [ctr] column. *)
Record CtrRow : Type := mkCtr {
  cr_advertiser_id : string;
  cr_product_id : string;
  cr_impressions : nat;
  cr_clicks : nat;
  cr_ctr : Q
}.

(** [agg["clicks"] / agg["impressions"]], evaluated on rows with
    [impressions > 0] only. *)
Definition divide (clicks impressions : nat) : Q :=
  Z.of_nat clicks # Pos.of_nat impressions.

(** [by=["advertiser_id", "ctr"], ascending=[True, False]]. *)
Definition ctr_leb (x y : CtrRow) : bool :=
  match String.compare (cr_advertiser_id x) (cr_advertiser_id y) with
  | Lt => true
  | Eq => Qle_bool (cr_ctr y) (cr_ctr x)
  | Gt => false
  end.

(** Frame [top_ctr] as written to top_ctr.csv. *)
Record TopCtrRow : Type := mkTopCtr {
  tc_advertiser_id : string;
  tc_product_id : string;
  tc_impressions : nat;
  tc_clicks : nat;
  tc_ctr : Q;
  tc_model : string;
  tc_rank : nat
}.

Definition calcular_top_ctr (ads_views_filtered : list AdView)
    : list TopCtrRow :=
  let df := map with_flags ads_views_filtered in
  let agg :=
    map (fun g => (fst g, (list_sum (map ad_impression (snd g)),
                           list_sum (map ad_click (snd g)))))
        (groupby ad_key df) in
  let agg := filter (fun g => 0 <? fst (snd g)) agg in
  let agg :=
    map (fun g => mkCtr (fst (fst g)) (snd (fst g)) (fst (snd g)) (snd (snd g))
                        (divide (snd (snd g)) (fst (snd g))))
        agg in
  let agg := sort_values ctr_leb agg in
  let top_ctr := groupby_head cr_advertiser_id 20 agg in
  map (fun p =>
         mkTopCtr (cr_advertiser_id (fst p)) (cr_product_id (fst p))
                  (cr_impressions (fst p)) (cr_clicks (fst p))
                  (cr_ctr (fst p)) "top_ctr" (snd p + 1))
      (combine top_ctr (cumcount cr_advertiser_id top_ctr)).

(** *** DBWriting: merging the two frames *)

(** A row of the concatenated frame: the union of the columns of both
    frames, a missing one being [None]. *)
Record WideRow : Type := mkWide {
  w_advertiser_id : string;
  w_product_id : string;
  w_model : string;
  w_rank : nat;
  w_views : option nat;
  w_impressions : option nat;
  w_clicks : option nat;
  w_ctr : option pyfloat
}.

(** [top_product["impressions"] = None], and so for clicks and ctr: three
    columns of dtype object.  What the concatenation makes of them is in
    [pd_concat]. *)
Definition widen_top_product (r : TopProductRow) : WideRow :=
  mkWide (tp_advertiser_id r) (tp_product_id r) (tp_model r) (tp_rank r)
         (Some (tp_views r)) None None None.

(** [top_ctr["views"] = None]: top_ctr.csv has no column [views]. *)
Definition widen_top_ctr (r : TopCtrRow) : WideRow :=
  mkWide (tc_advertiser_id r) (tc_product_id r) (tc_model r) (tc_rank r)
         None (Some (tc_impressions r)) (Some (tc_clicks r))
         (Some (Finite (tc_ctr r))).

(** The value of column ctr once the column is of dtype float64: the missing
    value of that dtype is NaN. *)
Definition as_float64 (w : WideRow) : WideRow :=
  mkWide (w_advertiser_id w) (w_product_id w) (w_model w) (w_rank w)
         (w_views w) (w_impressions w) (w_clicks w)
         (match w_ctr w with
          | None => Some NaN
          | Some x => Some x
          end).

(** [pd.concat([top_product, top_ctr], ignore_index=True, sort=False)]: the
    rows of both frames.  pandas (before 3.0) picks the dtype of a column of
    the result from the frames in which the column is not all missing.
    Column ctr is all None in top_product and float64 in a top_ctr that has
    rows: the column of the result is float64 then, and the None of
    top_product come out as NaN.  views, impressions and clicks meet an
    all-None column as well, but int64 holds no missing value: these columns
    come out with dtype object and keep None.  A top_ctr without rows is read
    with every column of dtype object, and nothing is converted. *)
Definition pd_concat (top_product top_ctr : list WideRow) : list WideRow :=
  match top_ctr with
  | [] => top_product ++ top_ctr
  | _ :: _ => map as_float64 (top_product ++ top_ctr)
  end.

(** [recommendations["date"] = execution_date], then the columns in the
    order of the table. *)
Definition stamp (execution_date : string) (w : WideRow) : RankingRecord :=
  mkRecord execution_date (w_advertiser_id w) (w_model w) (w_product_id w)
           (w_rank w) (w_views w) (w_impressions w) (w_clicks w) (w_ctr w).

(** The list [records] handed to psycopg2, which writes None as NULL and a
    float NaN as the float NaN of the database. *)
Definition recommendations (execution_date : string)
    (top_product : list TopProductRow) (top_ctr : list TopCtrRow)
    : list RankingRecord :=
  let recommendations :=
    pd_concat (map widen_top_product top_product)
              (map widen_top_ctr top_ctr) in
  map (stamp execution_date) recommendations.

(** *** DBWriting: the transaction *)

Inductive stmt : Type :=
| DeleteDate (d : string)
| InsertValues (rows : list RankingRecord).

Definition run_stmt (s : stmt) (t : Table) : Table :=
  match s with
  | DeleteDate d => filter (fun r => negb (String.eqb (date r) d)) t
  | InsertValues rows => t ++ rows
  end.

(** The store as one psycopg2 connection sees it.  [committed] is what other
    sessions read; [pending] is the view of the open transaction; [faults]
    tells, call by call, whether the next database call raises. *)
Record Conn : Type := mkConn {
  committed : Table;
  pending : Table;
  in_transaction : bool;
  faults : list bool
}.

Definition open_store (db : Table) (fs : list bool) : Conn := mkConn db db false fs.

Inductive outcome (A : Type) : Type :=
| Returned (a : A)
| Raised.
Arguments Returned {A} a.
Arguments Raised {A}.

Definition Db (A : Type) : Type := Conn -> outcome A * Conn.

Definition ret {A : Type} (a : A) : Db A := fun c => (Returned a, c).

Definition bind {A B : Type} (m : Db A) (k : A -> Db B) : Db B :=
  fun c =>
    match m c with
    | (Returned a, c') => k a c'
    | (Raised, c') => (Raised, c')
    end.

Notation "m ;; k" := (bind m (fun _ => k)) (at level 61, right associativity).

Definition next_fault (c : Conn) : bool * Conn :=
  match faults c with
  | [] => (false, c)
  | f :: fs => (f, mkConn (committed c) (pending c) (in_transaction c) fs)
  end.

(** [psycopg2.connect(...)]. *)
Definition connect : Db unit :=
  fun c => let (f, c) := next_fault c in
           if f then (Raised, c) else (Returned tt, c).

(** [cur.execute(sql)]: the first statement opens the transaction. *)
Definition execute (s : stmt) : Db unit :=
  fun c =>
    let (f, c) := next_fault c in
    if f
    then (Raised, mkConn (committed c) (pending c) true (faults c))
    else (Returned tt,
          mkConn (committed c) (run_stmt s (pending c)) true (faults c)).

(** [conn.commit()]: nothing is sent when no transaction is open. *)
Definition commit : Db unit :=
  fun c =>
    if in_transaction c then
      let (f, c) := next_fault c in
      if f then (Raised, c)
      else (Returned tt, mkConn (pending c) (pending c) false (faults c))
    else (Returned tt, c).

Definition rollback (c : Conn) : Conn :=
  mkConn (committed c) (committed c) false (faults c).

(** [with conn: body]: commit when the body returns, roll back when it
    raises, and let the exception through. *)
Definition with_conn {A : Type} (body : Db A) : Db A :=
  fun c =>
    match body c with
    | (Returned a, c') =>
        match commit c' with
        | (Returned _, c'') => (Returned a, c'')
        | (Raised, c'') => (Raised, rollback c'')
        end
    | (Raised, c') => (Raised, rollback c')
    end.

Fixpoint pages_fuel {A : Type} (fuel page_size : nat) (l : list A)
    : list (list A) :=
  match fuel with
  | 0 => []
  | S fuel' =>
      match l with
      | [] => []
      | _ :: _ =>
          firstn page_size l :: pages_fuel fuel' page_size (skipn page_size l)
      end
  end.

(** The pages [execute_values] cuts its argument into. *)
Definition pages {A : Type} (page_size : nat) (l : list A) : list (list A) :=
  pages_fuel (List.length l) page_size l.

Fixpoint execute_many (ss : list stmt) : Db unit :=
  match ss with
  | [] => ret tt
  | s :: ss' => execute s ;; execute_many ss'
  end.

(** [execute_values(cur, insert_sql, records)]: one INSERT per page of 100. *)
Definition execute_values (records : list RankingRecord) : Db unit :=
  execute_many (map InsertValues (pages 100 records)).

Definition db_writing (execution_date : string)
    (top_product : list TopProductRow) (top_ctr : list TopCtrRow) : Db unit :=
  let records := recommendations execution_date top_product top_ctr in
  connect ;;
  with_conn
    ((execute (DeleteDate execution_date) ;;
      execute_values records) ;;
     commit).

(** *** The DAG: FiltrarDatos >> TopProduct >> TopCTR >> DBWriting *)
Definition tp_recommendations_pipeline (ds : string) (advertisers : list cell)
    (product_views : list ProductView) (ads_views : list AdView) : Db unit :=
  let (product_views_filtered, ads_views_filtered) :=
    filtrar_datos advertisers product_views ads_views in
  let top_product := calcular_top_product product_views_filtered in
  let top_ctr := calcular_top_ctr ads_views_filtered in
  db_writing ds top_product top_ctr.

End Pipeline.

Import Pipeline.

(** ** The read services

    Both services answer from table [recommendations].  A [Session] is the
    table together with the statements the service has sent so far. *)

Inductive sql : Type :=
| SelectRows (d adv m : string)
| SelectMaxDate (adv m : string).

Record Session : Type := mkSession {
  table : Table;
  queries : list sql
}.

Definition new_session (db : Table) : Session := mkSession db [].

(** A JSON scalar of a response. *)
Inductive json : Type :=
| JNull
| JInt (n : nat)
| JFloat (f : pyfloat)
| JStr (s : string).

(** A Python dict with string keys, in insertion order. *)
Definition item : Type := list (string * json).

Record Response : Type := mkResponse {
  resp_fields : item;
  resp_recommendations : list item
}.

Inductive http (A : Type) : Type :=
| Ok (a : A)
| HTTPException (status_code : nat).
Arguments Ok {A} a.
Arguments HTTPException {A} status_code.

Definition json_int (v : option nat) : json :=
  match v with
  | Some n => JInt n
  | None => JNull
  end.

Definition json_float (v : option pyfloat) : json :=
  match v with
  | Some f => JFloat f
  | None => JNull
  end.

(** [str.lower()] on ASCII text. *)
Definition lower_ascii (c : ascii) : ascii :=
  let n := nat_of_ascii c in
  if (65 <=? n) && (n <=? 90) then ascii_of_nat (n + 32) else c.

Fixpoint lower (s : string) : string :=
  match s with
  | EmptyString => EmptyString
  | String c s' => String (lower_ascii c) (lower s')
  end.

(** [... WHERE date = d AND advertiser_id = adv AND model = m
        ORDER BY rank ASC]. *)
Definition select_rows (d adv m : string) (t : Table) : list RankingRecord :=
  sort_values (fun x y => rank x <=? rank y)
    (filter (fun r => String.eqb (date r) d &&
                      String.eqb (advertiser_id r) adv &&
                      String.eqb (model r) m) t).

(** [SELECT MAX(date) ... WHERE advertiser_id = adv AND model = m]; dates are
    ISO text, ordered as text. *)
Definition select_max_date (adv m : string) (t : Table) : option string :=
  fold_left
    (fun best r =>
       if String.eqb (advertiser_id r) adv && String.eqb (model r) m then
         match best with
         | None => Some (date r)
         | Some d => if String.ltb d (date r) then Some (date r) else Some d
         end
       else best)
    t None.

Module ApiMain.

(** [safe_float] on a value of column [ctr]: SQL NULL or a float, for which
    [float(value)] is the value itself. *)
Definition safe_float (value : option pyfloat) : option pyfloat :=
  match value with
  | None => None
  | Some f =>
      match f with
      | NaN | PosInf | NegInf => None
      | Finite q => Some (Finite q)
      end
  end.

Definition rec_item (r : RankingRecord) : item :=
  [("date", JStr (date r));
   ("advertiser_id", JStr (advertiser_id r));
   ("model", JStr (model r));
   ("product_id", JStr (product_id r));
   ("rank", JInt (rank r));
   ("views", json_int (views r));
   ("impressions", json_int (impressions r));
   ("clicks", json_int (clicks r));
   ("ctr", json_float (safe_float (ctr r)))].

(** [today] is the value of [date.today()]. *)
Definition get_recommendations (today adv model : string) (s : Session)
    : http Response * Session :=
  let model_normalized := lower model in
  if negb (String.eqb model_normalized "top_product" ||
           String.eqb model_normalized "top_ctr")
  then (HTTPException 400, s)
  else
    let rows := select_rows today adv model_normalized (table s) in
    let s := mkSession (table s)
               (queries s ++ [SelectRows today adv model_normalized]) in
    match rows with
    | [] => (HTTPException 404, s)
    | _ :: _ =>
        let recs := map rec_item rows in
        (Ok (mkResponse
               [("date", JStr today);
                ("advertiser_id", JStr adv);
                ("model", JStr model_normalized);
                ("num_recommendations", JInt (List.length recs))]
               recs),
         s)
    end.

End ApiMain.

Module TpApi.

Definition ALLOWED_MODELS : list string := ["top_product"; "top_ctr"].

(** [fetch_one] and [fetch_all] of app/db.py, at the two statements used. *)
Definition fetch_one (adv m : string) (s : Session) : option string * Session :=
  (select_max_date adv m (table s),
   mkSession (table s) (queries s ++ [SelectMaxDate adv m])).

Definition fetch_all (d adv m : string) (s : Session)
    : list RankingRecord * Session :=
  (select_rows d adv m (table s),
   mkSession (table s) (queries s ++ [SelectRows d adv m])).

Definition rec_item (model : string) (r : RankingRecord) : item :=
  let item := [("rank", JInt (rank r)); ("product_id", JStr (product_id r))] in
  if String.eqb model "top_product"
  then item ++ [("views", json_int (views r))]
  else item ++ [("impressions", json_int (impressions r));
                ("clicks", json_int (clicks r));
                ("ctr", json_float (ctr r))].

Definition recommendations (adv model : string) (s : Session)
    : http Response * Session :=
  let model := lower model in
  if negb (existsb (String.eqb model) ALLOWED_MODELS)
  then (HTTPException 400, s)
  else
    let (latest, s) := fetch_one adv model s in
    match latest with
    | None => (HTTPException 404, s)
    | Some day =>
        let (rows, s) := fetch_all day adv model s in
        let recs := map (rec_item model) rows in
        (Ok (mkResponse
               [("advertiser_id", JStr adv);
                ("model", JStr model);
                ("date", JStr day);
                ("count", JInt (List.length recs))]
               recs),
         s)
    end.

End TpApi.

(** ** The statistics of main.py

    [get_stats] of main.py builds, from the rows of today, a dict from
    advertiser to the sets of its top_product and top_ctr products, and from
    it the Jaccard overlap of the two models.  A Python set is the list of
    its elements without repetition; the dict is the list of its items in
    insertion order. *)

Module MainStats.

Definition set_mem (x : string) (s : list string) : bool :=
  existsb (String.eqb x) s.

(** [s.add(x)]. *)
Definition set_add (x : string) (s : list string) : list string :=
  if set_mem x s then s else s ++ [x].

(** [tp.intersection(tc)] and [tp.union(tc)]. *)
Definition intersection (tp tc : list string) : list string :=
  filter (fun x => set_mem x tc) tp.

Definition union (tp tc : list string) : list string :=
  tp ++ filter (fun x => negb (set_mem x tp)) tc.

(** The value [{"top_product": set(), "top_ctr": set()}] of an advertiser. *)
Definition models : Type := (list string * list string)%type.

Definition dict_has (k : string) (d : list (string * models)) : bool :=
  existsb (fun kv => String.eqb (fst kv) k) d.

(** [d[k] = f(d[k])] for a key of the dict. *)
Fixpoint dict_update (k : string) (f : models -> models)
    (d : list (string * models)) : list (string * models) :=
  match d with
  | [] => []
  | (k', v) :: d' =>
      if String.eqb k' k then (k', f v) :: d'
      else (k', v) :: dict_update k f d'
  end.

(** One turn of the loop over [rows]; a row is
    (advertiser_id, model, product_id). *)
Definition add_row (d : list (string * models))
    (row : string * string * string) : list (string * models) :=
  let adv_id := fst (fst row) in
  let model := snd (fst row) in
  let product_id := snd row in
  let d := if dict_has adv_id d then d else d ++ [(adv_id, ([], []))] in
  if String.eqb model "top_product" || String.eqb model "top_ctr" then
    dict_update adv_id
      (fun ms => if String.eqb model "top_product"
                 then (set_add product_id (fst ms), snd ms)
                 else (fst ms, set_add product_id (snd ms)))
      d
  else d.

Definition adv_models (rows : list (string * string * string))
    : list (string * models) :=
  fold_left add_row rows [].

Record Overlap : Type := mkOverlap {
  ov_advertiser_id : string;
  intersection_size : nat;
  union_size : nat;
  jaccard : Q
}.

(** The entry of one advertiser, if both of its sets are non-empty. *)
Definition overlap_of (kv : string * models) : list Overlap :=
  let adv_id := fst kv in
  let tp := fst (snd kv) in
  let tc := snd (snd kv) in
  match tp, tc with
  | _ :: _, _ :: _ =>
      let inter := intersection tp tc in
      let union := union tp tc in
      let jaccard :=
        match union with
        | [] => 0%Q
        | _ :: _ => divide (List.length inter) (List.length union)
        end in
      [mkOverlap adv_id (List.length inter) (List.length union) jaccard]
  | _, _ => []
  end.

Definition overlaps_of (d : list (string * models)) : list Overlap :=
  flat_map overlap_of d.

(** [sum(o["jaccard"] for o in overlaps) / len(overlaps)], or 0.0. *)
Definition avg_jaccard (overlaps : list Overlap) : Q :=
  match overlaps with
  | [] => 0%Q
  | _ :: _ =>
      (fold_left (fun acc o => acc + jaccard o) overlaps 0
       / inject_Z (Z.of_nat (List.length overlaps)))%Q
  end.

(** [sorted(overlaps, key=jaccard, reverse=True)]: the sort is stable. *)
Definition jaccard_leb (x y : Overlap) : bool :=
  Qle_bool (jaccard y) (jaccard x).

Definition overlaps_sorted (overlaps : list Overlap) : list Overlap :=
  sort_values jaccard_leb overlaps.

(** [l[-n:]]. *)
Definition last_n {A : Type} (n : nat) (l : list A) : list A :=
  skipn (List.length l - n) l.

Definition top_5_mas_similares (overlaps : list Overlap) : list Overlap :=
  firstn 5 (overlaps_sorted overlaps).

Definition top_5_menos_similares (overlaps : list Overlap) : list Overlap :=
  rev (last_n 5 (overlaps_sorted overlaps)).

End MainStats.

(** ** The connections of main.py

    [get_history], [get_stats] and [health] of main.py with the connection
    each of them opens.  A [Server] is the table, the number of connections
    main.py holds open, and the faults of the database calls to come. *)

Module MainIo.

Record Server : Type := mkServer {
  srv_table : Table;
  srv_open : nat;
  srv_faults : list bool
}.

(** What a piece of an endpoint does: it returns, raises HTTPException, or
    lets an error of psycopg2 through. *)
Inductive result (A : Type) : Type :=
| Return (a : A)
| RaiseHTTP (status_code : nat)
| RaiseDb.
Arguments Return {A} a.
Arguments RaiseHTTP {A} status_code.
Arguments RaiseDb {A}.

Definition take_fault (s : Server) : bool * Server :=
  match srv_faults s with
  | [] => (false, s)
  | f :: fs => (f, mkServer (srv_table s) (srv_open s) fs)
  end.

(** [get_connection()]: [psycopg2.connect(...)]. *)
Definition get_connection (s : Server) : result unit * Server :=
  let (f, s) := take_fault s in
  if f then (RaiseDb, s)
  else (Return tt, mkServer (srv_table s) (S (srv_open s)) (srv_faults s)).

(** [conn.close()]. *)
Definition close (s : Server) : Server :=
  mkServer (srv_table s) (srv_open s - 1) (srv_faults s).

(** [cur.execute(query, params)] followed by the fetch of its result. *)
Definition execute_fetch {A : Type} (query : Table -> A) (s : Server)
    : result A * Server :=
  let (f, s) := take_fault s in
  if f then (RaiseDb, s) else (Return (query (srv_table s)), s).

(** [ORDER BY date DESC, model, rank ASC]. *)
Definition history_leb (x y : RankingRecord) : bool :=
  match String.compare (date y) (date x) with
  | Lt => true
  | Gt => false
  | Eq =>
      match String.compare (model x) (model y) with
      | Lt => true
      | Gt => false
      | Eq => rank x <=? rank y
      end
  end.

(** The statement of [get_history]; dates are ISO text, compared as text. *)
Definition select_history (adv seven_days_ago today : string) (t : Table)
    : list RankingRecord :=
  sort_values history_leb
    (filter (fun r => String.eqb (advertiser_id r) adv &&
                      String.leb seven_days_ago (date r) &&
                      String.leb (date r) today) t).

Record History : Type := mkHistory {
  hist_fields : item;
  hist_history : list item
}.

(** [today] is the value of [date.today()] and [seven_days_ago] that of
    [today - timedelta(days=7)]. *)
Definition get_history (today seven_days_ago adv : string) (s : Server)
    : result History * Server :=
  match get_connection s with
  | (Return _, s) =>
      let (fetched, s) :=
        execute_fetch (select_history adv seven_days_ago today) s in
      let s := close s in
      match fetched with
      | Return [] => (RaiseHTTP 404, s)
      | Return rows =>
          let recs := map ApiMain.rec_item rows in
          (Return (mkHistory
                     [("advertiser_id", JStr adv);
                      ("from_date", JStr seven_days_ago);
                      ("to_date", JStr today);
                      ("num_records", JInt (List.length recs))]
                     recs),
           s)
      | RaiseHTTP c => (RaiseHTTP c, s)
      | RaiseDb => (RaiseDb, s)
      end
  | (RaiseHTTP c, s) => (RaiseHTTP c, s)
  | (RaiseDb, s) => (RaiseDb, s)
  end.

Definition rows_today (today : string) (t : Table) : Table :=
  filter (fun r => String.eqb (date r) today) t.

Record Stats : Type := mkStats {
  stats_date : string;
  num_advertisers_today : nat;
  total_recommendations_today : nat;
  avg_jaccard_top_product_vs_top_ctr : Q;
  top_5_advertisers_mas_similares : list MainStats.Overlap;
  top_5_advertisers_menos_similares : list MainStats.Overlap
}.

(** The three statements of [get_stats], in one [try]. *)
Definition stats_queries (today : string) (s : Server)
    : result (nat * nat * list (string * string * string)) * Server :=
  match execute_fetch
          (fun t => List.length
                      (nodup string_dec
                         (map advertiser_id (rows_today today t)))) s with
  | (Return num_advertisers, s) =>
      match execute_fetch (fun t => List.length (rows_today today t)) s with
      | (Return total_recs, s) =>
          match execute_fetch
                  (fun t => map (fun r => (advertiser_id r, model r, product_id r))
                                (rows_today today t)) s with
          | (Return rows, s) => (Return (num_advertisers, total_recs, rows), s)
          | (RaiseHTTP c, s) => (RaiseHTTP c, s)
          | (RaiseDb, s) => (RaiseDb, s)
          end
      | (RaiseHTTP c, s) => (RaiseHTTP c, s)
      | (RaiseDb, s) => (RaiseDb, s)
      end
  | (RaiseHTTP c, s) => (RaiseHTTP c, s)
  | (RaiseDb, s) => (RaiseDb, s)
  end.

Definition get_stats (today : string) (s : Server) : result Stats * Server :=
  match get_connection s with
  | (Return _, s) =>
      let (fetched, s) := stats_queries today s in
      let s := close s in
      match fetched with
      | Return (num_advertisers, total_recs, rows) =>
          let overlaps := MainStats.overlaps_of (MainStats.adv_models rows) in
          (Return (mkStats today num_advertisers total_recs
                     (MainStats.avg_jaccard overlaps)
                     (MainStats.top_5_mas_similares overlaps)
                     (MainStats.top_5_menos_similares overlaps)),
           s)
      | RaiseHTTP c => (RaiseHTTP c, s)
      | RaiseDb => (RaiseDb, s)
      end
  | (RaiseHTTP c, s) => (RaiseHTTP c, s)
  | (RaiseDb, s) => (RaiseDb, s)
  end.

(** [health]: the error of a failed connection is caught. *)
Definition health (s : Server) : result item * Server :=
  let (db_status, s) :=
    match get_connection s with
    | (Return _, s) => ("ok", close s)
    | (_, s) => ("error", s)
    end in
  (Return [("status", JStr "ok"); ("db_status", JStr db_status)], s).

End MainIo.

(** ** The connection pool of tp-api

    [get_pool], [fetch_all] and [fetch_one] of app/db.py, and [history] of
    app/main.py on top of them.  A [Process] is the environment, the module
    variable [_pool], the table and the faults of the calls to come.  The
    pool is psycopg2's SimpleConnectionPool with minconn=1 and maxconn=5: it
    keeps at most one idle connection and hands out at most five. *)

Module TpDb.

Record PoolConfig : Type := mkPoolConfig {
  host : string;
  port : Z;
  dbname : string;
  user : string;
  password : string
}.

Record Pool : Type := mkPool {
  config : PoolConfig;
  idle : nat;
  in_use : nat
}.

Record Process : Type := mkProcess {
  environ : list (string * string);
  _pool : option Pool;
  db : Table;
  faults : list bool
}.

Inductive exn : Type :=
| KeyError (k : string)
| ValueError
| OperationalError
| PoolError
| HTTPException (status_code : nat).

Inductive result (A : Type) : Type :=
| Return (a : A)
| Raise (e : exn).
Arguments Return {A} a.
Arguments Raise {A} e.

(** [os.environ.get(k)]. *)
Fixpoint environ_get (k : string) (env : list (string * string))
    : option string :=
  match env with
  | [] => None
  | (k', v) :: env' => if String.eqb k' k then Some v else environ_get k env'
  end.

Definition take_fault (p : Process) : bool * Process :=
  match faults p with
  | [] => (false, p)
  | f :: fs => (f, mkProcess (environ p) (_pool p) (db p) fs)
  end.

Section Parsing.
(** [int(text)]; [None] when it raises ValueError. *)
Variable py_int : string -> option Z.

(** The keyword arguments of [SimpleConnectionPool(...)], evaluated in the
    order they are written. *)
Definition pool_config (env : list (string * string)) : result PoolConfig :=
  match environ_get "DB_HOST" env with
  | None => Raise (KeyError "DB_HOST")
  | Some h =>
      match py_int (match environ_get "DB_PORT" env with
                    | Some v => v
                    | None => "5432"
                    end) with
      | None => Raise ValueError
      | Some n =>
          let name := match environ_get "DB_NAME" env with
                      | Some v => v
                      | None => "postgres"
                      end in
          match environ_get "DB_USER" env with
          | None => Raise (KeyError "DB_USER")
          | Some u =>
              match environ_get "DB_PASSWORD" env with
              | None => Raise (KeyError "DB_PASSWORD")
              | Some pw => Return (mkPoolConfig h n name u pw)
              end
          end
      end
  end.

(** [get_pool()]: the pool is built on first use, with its one idle
    connection; [_pool] is assigned only when the constructor returns. *)
Definition get_pool (p : Process) : result unit * Process :=
  match _pool p with
  | Some _ => (Return tt, p)
  | None =>
      match pool_config (environ p) with
      | Raise e => (Raise e, p)
      | Return cfg =>
          let (f, p) := take_fault p in
          if f then (Raise OperationalError, p)
          else (Return tt,
                mkProcess (environ p) (Some (mkPool cfg 1 0)) (db p) (faults p))
      end
  end.

(** [pool.getconn()]: an idle connection if there is one, else a new one
    unless five are out. *)
Definition getconn (p : Process) : result unit * Process :=
  match _pool p with
  | None => (Raise PoolError, p)
  | Some pl =>
      match idle pl with
      | S n =>
          (Return tt,
           mkProcess (environ p) (Some (mkPool (config pl) n (S (in_use pl))))
                     (db p) (faults p))
      | 0 =>
          if in_use pl =? 5 then (Raise PoolError, p)
          else
            let (f, p) := take_fault p in
            if f then (Raise OperationalError, p)
            else (Return tt,
                  mkProcess (environ p)
                            (Some (mkPool (config pl) 0 (S (in_use pl))))
                            (db p) (faults p))
      end
  end.

(** [pool.putconn(conn)]: kept idle when the pool has no idle connection,
    closed otherwise. *)
Definition putconn (p : Process) : Process :=
  match _pool p with
  | None => p
  | Some pl =>
      mkProcess (environ p)
                (Some (mkPool (config pl)
                              (if idle pl <? 1 then S (idle pl) else idle pl)
                              (in_use pl - 1)))
                (db p) (faults p)
  end.

(** [cur.execute(sql, params)] and the fetch, inside [try]. *)
Definition run_query {A : Type} (query : Table -> A) (p : Process)
    : result A * Process :=
  let (f, p) := take_fault p in
  if f then (Raise OperationalError, p) else (Return (query (db p)), p).

Definition with_conn_of_pool {A : Type} (query : Table -> A) (p : Process)
    : result A * Process :=
  match get_pool p with
  | (Raise e, p) => (Raise e, p)
  | (Return _, p) =>
      match getconn p with
      | (Raise e, p) => (Raise e, p)
      | (Return _, p) =>
          let (r, p) := run_query query p in
          (r, putconn p)
      end
  end.

(** [fetch_all(sql, params)]: the rows of the statement. *)
Definition fetch_all {A : Type} (query : Table -> list A) (p : Process)
    : result (list A) * Process :=
  with_conn_of_pool query p.

(** [fetch_one(sql, params)]: the first row of the statement, or None. *)
Definition fetch_one {A : Type} (query : Table -> list A) (p : Process)
    : result (option A) * Process :=
  with_conn_of_pool (fun t => hd_error (query t)) p.

(** *** /history/{adv} of app/main.py *)

(** [... WHERE advertiser_id = adv AND date >= since
        ORDER BY date DESC, model ASC, rank ASC], where [since] is the value
    of [CURRENT_DATE - INTERVAL '7 days']. *)
Definition select_since (adv since : string) (t : Table)
    : list RankingRecord :=
  sort_values MainIo.history_leb
    (filter (fun r => String.eqb (advertiser_id r) adv &&
                      String.leb since (date r)) t).

Definition hist_item (r : RankingRecord) : item :=
  [("rank", JInt (rank r));
   ("product_id", JStr (product_id r));
   ("views", json_int (views r));
   ("impressions", json_int (impressions r));
   ("clicks", json_int (clicks r));
   ("ctr", json_float (ctr r))].

(** [d.setdefault(k, default)] followed by an update of the value in
    place. *)
Fixpoint setdefault_update {V : Type} (k : string) (default : V)
    (f : V -> V) (d : list (string * V)) : list (string * V) :=
  match d with
  | [] => [(k, f default)]
  | (k', v) :: d' =>
      if String.eqb k' k then (k', f v) :: d'
      else (k', v) :: setdefault_update k default f d'
  end.

(** [out.setdefault(d, {}).setdefault(m, []).append(item)]. *)
Definition add_history (out : list (string * list (string * list item)))
    (r : RankingRecord) : list (string * list (string * list item)) :=
  setdefault_update (date r) []
    (fun by_model =>
       setdefault_update (model r) [] (fun l => l ++ [hist_item r]) by_model)
    out.

Definition group_history (rows : list RankingRecord)
    : list (string * list (string * list item)) :=
  fold_left add_history rows [].

Definition history (adv since : string) (p : Process)
    : result (string * list (string * list (string * list item))) * Process :=
  match fetch_all (select_since adv since) p with
  | (Raise e, p) => (Raise e, p)
  | (Return [], p) => (Raise (HTTPException 404), p)
  | (Return rows, p) => (Return (adv, group_history rows), p)
  end.

End Parsing.

End TpDb.

(** ** Vocabulary of the specification *)

(** *** Example logs and stores *)

(** Rows with every cell present. *)
Definition pvrow (a p : string) : ProductView := mkProductView (Some a) (Some p).

Definition adrow (a p t : string) : AdView :=
  mkAdView (Some a) (Some p) (Some t).

(** The product-view log of the worked example and its expected ranking. *)
Definition example_product_views : list ProductView :=
  [pvrow "A1" "P1"; pvrow "A1" "P2"; pvrow "A1" "P3"; pvrow "A1" "P2";
   pvrow "A1" "P1"; pvrow "A1" "P2"; pvrow "A1" "P1"].

Definition example_top_product : list TopProductRow :=
  [mkTopProduct "A1" "P1" 3 "top_product" 1;
   mkTopProduct "A1" "P2" 3 "top_product" 2;
   mkTopProduct "A1" "P3" 1 "top_product" 3].

(** The ad-view log of the worked example and its expected ranking. *)
Definition example_ads_views : list AdView :=
  repeat (adrow "A1" "P1" "impression") 10 ++
  repeat (adrow "A1" "P1" "click") 5 ++
  repeat (adrow "A1" "P2" "impression") 4 ++
  repeat (adrow "A1" "P2" "click") 4.

Definition example_top_ctr : list TopCtrRow :=
  [mkTopCtr "A1" "P2" 4 4 (4 # 4) "top_ctr" 1;
   mkTopCtr "A1" "P1" 10 5 (5 # 10) "top_ctr" 2].

(** A log with more clicks than impressions for one product. *)
Definition overclicked_ads_views : list AdView :=
  [adrow "A1" "P1" "impression"; adrow "A1" "P1" "click";
   adrow "A1" "P1" "click"].

(** A row with no product and an unknown type, of a registered advertiser
    and of one that is not registered. *)
Definition malformed_ad_view : AdView :=
  mkAdView (Some "A1") None (Some "banner").


(** A store holding rows of two days. *)
Definition example_store : Table :=
  [mkRecord "2025-12-02" "A1" "top_product" "P7" 1 (Some 4) None None None;
   mkRecord "2025-12-03" "A1" "top_product" "P9" 1 (Some 2) None None None].

(** A store whose only top_ctr row has a NaN ctr. *)
Definition nan_store : Table :=
  [mkRecord "2025-12-03" "A1" "top_ctr" "P1" 1 None (Some 0) (Some 0) (Some NaN)].

(** *** Rankings *)

(** Number of rows of a product-view log for advertiser [a] and product [p]. *)
Definition count_views (a p : string) (l : list ProductView) : nat :=
  List.length
    (filter (fun v => cell_eqb (pv_advertiser_id v) (Some a) &&
                      cell_eqb (pv_product_id v) (Some p)) l).

(** Number of rows of an ad-view log for advertiser [a] and product [p]
    whose type is [t]. *)
Definition count_ads (t a p : string) (l : list AdView) : nat :=
  List.length
    (filter (fun v => cell_eqb (av_advertiser_id v) (Some a) &&
                      cell_eqb (av_product_id v) (Some p) &&
                      cell_eqb (av_type v) (Some t)) l).

Definition vw_key (x : ViewsRow) : key := (vw_advertiser_id x, vw_product_id x).

(** Ranking order of frame [views]: advertiser ascending; within an
    advertiser more views first, and among equal views the smaller
    product_id first. *)
Definition vw_before (x y : ViewsRow) : Prop :=
  str_lt (vw_advertiser_id x) (vw_advertiser_id y) \/
  (vw_advertiser_id x = vw_advertiser_id y /\
   (vw_views y < vw_views x \/
    (vw_views x = vw_views y /\ str_lt (vw_product_id x) (vw_product_id y)))).

Definition tp_before (x y : TopProductRow) : Prop :=
  str_lt (tp_advertiser_id x) (tp_advertiser_id y) \/
  (tp_advertiser_id x = tp_advertiser_id y /\
   (tp_views y < tp_views x \/
    (tp_views x = tp_views y /\ str_lt (tp_product_id x) (tp_product_id y)))).

(** Within an advertiser, an earlier row has the smaller rank. *)
Definition tp_rank_order (x y : TopProductRow) : Prop :=
  tp_advertiser_id x = tp_advertiser_id y -> tp_rank x < tp_rank y.

(** Products with a view of advertiser [a], one entry per row. *)
Definition viewed_products (a : string) (l : list ProductView) : list string :=
  flat_map (fun v => match pv_advertiser_id v, pv_product_id v with
                     | Some a', Some p => if String.eqb a' a then [p] else []
                     | _, _ => []
                     end) l.

(** Products with an impression of advertiser [a], one entry per row. *)
Definition impressed_products (a : string) (l : list AdView) : list string :=
  flat_map (fun v => match av_advertiser_id v, av_product_id v with
                     | Some a', Some p =>
                         if String.eqb a' a && cell_eqb (av_type v) (Some "impression")
                         then [p] else []
                     | _, _ => []
                     end) l.

Definition distinct (l : list string) : nat :=
  List.length (nodup string_dec l).

(** Number of distinct products of advertiser [a] that qualify for model
    [m]: viewed ones for top_product, ones with an impression for top_ctr. *)
Definition qualifying_products (a m : string) (pvf : list ProductView)
    (avf : list AdView) : nat :=
  if String.eqb m "top_product" then distinct (viewed_products a pvf)
  else if String.eqb m "top_ctr" then distinct (impressed_products a avf)
  else 0.

(** The stored rows of run date [ds], advertiser [a] and model [m]. *)
Definition sel (ds a m : string) (r : RankingRecord) : bool :=
  String.eqb (date r) ds && String.eqb (advertiser_id r) a &&
  String.eqb (model r) m.

Definition ranks_of (ds a m : string) (t : Table) : list nat :=
  map rank (filter (sel ds a m) t).

(** *** Runs of the DAG *)

(** Rows of another date than [d]: what [DELETE ... WHERE date = d] leaves. *)
Definition other_dates (d : string) (t : Table) : Table :=
  filter (fun r => negb (String.eqb (date r) d)) t.

(** Rows of date [d]. *)
Definition on_date (d : string) (t : Table) : Table :=
  filter (fun r => String.eqb (date r) d) t.

(** What the concatenation leaves in column ctr of a top_product row. *)
Definition missing_ctr (top_ctr : list TopCtrRow) : option pyfloat :=
  match top_ctr with
  | [] => None
  | _ :: _ => Some NaN
  end.

(** The records of a top_product row and of a top_ctr row. *)
Definition top_product_record (ds : string) (na : option pyfloat)
    (row : TopProductRow) : RankingRecord :=
  mkRecord ds (tp_advertiser_id row) (tp_model row) (tp_product_id row)
           (tp_rank row) (Some (tp_views row)) None None na.

Definition top_ctr_record (ds : string) (row : TopCtrRow) : RankingRecord :=
  mkRecord ds (tc_advertiser_id row) (tc_model row) (tc_product_id row)
           (tc_rank row) None (Some (tc_impressions row))
           (Some (tc_clicks row)) (Some (Finite (tc_ctr row))).

(** A connection with no transaction open: its view is the committed
    table. *)
Definition no_transaction (c : Conn) : Prop :=
  in_transaction c = false /\ pending c = committed c.

(** Outside a transaction the view of a connection is the committed table. *)
Definition consistent (c : Conn) : Prop :=
  in_transaction c = false -> pending c = committed c.

(** Database calls of one DBWriting run: connect, DELETE, one INSERT per page
    and COMMIT. *)
Definition db_calls (records : list RankingRecord) : nat :=
  3 + List.length (pages 100 records).

Definition any_fault (n : nat) (fs : list bool) : bool :=
  existsb (fun f => f) (firstn n fs).

(** The two frames DBWriting reads in a run of the DAG. *)
Definition dag_top_product (advertisers : list cell)
    (product_views : list ProductView) (ads_views : list AdView)
    : list TopProductRow :=
  calcular_top_product (fst (filtrar_datos advertisers product_views ads_views)).

Definition dag_top_ctr (advertisers : list cell)
    (product_views : list ProductView) (ads_views : list AdView)
    : list TopCtrRow :=
  calcular_top_ctr (snd (filtrar_datos advertisers product_views ads_views)).

(** Outcome of a run of the DAG on store [db] under the faults [fs], and the
    store it leaves. *)
Definition run_outcome (ds : string) (advertisers : list cell)
    (product_views : list ProductView) (ads_views : list AdView)
    (db : Table) (fs : list bool) : outcome unit :=
  fst (tp_recommendations_pipeline ds advertisers product_views ads_views
         (open_store db fs)).

Definition store_after (ds : string) (advertisers : list cell)
    (product_views : list ProductView) (ads_views : list AdView)
    (db : Table) (fs : list bool) : Table :=
  committed
    (snd (tp_recommendations_pipeline ds advertisers product_views ads_views
            (open_store db fs))).

(** *** Validation and responses *)






(** A JSON scalar that is not a non-finite float. *)
Definition json_finite (v : json) : bool :=
  match v with
  | JFloat NaN | JFloat PosInf | JFloat NegInf => false
  | _ => true
  end.

Definition item_finite (it : item) : bool :=
  forallb (fun kv => json_finite (snd kv)) it.

(** The model names both services accept. *)
Definition valid_model (m : string) : bool :=
  String.eqb m "top_product" || String.eqb m "top_ctr".

(** Twenty-one products of one advertiser, each viewed once and each shown
    once. *)
Definition crowded_products : list string :=
  ["P01"; "P02"; "P03"; "P04"; "P05"; "P06"; "P07"; 
   "P08"; "P09"; "P10"; "P11"; "P12"; "P13"; "P14"; 
   "P15"; "P16"; "P17"; "P18"; "P19"; "P20"; "P21"].

Definition crowded_product_views : list ProductView :=
  map (pvrow "A1") crowded_products.

Definition crowded_ads_views : list AdView :=
  map (fun p => adrow "A1" p "impression") crowded_products.

(** *** Further orders and group totals *)

(** Impressions and clicks of group [k] in an ad-view log, as TopCTR sums
    them. *)
Definition group_impressions (k : key) (avf : list AdView) : nat :=
  list_sum (map ad_impression
                (filter (in_group ad_key k) (map with_flags avf))).

Definition group_clicks (k : key) (avf : list AdView) : nat :=
  list_sum (map ad_click (filter (in_group ad_key k) (map with_flags avf))).

Definition cr_key (x : CtrRow) : key := (cr_advertiser_id x, cr_product_id x).

(** Ranking order of frame [agg]: advertiser ascending; within an advertiser
    the greater ctr first, and among equal ctr the smaller product_id
    first. *)
Definition cr_before (x y : CtrRow) : Prop :=
  str_lt (cr_advertiser_id x) (cr_advertiser_id y) \/
  (cr_advertiser_id x = cr_advertiser_id y /\
   ((cr_ctr y < cr_ctr x)%Q \/
    ((cr_ctr x == cr_ctr y)%Q /\ str_lt (cr_product_id x) (cr_product_id y)))).

Definition tc_before (x y : TopCtrRow) : Prop :=
  str_lt (tc_advertiser_id x) (tc_advertiser_id y) \/
  (tc_advertiser_id x = tc_advertiser_id y /\
   ((tc_ctr y < tc_ctr x)%Q \/
    ((tc_ctr x == tc_ctr y)%Q /\ str_lt (tc_product_id x) (tc_product_id y)))).

Definition tc_rank_order (x y : TopCtrRow) : Prop :=
  tc_advertiser_id x = tc_advertiser_id y -> tc_rank x < tc_rank y.

(** Frame [agg] of TopCTR after the ctr column is added: one row per group
    with an impression, in ascending group order. *)
Definition ctr_rows (avf : list AdView) : list CtrRow :=
  map (fun k => mkCtr (fst k) (snd k) (group_impressions k avf)
                      (group_clicks k avf)
                      (divide (group_clicks k avf) (group_impressions k avf)))
      (filter (fun k => 0 <? group_impressions k avf)
              (group_keys (present_keys ad_key (map with_flags avf)))).

(** Ranks added to a sorted frame [agg], as TopCTR ends. *)
Definition rank_top_ctr (agg : list CtrRow) : list TopCtrRow :=
  let top_ctr := groupby_head cr_advertiser_id 20 agg in
  map (fun p =>
         mkTopCtr (cr_advertiser_id (fst p)) (cr_product_id (fst p))
                  (cr_impressions (fst p)) (cr_clicks (fst p))
                  (cr_ctr (fst p)) "top_ctr" (snd p + 1))
      (combine top_ctr (cumcount cr_advertiser_id top_ctr)).

(** An ad view that is neither an impression nor a click. *)
Definition untyped (v : AdView) : bool :=
  negb (cell_eqb (av_type v) (Some "impression")) &&
  negb (cell_eqb (av_type v) (Some "click")).

(** The uniqueness key of a stored row within its date. *)
Definition record_key (r : RankingRecord) : string * string * string :=
  (advertiser_id r, model r, product_id r).

(** *** Further vocabulary of the services *)




(** *** Vocabulary of the statistics *)

(** Products of advertiser [adv] under model [m] among the rows of today, one
    entry per row. *)
Definition products_of (adv m : string) (rows : list (string * string * string))
    : list string :=
  map snd
      (filter (fun row => String.eqb (fst (fst row)) adv &&
                          String.eqb (snd (fst row)) m) rows).

(** The dict built from the rows [l]: one item per advertiser of [l], whose
    two sets hold the products of its top_product and top_ctr rows. *)
Definition dict_of (d : list (string * MainStats.models))
    (l : list (string * string * string)) : Prop :=
  NoDup (map fst d) /\
  (forall k, In k (map fst d) <-> exists m p, In (k, m, p) l) /\
  (forall k tp tc, In (k, (tp, tc)) d ->
     NoDup tp /\ NoDup tc /\
     (forall p, In p tp <-> In (k, "top_product", p) l) /\
     (forall p, In p tc <-> In (k, "top_ctr", p) l)).

(** *** Vocabulary of the connections *)

(** Connections of the pool that are handed out. *)
Definition checked_out (p : TpDb.Process) : nat :=
  match TpDb._pool p with
  | Some pl => TpDb.in_use pl
  | None => 0
  end.

(** [d.get(k)] on a dict kept as the list of its items. *)
Fixpoint dict_get {V : Type} (k : string) (d : list (string * V)) : option V :=
  match d with
  | [] => None
  | (k', v) :: d' => if String.eqb k' k then Some v else dict_get k d'
  end.

(** The items of date [d] and model [m] in the answer of /history, none when
    a key is missing. *)
Definition history_get (d m : string)
    (out : list (string * list (string * list item))) : list item :=
  match dict_get d out with
  | Some by_model =>
      match dict_get m by_model with
      | Some l => l
      | None => []
      end
  | None => []
  end.

(** The order of [ORDER BY date DESC, model, rank]. *)
Definition hist_before (x y : RankingRecord) : Prop :=
  str_lt (date y) (date x) \/
  (date x = date y /\
   (str_lt (model x) (model y) \/
    (model x = model y /\ rank x <= rank y))).

(** The rows of date [d] and model [m]. *)
Definition of_date_model (d m : string) (rows : list RankingRecord)
    : list RankingRecord :=
  filter (fun r => String.eqb (date r) d && String.eqb (model r) m) rows.

(** An [int] that reads the default port only. *)
Definition int_of_default_port (text : string) : option Z :=
  if String.eqb text "5432" then Some 5432%Z else None.

(** An environment without DB_PORT and DB_NAME, and one without DB_USER. *)
Definition minimal_environ : list (string * string) :=
  [("DB_HOST", "db.example"); ("DB_USER", "api"); ("DB_PASSWORD", "secret")].

Definition userless_environ : list (string * string) :=
  [("DB_HOST", "db.example"); ("DB_PASSWORD", "secret")].

(** ** Properties *)

Lemma cell_eqb_eq (c1 c2 : cell) : cell_eqb c1 c2 = true <-> c1 = c2.
Proof.
  destruct c1 as [a|], c2 as [b|]; simpl; try (split; congruence).
  rewrite String.eqb_eq. split; congruence.
Qed.

Lemma isin_In (c : cell) (values : list cell) :
  isin c values = true <-> In c values.
Proof.
  unfold isin. rewrite existsb_exists. split.
  - intros [x [Hin Heq]]. apply cell_eqb_eq in Heq. now subst.
  - intros Hin. exists c. split; [assumption | now apply cell_eqb_eq].
Qed.

Lemma unique_from_In (c : cell) (l seen : list cell) :
  In c (unique_from seen l) <-> In c l /\ ~ In c seen.
Proof.
  revert seen. induction l as [|x l IH]; intros seen; simpl.
  - tauto.
  - destruct (isin x seen) eqn:E.
    + apply isin_In in E. rewrite IH. split.
      * intros [H1 H2]. tauto.
      * intros [[->|H1] H2]; [contradiction | tauto].
    + assert (Hx : ~ In x seen).
      { intros H. apply isin_In in H. congruence. }
      simpl. rewrite IH. simpl. split.
      * intros [->|[H1 H2]]; [tauto | tauto].
      * intros [[->|H1] H2]; [tauto |].
        destruct (cell_eqb x c) eqn:Exc.
        -- apply cell_eqb_eq in Exc. tauto.
        -- right. split; [assumption |].
           intros [->|H3]; [| contradiction].
           assert (cell_eqb c c = true) by now apply cell_eqb_eq.
           congruence.
Qed.

Lemma unique_In (c : cell) (l : list cell) : In c (unique l) <-> In c l.
Proof. unfold unique. rewrite unique_from_In. simpl. tauto. Qed.

Lemma isin_unique (c : cell) (l : list cell) : isin c (unique l) = isin c l.
Proof.
  destruct (isin c l) eqn:E.
  - apply isin_In. apply unique_In. now apply isin_In.
  - destruct (isin c (unique l)) eqn:E'; [| reflexivity].
    apply (proj1 (isin_In _ _)) in E'. apply (proj1 (unique_In _ _)) in E'.
    apply (proj2 (isin_In _ _)) in E'. congruence.
Qed.

(** *** Order on identifiers *)

Lemma str_compare_eq (a b : string) : String.compare a b = Eq <-> a = b.
Proof. exact (String_as_OT.cmp_eq a b). Qed.

Lemma str_compare_refl (a : string) : String.compare a a = Eq.
Proof. now apply str_compare_eq. Qed.

Lemma str_compare_gt (a b : string) : String.compare a b = Gt <-> str_lt b a.
Proof.
  unfold str_lt. rewrite (String.compare_antisym a b).
  destruct (String.compare b a); simpl; split; congruence.
Qed.

Lemma str_lt_trans (a b c : string) : str_lt a b -> str_lt b c -> str_lt a c.
Proof.
  unfold str_lt. intros H1 H2.
  apply (proj1 (String_as_OT.cmp_lt a b)) in H1.
  apply (proj1 (String_as_OT.cmp_lt b c)) in H2.
  apply (proj2 (String_as_OT.cmp_lt a c)).
  exact (String_as_OT.lt_trans _ _ _ H1 H2).
Qed.

Lemma str_lt_irrefl (a : string) : ~ str_lt a a.
Proof. unfold str_lt. rewrite str_compare_refl. discriminate. Qed.

Lemma key_compare_eq (k1 k2 : key) : key_compare k1 k2 = Eq <-> k1 = k2.
Proof.
  destruct k1 as [a1 p1], k2 as [a2 p2]. unfold key_compare. simpl.
  destruct (String.compare a1 a2) eqn:Ea.
  - apply str_compare_eq in Ea. subst. rewrite str_compare_eq.
    split; congruence.
  - split; [discriminate |]. intros H. inversion H. subst.
    rewrite str_compare_refl in Ea. discriminate.
  - split; [discriminate |]. intros H. inversion H. subst.
    rewrite str_compare_refl in Ea. discriminate.
Qed.

Lemma key_eqb_eq (k1 k2 : key) : key_eqb k1 k2 = true <-> k1 = k2.
Proof.
  destruct k1 as [a1 p1], k2 as [a2 p2]. unfold key_eqb. simpl.
  rewrite andb_true_iff, !String.eqb_eq. split.
  - intros [-> ->]. reflexivity.
  - intros H. inversion H. auto.
Qed.

Lemma key_before_lt (k1 k2 : key) :
  key_before k1 k2 <-> key_compare k1 k2 = Lt.
Proof.
  destruct k1 as [a1 p1], k2 as [a2 p2].
  unfold key_before, key_compare, str_lt. simpl.
  destruct (String.compare a1 a2) eqn:Ea.
  - apply str_compare_eq in Ea. subst. split.
    + intros [H | [_ H]]; [discriminate | exact H].
    + intros H. right. auto.
  - split; auto.
  - split; [| discriminate].
    intros [H | [-> _]]; [discriminate |].
    rewrite str_compare_refl in Ea. discriminate.
Qed.

Lemma key_before_gt (k1 k2 : key) :
  key_compare k1 k2 = Gt -> key_before k2 k1.
Proof.
  destruct k1 as [a1 p1], k2 as [a2 p2].
  unfold key_before, key_compare. simpl.
  destruct (String.compare a1 a2) eqn:Ea; try discriminate.
  - apply str_compare_eq in Ea. subst. intros H.
    right. split; [reflexivity | now apply str_compare_gt].
  - intros _. left. now apply str_compare_gt.
Qed.

Lemma key_before_trans (k1 k2 k3 : key) :
  key_before k1 k2 -> key_before k2 k3 -> key_before k1 k3.
Proof.
  unfold key_before.
  intros [H1 | [E1 H1]] [H2 | [E2 H2]].
  - left. eapply str_lt_trans; eauto.
  - left. now rewrite <- E2.
  - left. now rewrite E1.
  - right. split; [congruence | eapply str_lt_trans; eauto].
Qed.

(** *** Group labels *)

Lemma key_insert_In (x k : key) (ks : list key) :
  In x (key_insert k ks) <-> x = k \/ In x ks.
Proof.
  induction ks as [|k' ks IH]; simpl.
  - intuition.
  - destruct (key_compare k k') eqn:E; simpl.
    + apply key_compare_eq in E. subst. intuition.
    + intuition.
    + rewrite IH. intuition.
Qed.

Lemma key_insert_sorted (k : key) (ks : list key) :
  StronglySorted key_before ks -> StronglySorted key_before (key_insert k ks).
Proof.
  induction 1 as [|k' ks Hs IH Hall]; simpl.
  - repeat constructor.
  - destruct (key_compare k k') eqn:E.
    + now constructor.
    + apply key_before_lt in E. constructor.
      * now constructor.
      * constructor; [assumption |].
        rewrite Forall_forall in *. intros z Hz.
        eapply key_before_trans; eauto.
    + apply key_before_gt in E. constructor; [assumption |].
      rewrite Forall_forall in *. intros z Hz.
      apply key_insert_In in Hz. destruct Hz as [-> | Hz]; auto.
Qed.

Lemma group_keys_In (x : key) (ks : list key) :
  In x (group_keys ks) <-> In x ks.
Proof.
  induction ks as [|k ks IH]; simpl; [tauto |].
  rewrite key_insert_In, IH. intuition.
Qed.

Lemma group_keys_sorted (ks : list key) :
  StronglySorted key_before (group_keys ks).
Proof.
  induction ks as [|k ks IH]; simpl; [constructor |].
  now apply key_insert_sorted.
Qed.

(** *** Stable sort *)

Lemma insert_row_perm {R : Type} (leb : R -> R -> bool) (x : R) (l : list R) :
  Permutation (insert_row leb x l) (x :: l).
Proof.
  induction l as [|y l IH]; simpl; [reflexivity |].
  destruct (leb x y); [reflexivity |].
  rewrite IH. apply perm_swap.
Qed.

Lemma sort_values_perm {R : Type} (leb : R -> R -> bool) (l : list R) :
  Permutation (sort_values leb l) l.
Proof.
  induction l as [|x l IH]; simpl; [reflexivity |].
  rewrite insert_row_perm. now constructor.
Qed.

Lemma sort_values_In {R : Type} (leb : R -> R -> bool) (x : R) (l : list R) :
  In x (sort_values leb l) <-> In x l.
Proof.
  split; apply Permutation_in;
    [| symmetry]; apply sort_values_perm.
Qed.

Section StableSort.
Context {R : Type} (leb : R -> R -> bool).
(** [before0] orders the input, [before] refines the sort key by it. *)
Context (before0 before : R -> R -> Prop).
Hypothesis leb_keep :
  forall x y, leb x y = true -> before0 x y -> before x y.
Hypothesis leb_swap : forall x y, leb x y = false -> before y x.
Hypothesis leb_chain :
  forall x y z, leb x y = true -> before y z -> leb x z = true.

Lemma insert_row_sorted (x : R) (l : list R) :
  Forall (before0 x) l -> StronglySorted before l ->
  StronglySorted before (insert_row leb x l).
Proof.
  intros Hx Hs. induction Hs as [|y l Hs IH Hall]; simpl.
  - repeat constructor.
  - inversion Hx as [|? ? Hxy Hxl]; subst.
    destruct (leb x y) eqn:E.
    + constructor; [now constructor |].
      constructor; [now apply leb_keep |].
      rewrite Forall_forall in *. intros z Hz.
      apply leb_keep; [| now apply Hxl].
      eapply leb_chain; eauto.
    + constructor; [now apply IH |].
      rewrite Forall_forall in *. intros z Hz.
      assert (Hz' : In z (x :: l)).
      { eapply Permutation_in; [apply insert_row_perm | exact Hz]. }
      destruct Hz' as [<- | Hz']; [now apply leb_swap | now apply Hall].
Qed.

Lemma sort_values_sorted (l : list R) :
  StronglySorted before0 l -> StronglySorted before (sort_values leb l).
Proof.
  induction 1 as [|x l Hs IH Hall]; simpl; [constructor |].
  apply insert_row_sorted; [| assumption].
  rewrite Forall_forall in *. intros z Hz.
  apply Hall. now apply sort_values_In in Hz.
Qed.
End StableSort.

(** *** Lists *)

Lemma StronglySorted_map_impl {A B : Type} (RA : A -> A -> Prop)
    (RB : B -> B -> Prop) (f : A -> B) (l : list A) :
  (forall x y, RA x y -> RB (f x) (f y)) ->
  StronglySorted RA l -> StronglySorted RB (map f l).
Proof.
  intros Hf. induction 1 as [|x l Hs IH Hall]; simpl; constructor; auto.
  rewrite Forall_forall in *. intros z Hz.
  apply in_map_iff in Hz. destruct Hz as [y [<- Hy]]. auto.
Qed.

Lemma StronglySorted_combine_l {A B : Type} (RA : A -> A -> Prop)
    (l1 : list A) (l2 : list B) :
  StronglySorted RA l1 ->
  StronglySorted (fun p q => RA (fst p) (fst q)) (combine l1 l2).
Proof.
  intros Hs. revert l2.
  induction Hs as [|x l Hs IH Hall]; intros [|y l2]; simpl; try constructor.
  - apply IH.
  - rewrite Forall_forall in *. intros [a b] Hz. simpl.
    apply Hall. eapply in_combine_l; eauto.
Qed.

(** *** head and cumcount per advertiser *)

Section ByAdvertiserFacts.
Context {R : Type} (adv : R -> string).

Lemma seen_count_cons_eq (a : string) (seen : list string) :
  seen_count a (a :: seen) = S (seen_count a seen).
Proof. unfold seen_count. simpl. destruct (string_dec a a); congruence. Qed.

Lemma seen_count_cons_neq (a b : string) (seen : list string) :
  b <> a -> seen_count a (b :: seen) = seen_count a seen.
Proof. unfold seen_count. simpl. destruct (string_dec b a); congruence. Qed.

Lemma head_from_In (n : nat) (x : R) (l : list R) (seen : list string) :
  In x (head_from adv n seen l) -> In x l.
Proof.
  revert seen. induction l as [|r l IH]; intros seen; simpl; [tauto |].
  destruct (seen_count (adv r) seen <? n); simpl; intros H.
  - destruct H as [H | H]; eauto.
  - eauto.
Qed.

Lemma head_from_sorted (before : R -> R -> Prop) (n : nat) (l : list R)
    (seen : list string) :
  StronglySorted before l -> StronglySorted before (head_from adv n seen l).
Proof.
  intros Hs. revert seen.
  induction Hs as [|r l Hs IH Hall]; intros seen; simpl; [constructor |].
  destruct (seen_count (adv r) seen <? n); [| apply IH].
  constructor; [apply IH |].
  rewrite Forall_forall in *. intros z Hz.
  apply Hall. eapply head_from_In; eauto.
Qed.

Lemma head_from_filter (n : nat) (a : string) (l : list R)
    (seen : list string) :
  filter (of_adv adv a) (head_from adv n seen l)
  = firstn (n - seen_count a seen) (filter (of_adv adv a) l).
Proof.
  unfold of_adv.
  revert seen. induction l as [|r l IH]; intros seen; simpl.
  - now rewrite firstn_nil.
  - destruct (String.eqb_spec (adv r) a) as [E | E].
    + rewrite E.
      destruct (Nat.ltb_spec (seen_count a seen) n) as [Hlt | Hge].
      * simpl. rewrite E, String.eqb_refl.
        rewrite IH, seen_count_cons_eq.
        replace (n - seen_count a seen) with (S (n - S (seen_count a seen)))
          by lia.
        reflexivity.
      * rewrite IH, seen_count_cons_eq.
        replace (n - seen_count a seen) with 0 by lia.
        replace (n - S (seen_count a seen)) with 0 by lia.
        reflexivity.
    + specialize (IH (adv r :: seen)).
      rewrite seen_count_cons_neq in IH by assumption.
      destruct (seen_count (adv r) seen <? n); [| exact IH].
      simpl. destruct (String.eqb_spec (adv r) a); [contradiction | exact IH].
Qed.

Lemma cumcount_from_length (l : list R) (seen : list string) :
  List.length (cumcount_from adv seen l) = List.length l.
Proof.
  revert seen. induction l as [|r l IH]; intros seen; simpl; congruence.
Qed.

Lemma cumcount_from_filter (a : string) (l : list R) (seen : list string) :
  map snd (filter (fun p => of_adv adv a (fst p))
                  (combine l (cumcount_from adv seen l)))
  = seq (seen_count a seen) (List.length (filter (of_adv adv a) l)).
Proof.
  unfold of_adv.
  revert seen. induction l as [|r l IH]; intros seen; simpl; [reflexivity |].
  destruct (String.eqb_spec (adv r) a) as [E | E].
  - simpl. rewrite IH, E, seen_count_cons_eq. reflexivity.
  - rewrite IH, seen_count_cons_neq by assumption. reflexivity.
Qed.
Lemma seen_count_cons_le (a b : string) (seen : list string) :
  seen_count a seen <= seen_count a (b :: seen).
Proof. unfold seen_count. simpl. destruct (string_dec b a); lia. Qed.

Lemma cumcount_from_lower (l : list R) (seen : list string) (r : R) (n : nat) :
  In (r, n) (combine l (cumcount_from adv seen l)) ->
  seen_count (adv r) seen <= n.
Proof.
  revert seen. induction l as [|x l IH]; intros seen; simpl; [tauto |].
  intros [H | H].
  - inversion H; subst. lia.
  - apply IH in H. pose proof (seen_count_cons_le (adv r) (adv x) seen). lia.
Qed.

(** Along the frame, the counter grows within an advertiser. *)
Lemma cumcount_from_increasing (l : list R) (seen : list string) :
  StronglySorted (fun p q => adv (fst p) = adv (fst q) -> snd p < snd q)
                 (combine l (cumcount_from adv seen l)).
Proof.
  revert seen. induction l as [|x l IH]; intros seen; simpl; constructor.
  - apply IH.
  - apply Forall_forall. intros [r n] Hin. simpl. intros E.
    apply cumcount_from_lower in Hin.
    rewrite <- E, seen_count_cons_eq in Hin. lia.
Qed.
End ByAdvertiserFacts.

(** *** Groups *)

Lemma present_keys_In {R : Type} (keyof : R -> option key) (k : key)
    (rows : list R) :
  In k (present_keys keyof rows) <-> exists r, In r rows /\ keyof r = Some k.
Proof.
  induction rows as [|r rows IH]; simpl.
  - split; [tauto | intros [? [[] _]]].
  - destruct (keyof r) as [k'|] eqn:E; simpl; rewrite IH; split.
    + intros [<- | [x [Hx Hk]]]; [exists r; auto | exists x; auto].
    + intros [x [[<- | Hx] Hk]]; [left; congruence | right; exists x; auto].
    + intros [x [Hx Hk]]. exists x; auto.
    + intros [x [[<- | Hx] Hk]]; [congruence | exists x; auto].
Qed.

Lemma groupby_In {R : Type} (keyof : R -> option key) (rows : list R)
    (g : key * list R) :
  In g (groupby keyof rows) ->
  snd g = filter (in_group keyof (fst g)) rows /\
  exists r, In r rows /\ keyof r = Some (fst g).
Proof.
  unfold groupby. intros H. apply in_map_iff in H.
  destruct H as [k [<- Hk]]. simpl. split; [reflexivity |].
  apply (proj1 (group_keys_In _ _)) in Hk.
  exact (proj1 (present_keys_In _ _ _) Hk).
Qed.

Lemma groupby_sorted {R : Type} (keyof : R -> option key) (rows : list R) :
  StronglySorted (fun g h => key_before (fst g) (fst h)) (groupby keyof rows).
Proof.
  unfold groupby.
  apply StronglySorted_map_impl with (RA := key_before); [auto |].
  apply group_keys_sorted.
Qed.

Lemma in_group_some {R : Type} (keyof : R -> option key) (k : key) (r : R) :
  keyof r = Some k -> in_group keyof k r = true.
Proof. unfold in_group. intros ->. now apply key_eqb_eq. Qed.

Lemma filter_nonempty {A : Type} (f : A -> bool) (x : A) (l : list A) :
  In x l -> f x = true -> 1 <= List.length (filter f l).
Proof.
  intros Hin Hf.
  assert (H : In x (filter f l)) by (apply filter_In; auto).
  destruct (filter f l); [destruct H | simpl; lia].
Qed.

(** *** TopProduct *)

Lemma in_group_pv_key (a p : string) (v : ProductView) :
  in_group pv_key (a, p) v
  = cell_eqb (pv_advertiser_id v) (Some a) && cell_eqb (pv_product_id v) (Some p).
Proof.
  unfold in_group, pv_key.
  destruct v as [[a'|] [p'|]]; simpl; try reflexivity.
  - unfold key_eqb. simpl. now rewrite (String.eqb_sym a a'), (String.eqb_sym p p').
  - now rewrite andb_false_r.
Qed.

Lemma views_leb_keep (x y : ViewsRow) :
  views_leb x y = true -> key_before (vw_key x) (vw_key y) -> vw_before x y.
Proof.
  unfold views_leb, key_before, vw_before, vw_key. simpl.
  destruct (String.compare (vw_advertiser_id x) (vw_advertiser_id y)) eqn:E.
  - apply str_compare_eq in E. intros Hv [Hlt | [_ Hp]].
    + rewrite E in Hlt. now apply str_lt_irrefl in Hlt.
    + apply Nat.leb_le in Hv. right. split; [assumption |].
      destruct (Nat.eq_dec (vw_views x) (vw_views y)); [right; auto | left; lia].
  - intros _ _. now left.
  - discriminate.
Qed.

Lemma views_leb_swap (x y : ViewsRow) : views_leb x y = false -> vw_before y x.
Proof.
  unfold views_leb, vw_before.
  destruct (String.compare (vw_advertiser_id x) (vw_advertiser_id y)) eqn:E.
  - apply str_compare_eq in E. intros Hv. apply Nat.leb_gt in Hv.
    right. split; [now symmetry | now left].
  - discriminate.
  - intros _. left. now apply str_compare_gt.
Qed.

Lemma views_leb_chain (x y z : ViewsRow) :
  views_leb x y = true -> vw_before y z -> views_leb x z = true.
Proof.
  unfold views_leb, vw_before.
  destruct (String.compare (vw_advertiser_id x) (vw_advertiser_id y)) eqn:E.
  - apply str_compare_eq in E. rewrite E. intros Hv [Hlt | [Ea Hz]].
    + unfold str_lt in Hlt. now rewrite Hlt.
    + rewrite <- Ea, str_compare_refl. apply Nat.leb_le in Hv.
      apply Nat.leb_le. lia.
  - intros _ [Hlt | [Ea _]].
    + assert (H : str_lt (vw_advertiser_id x) (vw_advertiser_id z))
        by (eapply str_lt_trans; eauto).
      unfold str_lt in H. now rewrite H.
    + rewrite <- Ea, E. reflexivity.
  - discriminate.
Qed.

Lemma ranked_In {A B : Type} (f : A * nat -> B) (l : list A) (ns : list nat)
    (r : B) :
  In r (map f (combine l ns)) -> exists v n, In v l /\ r = f (v, n).
Proof.
  intros H. apply in_map_iff in H. destruct H as [[v n] [<- Hin]].
  exists v, n. split; [eapply in_combine_l; eauto | reflexivity].
Qed.

Lemma top_product_views_sorted (rows : list ProductView) :
  StronglySorted vw_before
    (sort_values views_leb
       (map (fun g => mkViews (fst (fst g)) (snd (fst g)) (List.length (snd g)))
            (groupby pv_key rows))).
Proof.
  apply sort_values_sorted
    with (before0 := fun x y => key_before (vw_key x) (vw_key y)).
  - exact views_leb_keep.
  - exact views_leb_swap.
  - exact views_leb_chain.
  - eapply StronglySorted_map_impl; [| apply groupby_sorted].
    intros [[a p] m] [[a' p'] m']. auto.
Qed.

Lemma top_product_row_origin (product_views_filtered : list ProductView)
    (r : TopProductRow) :
  In r (calcular_top_product product_views_filtered) ->
  tp_views r
  = count_views (tp_advertiser_id r) (tp_product_id r) product_views_filtered
  /\ 1 <= tp_views r.
Proof.
  intros Hr. unfold calcular_top_product in Hr.
  apply ranked_In in Hr. destruct Hr as [v [n [Hv ->]]]. simpl.
  apply head_from_In in Hv. apply sort_values_In in Hv.
  apply in_map_iff in Hv. destruct Hv as [[[a p] m] [<- Hg]]. simpl.
  apply groupby_In in Hg. simpl in Hg. destruct Hg as [-> [w [Hw Hk]]].
  split.
  - unfold count_views. f_equal. apply filter_ext.
    intros x. apply in_group_pv_key.
  - eapply filter_nonempty; [exact Hw | now apply in_group_some].
Qed.

(** C1.  TopProduct groups the filtered product views by (advertiser_id,
    product_id) and sets [views] to the number of rows of the group (at least
    one); its output is ordered by advertiser and, within an advertiser, by
    views descending with equal views in ascending product_id, and the ranks
    of an advertiser grow along that order; on the worked example (A1/P1 x3,
    A1/P2 x3, A1/P3 x1) it yields rank 1 = P1 with 3 views, rank 2 = P2 with
    3 views, rank 3 = P3 with 1 view. *)
Theorem top_product_ranking (product_views_filtered : list ProductView) :
  (forall r, In r (calcular_top_product product_views_filtered) ->
     tp_views r
     = count_views (tp_advertiser_id r) (tp_product_id r) product_views_filtered
     /\ 1 <= tp_views r) /\
  StronglySorted tp_before (calcular_top_product product_views_filtered) /\
  StronglySorted tp_rank_order (calcular_top_product product_views_filtered) /\
  calcular_top_product example_product_views = example_top_product.
Proof.
  split; [| split; [| split]].
  - intros r. apply top_product_row_origin.
  - unfold calcular_top_product.
    apply StronglySorted_map_impl
      with (RA := fun p q => vw_before (fst p) (fst q)); [auto |].
    apply StronglySorted_combine_l.
    apply head_from_sorted. apply top_product_views_sorted.
  - unfold calcular_top_product.
    eapply StronglySorted_map_impl;
      [| apply (cumcount_from_increasing vw_advertiser_id)].
    unfold tp_rank_order. simpl. intros p q H E. specialize (H E). lia.
  - vm_compute. reflexivity.
Qed.

(** *** TopCTR *)

Lemma type_is_count (t : string) (c : cell) :
  type_is t c = if cell_eqb c (Some t) then 1 else 0.
Proof. destruct c as [x|]; reflexivity. Qed.

Lemma in_group_ad_key (a p : string) (v : AdView) :
  in_group ad_key (a, p) (with_flags v)
  = cell_eqb (av_advertiser_id v) (Some a) && cell_eqb (av_product_id v) (Some p).
Proof.
  unfold in_group, ad_key, with_flags.
  destruct v as [[a'|] [p'|] t]; simpl; try reflexivity.
  - unfold key_eqb. simpl.
    now rewrite (String.eqb_sym a a'), (String.eqb_sym p p').
  - now rewrite andb_false_r.
Qed.

Lemma sum_flag_count (t a p : string) (col : AdRow -> nat) (l : list AdView) :
  (forall v, col (with_flags v) = type_is t (av_type v)) ->
  list_sum (map col (filter (in_group ad_key (a, p)) (map with_flags l)))
  = count_ads t a p l.
Proof.
  intros Hcol. unfold count_ads.
  induction l as [|v l IH]; simpl; [reflexivity |].
  rewrite in_group_ad_key.
  destruct (cell_eqb (av_advertiser_id v) (Some a) &&
            cell_eqb (av_product_id v) (Some p)); simpl; [| exact IH].
  rewrite Hcol, type_is_count, IH.
  destruct (cell_eqb (av_type v) (Some t)); reflexivity.
Qed.

Lemma Zpos_of_nat (n : nat) : 0 < n -> Zpos (Pos.of_nat n) = Z.of_nat n.
Proof.
  intros Hn. rewrite <- (positive_nat_Z (Pos.of_nat n)).
  rewrite Nat2Pos.id by lia. reflexivity.
Qed.

Lemma divide_quotient (c i : nat) :
  0 < i -> (divide c i == inject_Z (Z.of_nat c) / inject_Z (Z.of_nat i))%Q.
Proof.
  intros Hi. unfold divide. rewrite Qmake_Qdiv, Zpos_of_nat by assumption.
  reflexivity.
Qed.

Lemma divide_nonneg (c i : nat) : (0 <= divide c i)%Q.
Proof. unfold divide, Qle. simpl. lia. Qed.

Lemma divide_le_1 (c i : nat) : 0 < i -> c <= i -> (divide c i <= 1)%Q.
Proof.
  intros Hi Hc. unfold divide, Qle. simpl.
  rewrite Zpos_of_nat by assumption. lia.
Qed.

Lemma top_ctr_row_origin (ads_views_filtered : list AdView) (r : TopCtrRow) :
  In r (calcular_top_ctr ads_views_filtered) ->
  tc_impressions r
  = count_ads "impression" (tc_advertiser_id r) (tc_product_id r) ads_views_filtered /\
  tc_clicks r
  = count_ads "click" (tc_advertiser_id r) (tc_product_id r) ads_views_filtered /\
  0 < tc_impressions r /\
  tc_ctr r = divide (tc_clicks r) (tc_impressions r).
Proof.
  unfold calcular_top_ctr. intros Hr.
  apply ranked_In in Hr. destruct Hr as [v [n [Hv ->]]]. simpl.
  apply head_from_In in Hv. apply sort_values_In in Hv.
  apply in_map_iff in Hv. destruct Hv as [[[a p] [i c]] [<- Hg]]. simpl.
  apply filter_In in Hg. destruct Hg as [Hg Hpos]. simpl in Hpos.
  apply Nat.ltb_lt in Hpos.
  apply in_map_iff in Hg. destruct Hg as [[k m] [Heq Hg]].
  apply groupby_In in Hg. simpl in Hg. destruct Hg as [-> _].
  simpl in Heq. inversion Heq; subst. clear Heq.
  rewrite !(sum_flag_count _ a p) by reflexivity.
  rewrite (sum_flag_count "impression" a p) in Hpos by reflexivity.
  auto.
Qed.

(** The worked example: P2 with ctr 4/4 ranks before P1 with ctr 5/10. *)
Example top_ctr_worked_example :
  calcular_top_ctr example_ads_views = example_top_ctr.
Proof. vm_compute. reflexivity. Qed.

(** C2 (as amended).  TopCTR sums the impression and click rows of every
    (advertiser_id, product_id) group, keeps only groups with at least one
    impression and sets ctr = clicks / impressions: every top_ctr row has
    impressions > 0 and ctr >= 0, ctr <= 1 holds for a row whose clicks do not
    exceed its impressions, and no row exists for a pair without
    impressions. *)
Theorem top_ctr_rows (ads_views_filtered : list AdView) :
  (forall r, In r (calcular_top_ctr ads_views_filtered) ->
     tc_impressions r
     = count_ads "impression" (tc_advertiser_id r) (tc_product_id r)
                 ads_views_filtered /\
     tc_clicks r
     = count_ads "click" (tc_advertiser_id r) (tc_product_id r)
                 ads_views_filtered /\
     0 < tc_impressions r /\
     (tc_ctr r == inject_Z (Z.of_nat (tc_clicks r))
                  / inject_Z (Z.of_nat (tc_impressions r)))%Q /\
     (0 <= tc_ctr r)%Q /\
     (tc_clicks r <= tc_impressions r -> (tc_ctr r <= 1)%Q)) /\
  (forall a p, count_ads "impression" a p ads_views_filtered = 0 ->
     forall r, In r (calcular_top_ctr ads_views_filtered) ->
       ~ (tc_advertiser_id r = a /\ tc_product_id r = p)).
Proof.
  split.
  - intros r Hr. apply top_ctr_row_origin in Hr.
    destruct Hr as [Hi [Hc [Hpos Hctr]]].
    repeat split; try assumption.
    + rewrite Hctr. now apply divide_quotient.
    + rewrite Hctr. apply divide_nonneg.
    + intros Hle. rewrite Hctr. now apply divide_le_1.
  - intros a p Hzero r Hr [Ha Hp]. apply top_ctr_row_origin in Hr.
    destruct Hr as [Hi [_ [Hpos _]]]. rewrite Ha, Hp, Hzero in Hi. lia.
Qed.

(** C2 (as stated) fails: with one impression and two clicks for A1/P1 the
    stored row has ctr = 2. *)
Lemma top_ctr_ctr_above_one :
  ~ (forall ads_views_filtered r,
       In r (calcular_top_ctr ads_views_filtered) ->
       0 < tc_impressions r /\ (0 <= tc_ctr r)%Q /\ (tc_ctr r <= 1)%Q).
Proof.
  intros H.
  destruct (H overclicked_ads_views (mkTopCtr "A1" "P1" 1 2 (2 # 1) "top_ctr" 1))
    as [_ [_ Hle]].
  - vm_compute. left. reflexivity.
  - vm_compute in Hle. apply Hle. reflexivity.
Qed.

(** *** Merging *)

Lemma recommendations_records (ds : string) (tp : list TopProductRow)
    (tc : list TopCtrRow) :
  recommendations ds tp tc
  = map (top_product_record ds (missing_ctr tc)) tp ++
    map (top_ctr_record ds) tc.
Proof.
  unfold recommendations, pd_concat.
  destruct tc as [|r tc].
  - cbn [map missing_ctr]. rewrite !app_nil_r, map_map. reflexivity.
  - set (l := r :: tc). cbn [missing_ctr].
    assert (Hl : map widen_top_ctr l = map widen_top_ctr l) by reflexivity.
    destruct (map widen_top_ctr l) as [|w ws] eqn:E; [discriminate |].
    rewrite <- E. rewrite map_map, map_app, !map_map. reflexivity.
Qed.

Lemma recommendations_date (ds : string) (tp : list TopProductRow)
    (tc : list TopCtrRow) (r : RankingRecord) :
  In r (recommendations ds tp tc) -> date r = ds.
Proof.
  unfold recommendations. intros H. apply in_map_iff in H.
  destruct H as [w [<- _]]. reflexivity.
Qed.

Lemma other_dates_recommendations (ds : string) (tp : list TopProductRow)
    (tc : list TopCtrRow) :
  other_dates ds (recommendations ds tp tc) = [].
Proof.
  unfold other_dates.
  assert (H : forall r, In r (recommendations ds tp tc) -> date r = ds)
    by apply recommendations_date.
  induction (recommendations ds tp tc) as [|r l IH]; simpl; [reflexivity |].
  rewrite (H r) by (left; reflexivity). rewrite String.eqb_refl. simpl.
  apply IH. intros x Hx. apply H. now right.
Qed.

Lemma on_date_recommendations (ds : string) (tp : list TopProductRow)
    (tc : list TopCtrRow) :
  on_date ds (recommendations ds tp tc) = recommendations ds tp tc.
Proof.
  unfold on_date.
  assert (H : forall r, In r (recommendations ds tp tc) -> date r = ds)
    by apply recommendations_date.
  induction (recommendations ds tp tc) as [|r l IH]; simpl; [reflexivity |].
  rewrite (H r) by (left; reflexivity). rewrite String.eqb_refl.
  f_equal. apply IH. intros x Hx. apply H. now right.
Qed.

Lemma other_dates_idem (d : string) (t : Table) :
  other_dates d (other_dates d t) = other_dates d t.
Proof.
  unfold other_dates. induction t as [|r t IH]; simpl; [reflexivity |].
  destruct (negb (date r =? d)%string) eqn:E; simpl; [rewrite E |]; congruence.
Qed.

Lemma on_date_other_dates (d : string) (t : Table) :
  on_date d (other_dates d t) = [].
Proof.
  unfold on_date, other_dates. induction t as [|r t IH]; simpl; [reflexivity |].
  destruct (date r =? d)%string eqn:E; simpl; [| rewrite E]; exact IH.
Qed.

(** *** Pages *)

Lemma concat_pages_fuel {A : Type} (n fuel : nat) (l : list A) :
  0 < n -> List.length l <= fuel -> List.concat (pages_fuel fuel n l) = l.
Proof.
  intros Hn. revert l. induction fuel as [|fuel IH]; intros l Hl.
  - destruct l; [reflexivity | simpl in Hl; lia].
  - destruct l as [|x l]; [reflexivity |].
    cbn [pages_fuel List.concat]. rewrite IH.
    + apply firstn_skipn.
    + rewrite length_skipn. cbn [List.length] in *. lia.
Qed.

Lemma concat_pages {A : Type} (n : nat) (l : list A) :
  0 < n -> List.concat (pages n l) = l.
Proof. intros Hn. now apply concat_pages_fuel. Qed.

Lemma run_inserts (ps : list (list RankingRecord)) (t : Table) :
  fold_left (fun t s => run_stmt s t) (map InsertValues ps) t = t ++ List.concat ps.
Proof.
  revert t. induction ps as [|p ps IH]; intros t; simpl.
  - now rewrite app_nil_r.
  - rewrite IH. now rewrite app_assoc.
Qed.

(** *** The transaction *)

Lemma any_fault_nil (n : nat) : any_fault n [] = false.
Proof. unfold any_fault. now rewrite firstn_nil. Qed.

Lemma any_fault_cons (n : nat) (f : bool) (fs : list bool) :
  any_fault (S n) (f :: fs) = f || any_fault n fs.
Proof. reflexivity. Qed.

Lemma any_fault_plus (a b : nat) (fs : list bool) :
  any_fault (a + b) fs = any_fault a fs || any_fault b (skipn a fs).
Proof.
  revert fs. induction a as [|a IH]; intros fs; [reflexivity |].
  destruct fs as [|f fs].
  - simpl. now rewrite !any_fault_nil.
  - cbn [Nat.add skipn]. rewrite !any_fault_cons, IH. now rewrite orb_assoc.
Qed.

Lemma execute_many_ok (ss : list stmt) (c : Conn) :
  any_fault (List.length ss) (faults c) = false ->
  execute_many ss c
  = (Returned tt,
     mkConn (committed c) (fold_left (fun t s => run_stmt s t) ss (pending c))
            (match ss with [] => in_transaction c | _ => true end)
            (skipn (List.length ss) (faults c))).
Proof.
  revert c. induction ss as [|s ss IH]; intros [cm pd tx fs] Hf.
  - reflexivity.
  - cbn [execute_many]. unfold bind, execute, next_fault.
    cbn [faults committed pending in_transaction List.length] in *.
    destruct fs as [|f fs].
    + cbn [faults committed pending in_transaction].
      rewrite IH by (cbn; apply any_fault_nil).
      cbn. destruct ss; simpl; now rewrite ?skipn_nil.
    + rewrite any_fault_cons in Hf. apply orb_false_iff in Hf.
      destruct Hf as [-> Hf].
      cbn [faults committed pending in_transaction].
      rewrite IH by exact Hf.
      cbn. destruct ss; reflexivity.
Qed.

Lemma execute_many_fail (ss : list stmt) (c : Conn) :
  any_fault (List.length ss) (faults c) = true ->
  exists c', execute_many ss c = (Raised, c') /\ committed c' = committed c.
Proof.
  revert c. induction ss as [|s ss IH]; intros [cm pd tx fs] Hf.
  - cbn in Hf. discriminate.
  - cbn [execute_many]. unfold bind, execute, next_fault.
    cbn [faults committed pending in_transaction List.length] in *.
    destruct fs as [|f fs].
    + rewrite any_fault_nil in Hf. discriminate.
    + rewrite any_fault_cons in Hf. destruct f.
      * eexists. split; reflexivity.
      * cbn [faults committed pending in_transaction].
        simpl in Hf. destruct (IH (mkConn cm (run_stmt s pd) true fs) Hf)
          as [c' [Hc' Hcm]].
        exists c'. split; [exact Hc' | exact Hcm].
Qed.

Lemma transaction_ok (ss : list stmt) (c : Conn) :
  ss <> [] ->
  any_fault (List.length ss + 1) (faults c) = false ->
  exists c',
    with_conn (execute_many ss ;; commit) c = (Returned tt, c') /\
    committed c' = fold_left (fun t s => run_stmt s t) ss (pending c).
Proof.
  intros Hss Hf. rewrite any_fault_plus in Hf. apply orb_false_iff in Hf.
  destruct Hf as [Hf1 Hf2].
  unfold with_conn, bind. rewrite (execute_many_ok ss c Hf1).
  destruct ss as [|s ss]; [congruence |].
  set (n := List.length (s :: ss)) in *.
  set (t := fold_left (fun t s => run_stmt s t) (s :: ss) (pending c)).
  unfold commit at 1, next_fault. cbn [in_transaction faults].
  destruct (skipn n (faults c)) as [|g rest].
  - cbn. eexists. split; reflexivity.
  - rewrite any_fault_cons in Hf2. apply orb_false_iff in Hf2.
    destruct Hf2 as [-> _]. cbn. eexists. split; reflexivity.
Qed.

Lemma transaction_fail (ss : list stmt) (c : Conn) :
  ss <> [] ->
  any_fault (List.length ss + 1) (faults c) = true ->
  exists c',
    with_conn (execute_many ss ;; commit) c = (Raised, c') /\
    committed c' = committed c.
Proof.
  intros Hss Hf. rewrite any_fault_plus in Hf.
  unfold with_conn, bind.
  destruct (any_fault (List.length ss) (faults c)) eqn:Hf1.
  - destruct (execute_many_fail ss c Hf1) as [c1 [-> Hc1]].
    eexists. split; [reflexivity | exact Hc1].
  - simpl in Hf. rewrite (execute_many_ok ss c Hf1).
    destruct ss as [|s ss]; [congruence |].
    set (n := List.length (s :: ss)) in *.
    set (t := fold_left (fun t s => run_stmt s t) (s :: ss) (pending c)).
    unfold commit at 1, next_fault. cbn [in_transaction faults].
    destruct (skipn n (faults c)) as [|g rest].
    + rewrite any_fault_nil in Hf. discriminate.
    + rewrite any_fault_cons in Hf. destruct g.
      * cbn. eexists. split; reflexivity.
      * rewrite orb_false_l in Hf. cbn in Hf. discriminate.
Qed.

Lemma db_writing_statements (ds : string) (tp : list TopProductRow)
    (tc : list TopCtrRow) (db : Table) :
  fold_left (fun t s => run_stmt s t)
    (DeleteDate ds :: map InsertValues (pages 100 (recommendations ds tp tc))) db
  = other_dates ds db ++ recommendations ds tp tc.
Proof.
  cbn [fold_left run_stmt]. rewrite run_inserts, concat_pages by lia.
  reflexivity.
Qed.

Lemma db_writing_run (ds : string) (tp : list TopProductRow)
    (tc : list TopCtrRow) (db : Table) (fs : list bool) :
  (any_fault (db_calls (recommendations ds tp tc)) fs = false ->
   exists c, db_writing ds tp tc (open_store db fs) = (Returned tt, c) /\
             committed c = other_dates ds db ++ recommendations ds tp tc) /\
  (any_fault (db_calls (recommendations ds tp tc)) fs = true ->
   exists c, db_writing ds tp tc (open_store db fs) = (Raised, c) /\
             committed c = db).
Proof.
  set (records := recommendations ds tp tc).
  set (ss := DeleteDate ds :: map InsertValues (pages 100 records)).
  assert (Hlen : db_calls records = S (List.length ss + 1)).
  { unfold db_calls, ss. cbn [List.length]. rewrite length_map. lia. }
  assert (Hss : ss <> []) by (unfold ss; discriminate).
  assert (Hbody : forall c,
             db_writing ds tp tc c
             = (connect ;; with_conn (execute_many ss ;; commit)) c)
    by reflexivity.
  rewrite Hlen. split; intros Hf; rewrite Hbody; unfold bind at 1;
    unfold connect, next_fault, open_store; cbn [faults committed pending in_transaction].
  - destruct fs as [|f fs].
    + destruct (transaction_ok ss (mkConn db db false []) Hss)
        as [c [Hc Hcm]]; [apply any_fault_nil |].
      exists c. split; [exact Hc |].
      rewrite Hcm. apply db_writing_statements.
    + rewrite any_fault_cons in Hf. apply orb_false_iff in Hf.
      destruct Hf as [-> Hf].
      destruct (transaction_ok ss (mkConn db db false fs) Hss Hf)
        as [c [Hc Hcm]].
      exists c. split; [exact Hc |].
      rewrite Hcm. apply db_writing_statements.
  - destruct fs as [|f fs]; [rewrite any_fault_nil in Hf; discriminate |].
    rewrite any_fault_cons in Hf. destruct f.
    + eexists. split; reflexivity.
    + simpl in Hf.
      destruct (transaction_fail ss (mkConn db db false fs) Hss Hf)
        as [c [Hc Hcm]].
      exists c. split; [exact Hc | exact Hcm].
Qed.

Lemma pipeline_db_writing (ds : string) (advertisers : list cell)
    (product_views : list ProductView) (ads_views : list AdView) (c : Conn) :
  tp_recommendations_pipeline ds advertisers product_views ads_views c
  = db_writing ds (dag_top_product advertisers product_views ads_views)
                  (dag_top_ctr advertisers product_views ads_views) c.
Proof. reflexivity. Qed.

(** *** What a run leaves on the connection *)

Lemma next_fault_fields (c : Conn) :
  committed (snd (next_fault c)) = committed c /\
  pending (snd (next_fault c)) = pending c /\
  in_transaction (snd (next_fault c)) = in_transaction c.
Proof. unfold next_fault. destruct (faults c); auto. Qed.

Lemma connect_consistent (c : Conn) :
  no_transaction c -> no_transaction (snd (connect c)).
Proof.
  unfold connect, no_transaction. intros [Htx Hpd].
  destruct (next_fault_fields c) as [H1 [H2 H3]].
  destruct (next_fault c) as [[|] c1]; cbn [snd] in *; split; congruence.
Qed.

Lemma execute_consistent (s : stmt) (c : Conn) :
  consistent (snd (execute s c)).
Proof.
  unfold execute, consistent.
  destruct (next_fault c) as [[|] c1]; cbn; discriminate.
Qed.

Lemma execute_many_consistent (ss : list stmt) (c : Conn) :
  consistent c -> consistent (snd (execute_many ss c)).
Proof.
  revert c. induction ss as [|s ss IH]; intros c Hc; [exact Hc |].
  cbn [execute_many]. unfold bind.
  pose proof (execute_consistent s c) as Hs.
  destruct (execute s c) as [[[]|] c1]; cbn [snd] in *;
    [now apply IH | exact Hs].
Qed.

Lemma commit_consistent (c : Conn) :
  consistent c ->
  consistent (snd (commit c)) /\
  (fst (commit c) = Returned tt -> no_transaction (snd (commit c))).
Proof.
  unfold commit, consistent, no_transaction. intros Hc.
  destruct (in_transaction c) eqn:Htx.
  - destruct (next_fault_fields c) as [H1 [H2 H3]].
    destruct (next_fault c) as [[|] c1]; cbn [fst snd] in *.
    + split; [congruence | discriminate].
    + cbn. auto.
  - cbn [fst snd]. rewrite Htx. auto.
Qed.

Lemma rollback_no_transaction (c : Conn) : no_transaction (rollback c).
Proof. split; reflexivity. Qed.

Lemma with_conn_no_transaction {A : Type} (body : Db A) (c : Conn) :
  consistent (snd (body c)) -> no_transaction (snd (with_conn body c)).
Proof.
  unfold with_conn. intros Hb.
  destruct (body c) as [[a|] c1]; cbn [snd] in *;
    [| apply rollback_no_transaction].
  destruct (commit_consistent c1 Hb) as [_ Hret].
  destruct (commit c1) as [[[]|] c2]; cbn [fst snd] in *;
    [now apply Hret | apply rollback_no_transaction].
Qed.

Lemma db_writing_no_transaction (ds : string) (tp : list TopProductRow)
    (tc : list TopCtrRow) (db : Table) (fs : list bool) :
  no_transaction (snd (db_writing ds tp tc (open_store db fs))).
Proof.
  unfold db_writing. unfold bind at 1.
  assert (H0 : no_transaction (open_store db fs)) by (split; reflexivity).
  pose proof (connect_consistent _ H0) as H1.
  destruct (connect (open_store db fs)) as [[[]|] c1]; cbn [snd] in *;
    [| exact H1].
  apply with_conn_no_transaction.
  assert (Hc1 : consistent c1) by (intros _; apply H1).
  unfold bind at 1.
  assert (Hb : consistent
                 (snd ((execute (DeleteDate ds);;
                        execute_values (recommendations ds tp tc)) c1))).
  { unfold bind. pose proof (execute_consistent (DeleteDate ds) c1) as Hs.
    destruct (execute (DeleteDate ds) c1) as [[[]|] c2]; cbn [snd] in *;
      [| exact Hs].
    now apply execute_many_consistent. }
  destruct ((execute (DeleteDate ds);;
             execute_values (recommendations ds tp tc)) c1)
    as [[[]|] c2]; cbn [snd] in *; [| exact Hb].
  now apply commit_consistent.
Qed.

(** C4.  DBWriting deletes the rows of the run date and inserts the new rows
    in one transaction: when any of its database calls raises, the run
    raises, the transaction is rolled back and the store is what it was
    before; otherwise the run returns and the store is the rows of the other
    dates followed by the new rows.  Either way no transaction is left open:
    the view of the connection is the committed table, so nothing of a
    partial DELETE or INSERT is left pending. *)
Theorem db_writing_atomic (ds : string) (top_product : list TopProductRow)
    (top_ctr : list TopCtrRow) (db : Table) (fs : list bool) :
  exists c,
    (if any_fault (db_calls (recommendations ds top_product top_ctr)) fs
     then db_writing ds top_product top_ctr (open_store db fs) = (Raised, c) /\
          committed c = db
     else db_writing ds top_product top_ctr (open_store db fs)
          = (Returned tt, c) /\
          committed c
          = other_dates ds db ++ recommendations ds top_product top_ctr) /\
    in_transaction c = false /\
    pending c = committed c.
Proof.
  destruct (db_writing_run ds top_product top_ctr db fs) as [Hok Hfail].
  pose proof (db_writing_no_transaction ds top_product top_ctr db fs) as Hnt.
  destruct (any_fault (db_calls (recommendations ds top_product top_ctr)) fs).
  - destruct (Hfail eq_refl) as [c [Hc Hcm]]. exists c.
    rewrite Hc in Hnt. destruct Hnt as [Htx Hpd]. now repeat split.
  - destruct (Hok eq_refl) as [c [Hc Hcm]]. exists c.
    rewrite Hc in Hnt. destruct Hnt as [Htx Hpd]. now repeat split.
Qed.

(** The INSERT raises after the DELETE has run: the DELETE is undone, the
    rows of the run date are still in the store and no transaction is left
    open. *)
Example db_writing_rolls_back :
  let r := db_writing "2025-12-03" example_top_product example_top_ctr
             (open_store example_store [false; false; true]) in
  fst r = Raised /\ committed (snd r) = example_store /\
  pending (snd r) = example_store /\ in_transaction (snd r) = false.
Proof. vm_compute. repeat split; reflexivity. Qed.

(** No call raises: the rows of the run date are replaced. *)
Example db_writing_commits :
  let r := db_writing "2025-12-03" example_top_product example_top_ctr
             (open_store example_store []) in
  fst r = Returned tt /\
  committed (snd r)
  = mkRecord "2025-12-02" "A1" "top_product" "P7" 1 (Some 4) None None None
    :: recommendations "2025-12-03" example_top_product example_top_ctr.
Proof. vm_compute. split; reflexivity. Qed.

(** C3.  When a run of the DAG for run date [ds] has succeeded, a second run
    for the same date on the same inputs leaves the store as the first run
    left it, whether the second run succeeds or fails; after the first run
    the rows of date [ds] are exactly the rows of that run, once, and the rows
    of the other dates are untouched. *)
Theorem rerun_same_store (ds : string) (advertisers : list cell)
    (product_views : list ProductView) (ads_views : list AdView)
    (db : Table) (fs1 fs2 : list bool) :
  run_outcome ds advertisers product_views ads_views db fs1 = Returned tt ->
  let store1 := store_after ds advertisers product_views ads_views db fs1 in
  store_after ds advertisers product_views ads_views store1 fs2 = store1 /\
  on_date ds store1
  = recommendations ds (dag_top_product advertisers product_views ads_views)
                       (dag_top_ctr advertisers product_views ads_views) /\
  other_dates ds store1 = other_dates ds db.
Proof.
  unfold run_outcome, store_after. rewrite !pipeline_db_writing.
  set (tp := dag_top_product advertisers product_views ads_views).
  set (tc := dag_top_ctr advertisers product_views ads_views).
  intros H1.
  destruct (db_writing_run ds tp tc db fs1) as [Hok Hfail].
  destruct (any_fault (db_calls (recommendations ds tp tc)) fs1).
  - destruct (Hfail eq_refl) as [c [Hc _]]. rewrite Hc in H1. discriminate.
  - destruct (Hok eq_refl) as [c [Hc Hcm]]. clear Hok Hfail H1.
    rewrite Hc. cbn [snd]. rewrite Hcm. cbv zeta.
    assert (Hother : other_dates ds (other_dates ds db ++ recommendations ds tp tc)
                     = other_dates ds db).
    { unfold other_dates at 1. rewrite filter_app.
      fold (other_dates ds (other_dates ds db)).
      fold (other_dates ds (recommendations ds tp tc)).
      now rewrite other_dates_idem, other_dates_recommendations, app_nil_r. }
    split; [| split].
    + destruct (db_writing_run ds tp tc
                  (other_dates ds db ++ recommendations ds tp tc) fs2)
        as [Hok2 Hfail2].
      destruct (any_fault (db_calls (recommendations ds tp tc)) fs2).
      * destruct (Hfail2 eq_refl) as [c2 [-> Hcm2]]. exact Hcm2.
      * destruct (Hok2 eq_refl) as [c2 [-> Hcm2]]. simpl.
        rewrite Hcm2, Hother. reflexivity.
    + unfold on_date at 1. rewrite filter_app.
      fold (on_date ds (other_dates ds db)).
      fold (on_date ds (recommendations ds tp tc)).
      now rewrite on_date_other_dates, on_date_recommendations.
    + exact Hother.
Qed.

(** The worked example, run on a store that holds rows of two days; the
    second run fails at its INSERT. *)
Lemma rerun_same_store_witness :
  let store1 :=
    store_after "2025-12-03" [Some "A1"] example_product_views
                example_ads_views example_store [] in
  store_after "2025-12-03" [Some "A1"] example_product_views
              example_ads_views store1 [false; false; true]
  = store1 /\
  on_date "2025-12-03" store1
  = recommendations "2025-12-03"
      (dag_top_product [Some "A1"] example_product_views example_ads_views)
      (dag_top_ctr [Some "A1"] example_product_views example_ads_views) /\
  other_dates "2025-12-03" store1 = other_dates "2025-12-03" example_store.
Proof.
  apply (rerun_same_store "2025-12-03" [Some "A1"] example_product_views
           example_ads_views example_store [] [false; false; true]).
  vm_compute. reflexivity.
Defined.

Lemma top_product_model (rows : list ProductView) (r : TopProductRow) :
  In r (calcular_top_product rows) -> tp_model r = "top_product".
Proof.
  unfold calcular_top_product. intros H. apply ranked_In in H.
  destruct H as [v [n [_ ->]]]. reflexivity.
Qed.

Lemma top_ctr_model (rows : list AdView) (r : TopCtrRow) :
  In r (calcular_top_ctr rows) -> tc_model r = "top_ctr".
Proof.
  unfold calcular_top_ctr. intros H. apply ranked_In in H.
  destruct H as [v [n [_ ->]]]. reflexivity.
Qed.

(** C6.  The merged list is the rows of top_product followed by the rows of
    top_ctr, one record per row: its length is the sum of both lengths,
    every record bears the run date passed to DBWriting, the record of a
    top_ctr row carries impressions, clicks and ctr and null views, and the
    record of a top_product row carries views and null impressions and
    clicks.  The ctr of a top_product row is null only when top_ctr has no
    row: otherwise it is NaN.  So it is in the worked example, whose three
    top_product rows reach the store with ctr = NaN. *)
Theorem merger_ctr_nan (ds : string) (top_product : list TopProductRow)
    (top_ctr : list TopCtrRow) :
  List.length (recommendations ds top_product top_ctr)
  = List.length top_product + List.length top_ctr /\
  (forall r, In r (recommendations ds top_product top_ctr) -> date r = ds) /\
  (forall i row, nth_error top_product i = Some row ->
     nth_error (recommendations ds top_product top_ctr) i
     = Some (mkRecord ds (tp_advertiser_id row) (tp_model row)
               (tp_product_id row) (tp_rank row)
               (Some (tp_views row)) None None
               (match top_ctr with [] => None | _ :: _ => Some NaN end))) /\
  (forall i row, nth_error top_ctr i = Some row ->
     nth_error (recommendations ds top_product top_ctr)
               (List.length top_product + i)
     = Some (mkRecord ds (tc_advertiser_id row) (tc_model row)
               (tc_product_id row) (tc_rank row)
               None (Some (tc_impressions row)) (Some (tc_clicks row))
               (Some (Finite (tc_ctr row))))) /\
  (forall pvf avf r,
     In r (recommendations ds (calcular_top_product pvf) (calcular_top_ctr avf)) ->
     (model r = "top_product" /\ views r <> None /\
      impressions r = None /\ clicks r = None /\
      ctr r = match calcular_top_ctr avf with
              | [] => None
              | _ :: _ => Some NaN
              end) \/
     (model r = "top_ctr" /\ views r = None /\
      impressions r <> None /\ clicks r <> None /\
      exists q, ctr r = Some (Finite q))) /\
  map (fun r => (product_id r, ctr r))
      (filter (fun r => String.eqb (model r) "top_product")
              (store_after "2025-12-03" [Some "A1"] example_product_views
                           example_ads_views [] []))
  = [("P1", Some NaN); ("P2", Some NaN); ("P3", Some NaN)].
Proof.
  rewrite recommendations_records.
  split; [| split; [| split; [| split; [| split]]]].
  - now rewrite length_app, !length_map.
  - intros r H. apply in_app_or in H.
    destruct H as [H | H]; apply in_map_iff in H;
      destruct H as [row [<- _]]; reflexivity.
  - intros i row H. rewrite nth_error_app1.
    + rewrite nth_error_map, H. reflexivity.
    + rewrite length_map. apply nth_error_Some. congruence.
  - intros i row H. rewrite nth_error_app2.
    + rewrite length_map.
      replace (List.length top_product + i - List.length top_product) with i by lia.
      rewrite nth_error_map, H. reflexivity.
    + rewrite length_map. lia.
  - intros pvf avf r H. rewrite recommendations_records in H.
    apply in_app_or in H. destruct H as [H | H];
      apply in_map_iff in H; destruct H as [row [<- Hrow]];
      cbn [top_product_record top_ctr_record model views impressions clicks ctr].
    + left. rewrite (top_product_model _ _ Hrow).
      split; [reflexivity |]. split; [discriminate |].
      split; [reflexivity |]. split; reflexivity.
    + right. rewrite (top_ctr_model _ _ Hrow).
      split; [reflexivity |]. split; [reflexivity |].
      split; [discriminate |]. split; [discriminate |].
      eexists. reflexivity.
  - vm_compute. reflexivity.
Qed.

(** *** Ranks *)

Lemma filter_none {A : Type} (f : A -> bool) (l : list A) :
  (forall x, f x = false) -> filter f l = [].
Proof.
  intros H. induction l as [|x l IH]; simpl; [reflexivity |].
  now rewrite H.
Qed.

Lemma perm_filter_length {A : Type} (f : A -> bool) (l l' : list A) :
  Permutation l l' -> List.length (filter f l) = List.length (filter f l').
Proof.
  induction 1; simpl; try congruence.
  - destruct (f x); simpl; congruence.
  - destruct (f x), (f y); reflexivity.
Qed.

Lemma ranks_seq {R : Type} (adv : R -> string) (l : list R) (a : string) :
  map (fun p => snd p + 1)
      (filter (fun p => of_adv adv a (fst p))
              (combine (groupby_head adv 20 l)
                       (cumcount adv (groupby_head adv 20 l))))
  = seq 1 (Nat.min 20 (List.length (filter (of_adv adv a) l))).
Proof.
  rewrite <- (map_map snd (fun n => n + 1)).
  unfold cumcount. rewrite cumcount_from_filter.
  unfold groupby_head. rewrite head_from_filter, length_firstn.
  unfold seen_count. simpl count_occ. rewrite Nat.sub_0_r.
  rewrite <- seq_shift. apply map_ext. intros n. lia.
Qed.

Lemma StronglySorted_NoDup {A : Type} (before : A -> A -> Prop) (l : list A) :
  (forall x, ~ before x x) -> StronglySorted before l -> NoDup l.
Proof.
  intros Hirr. induction 1 as [|x l Hs IH Hall]; constructor; [| exact IH].
  intros Hin. rewrite Forall_forall in Hall. exact (Hirr x (Hall x Hin)).
Qed.

Lemma key_before_irrefl (k : key) : ~ key_before k k.
Proof.
  intros [H | [_ H]]; exact (str_lt_irrefl _ H).
Qed.

Lemma count_keys (a : string) (Q : key -> bool) (ks : list key)
    (ps : list string) :
  (forall p, In p ps <-> In (a, p) ks /\ Q (a, p) = true) ->
  List.length (filter (fun k => String.eqb (fst k) a && Q k) (group_keys ks))
  = distinct ps.
Proof.
  intros Hps.
  set (K := filter (fun k => String.eqb (fst k) a && Q k) (group_keys ks)).
  assert (HK : forall k, In k K <-> fst k = a /\ In k ks /\ Q k = true).
  { intros k. unfold K. rewrite filter_In, group_keys_In, andb_true_iff,
      String.eqb_eq. tauto. }
  rewrite <- (length_map snd K). unfold distinct.
  apply Permutation_length. apply NoDup_Permutation.
  - apply NoDup_map_NoDup_ForallPairs.
    + intros [a1 p1] [a2 p2] H1 H2 Heq. simpl in Heq.
      apply HK in H1, H2. simpl in H1, H2.
      destruct H1 as [-> _], H2 as [-> _]. now subst.
    + unfold K. apply NoDup_filter.
      apply StronglySorted_NoDup with (before := key_before).
      * exact key_before_irrefl.
      * apply group_keys_sorted.
  - apply NoDup_nodup.
  - intros p. rewrite nodup_In, Hps, in_map_iff. split.
    + intros [[a' p'] [Hp Hk]]. simpl in Hp. subst p'.
      apply HK in Hk. simpl in Hk. destruct Hk as [-> Hk]. exact Hk.
    + intros H. exists (a, p). split; [reflexivity |].
      apply HK. simpl. tauto.
Qed.

Lemma viewed_products_In (a p : string) (l : list ProductView) :
  In p (viewed_products a l) <-> In (a, p) (present_keys pv_key l).
Proof.
  unfold viewed_products. rewrite in_flat_map, present_keys_In.
  split; intros [v [Hv H]]; exists v; (split; [exact Hv |]);
    unfold pv_key in *;
    destruct (pv_advertiser_id v) as [a'|], (pv_product_id v) as [p'|];
    try (simpl in H; tauto); try discriminate.
  - destruct (String.eqb_spec a' a) as [-> |]; simpl in H; [| tauto].
    destruct H as [-> | []]. reflexivity.
  - inversion H; subst. rewrite String.eqb_refl. now left.
Qed.

Lemma top_product_groups (a : string) (pvf : list ProductView) :
  List.length
    (filter (of_adv vw_advertiser_id a)
       (map (fun g => mkViews (fst (fst g)) (snd (fst g)) (List.length (snd g)))
            (groupby pv_key pvf)))
  = distinct (viewed_products a pvf).
Proof.
  unfold groupby. rewrite map_map, filter_map_swap, length_map.
  rewrite <- (count_keys a (fun _ => true) (present_keys pv_key pvf)).
  - f_equal. apply filter_ext. intros k. unfold of_adv. simpl.
    now rewrite andb_true_r.
  - intros p. rewrite viewed_products_In. tauto.
Qed.

Lemma top_product_ranks (a m : string) (pvf : list ProductView) :
  map tp_rank
      (filter (fun r => String.eqb (tp_advertiser_id r) a &&
                        String.eqb (tp_model r) m)
              (calcular_top_product pvf))
  = if String.eqb m "top_product"
    then seq 1 (Nat.min 20 (distinct (viewed_products a pvf)))
    else [].
Proof.
  unfold calcular_top_product. rewrite filter_map_swap, map_map.
  cbn [tp_rank tp_advertiser_id tp_model].
  destruct (String.eqb_spec m "top_product") as [-> | Hm].
  - rewrite (filter_ext _ (fun p => of_adv vw_advertiser_id a (fst p)))
      by (intros p; unfold of_adv; apply andb_true_r).
    rewrite ranks_seq. f_equal. f_equal.
    rewrite (perm_filter_length _ _ _ (sort_values_perm views_leb _)).
    apply top_product_groups.
  - rewrite filter_none; [reflexivity |].
    intros p. rewrite (String.eqb_sym "top_product" m).
    destruct (String.eqb_spec m "top_product"); [contradiction |].
    apply andb_false_r.
Qed.

Lemma filter_filter_and {A : Type} (f g : A -> bool) (l : list A) :
  filter f (filter g l) = filter (fun x => f x && g x) l.
Proof.
  induction l as [|x l IH]; simpl; [reflexivity |].
  destruct (g x); simpl.
  - destruct (f x); simpl; now rewrite IH.
  - now rewrite andb_false_r.
Qed.

Lemma filter_inhabited {A : Type} (f : A -> bool) (l : list A) :
  0 < List.length (filter f l) -> exists x, In x l /\ f x = true.
Proof.
  destruct (filter f l) as [|x l'] eqn:E; simpl; [lia |].
  intros _. exists x. apply filter_In. rewrite E. now left.
Qed.

Lemma impressed_products_In (a p : string) (l : list AdView) :
  In p (impressed_products a l) <->
  In (a, p) (present_keys ad_key (map with_flags l)) /\
  (0 <? list_sum (map ad_impression
                      (filter (in_group ad_key (a, p)) (map with_flags l)))) = true.
Proof.
  rewrite (sum_flag_count "impression" a p) by reflexivity.
  rewrite Nat.ltb_lt. unfold impressed_products. rewrite in_flat_map. split.
  - intros [v [Hv H]].
    destruct v as [[a'|] [p'|] t]; simpl in H; try tauto.
    destruct (String.eqb_spec a' a) as [-> |]; simpl in H; [| tauto].
    destruct (cell_eqb t (Some "impression")) eqn:Et; simpl in H; [| tauto].
    destruct H as [-> | []]. split.
    + apply present_keys_In. exists (with_flags (mkAdView (Some a) (Some p) t)).
      split; [now apply in_map | reflexivity].
    + unfold count_ads.
      apply (filter_nonempty _ (mkAdView (Some a) (Some p) t)); [exact Hv |].
      simpl. now rewrite !String.eqb_refl, Et.
  - intros [_ Hpos]. unfold count_ads in Hpos.
    apply filter_inhabited in Hpos. destruct Hpos as [v [Hv Hf]].
    exists v. split; [exact Hv |].
    apply andb_true_iff in Hf. destruct Hf as [Hf Ht].
    apply andb_true_iff in Hf. destruct Hf as [Ha Hp].
    apply cell_eqb_eq in Ha, Hp. rewrite Ha, Hp, Ht, String.eqb_refl.
    now left.
Qed.

Lemma top_ctr_groups (a : string) (avf : list AdView) :
  List.length
    (filter (of_adv cr_advertiser_id a)
       (map (fun g => mkCtr (fst (fst g)) (snd (fst g)) (fst (snd g))
                            (snd (snd g)) (divide (snd (snd g)) (fst (snd g))))
          (filter (fun g => 0 <? fst (snd g))
             (map (fun g => (fst g, (list_sum (map ad_impression (snd g)),
                                     list_sum (map ad_click (snd g)))))
                  (groupby ad_key (map with_flags avf))))))
  = distinct (impressed_products a avf).
Proof.
  unfold groupby.
  rewrite filter_map_swap, length_map, filter_filter_and.
  rewrite map_map, filter_map_swap, length_map.
  cbn [fst snd cr_advertiser_id of_adv].
  apply (count_keys a
           (fun k => 0 <? list_sum (map ad_impression
                          (filter (in_group ad_key k) (map with_flags avf))))).
  intros p. apply impressed_products_In.
Qed.

Lemma top_ctr_ranks (a m : string) (avf : list AdView) :
  map tc_rank
      (filter (fun r => String.eqb (tc_advertiser_id r) a &&
                        String.eqb (tc_model r) m)
              (calcular_top_ctr avf))
  = if String.eqb m "top_ctr"
    then seq 1 (Nat.min 20 (distinct (impressed_products a avf)))
    else [].
Proof.
  unfold calcular_top_ctr. rewrite filter_map_swap, map_map.
  cbn [tc_rank tc_advertiser_id tc_model].
  destruct (String.eqb_spec m "top_ctr") as [-> | Hm].
  - rewrite (filter_ext _ (fun p => of_adv cr_advertiser_id a (fst p)))
      by (intros p; unfold of_adv; apply andb_true_r).
    rewrite ranks_seq. f_equal. f_equal.
    rewrite (perm_filter_length _ _ _ (sort_values_perm ctr_leb _)).
    apply top_ctr_groups.
  - rewrite filter_none; [reflexivity |].
    intros p. rewrite (String.eqb_sym "top_ctr" m).
    destruct (String.eqb_spec m "top_ctr"); [contradiction |].
    apply andb_false_r.
Qed.

Lemma ranks_of_recommendations (ds a m : string) (tp : list TopProductRow)
    (tc : list TopCtrRow) :
  ranks_of ds a m (recommendations ds tp tc)
  = map tp_rank
        (filter (fun r => String.eqb (tp_advertiser_id r) a &&
                          String.eqb (tp_model r) m) tp)
    ++ map tc_rank
        (filter (fun r => String.eqb (tc_advertiser_id r) a &&
                          String.eqb (tc_model r) m) tc).
Proof.
  rewrite recommendations_records. unfold ranks_of, sel.
  rewrite filter_app, map_app.
  rewrite !filter_map_swap, !map_map.
  cbn [top_product_record top_ctr_record date advertiser_id model rank].
  rewrite String.eqb_refl. reflexivity.
Qed.

Lemma ranks_of_store (ds a m : string) (db recs : Table) :
  ranks_of ds a m (other_dates ds db ++ recs) = ranks_of ds a m recs.
Proof.
  unfold ranks_of. rewrite filter_app, map_app.
  replace (filter (sel ds a m) (other_dates ds db)) with (@nil RankingRecord);
    [reflexivity |].
  symmetry. unfold other_dates. rewrite filter_filter_and.
  apply filter_none. intros r. unfold sel.
  destruct (date r =? ds)%string; simpl;
    [apply andb_false_r | reflexivity].
Qed.

(** C5.  In the rows DBWriting materialises for run date [ds], and in the
    store after a successful run, the ranks of every advertiser and model, in
    stored order, are 1, 2, ..., k with k = min(20, number of distinct
    qualifying products of the advertiser): contiguous from 1, without
    duplicates, at most 20 and at most the number of qualifying products. *)
Theorem ranks_contiguous (ds a m : string) (pvf : list ProductView)
    (avf : list AdView) (db : Table) :
  ranks_of ds a m
    (recommendations ds (calcular_top_product pvf) (calcular_top_ctr avf))
  = seq 1 (Nat.min 20 (qualifying_products a m pvf avf)) /\
  ranks_of ds a m
    (other_dates ds db ++
     recommendations ds (calcular_top_product pvf) (calcular_top_ctr avf))
  = seq 1 (Nat.min 20 (qualifying_products a m pvf avf)) /\
  NoDup (ranks_of ds a m
           (recommendations ds (calcular_top_product pvf) (calcular_top_ctr avf))) /\
  Nat.min 20 (qualifying_products a m pvf avf) <= 20 /\
  Nat.min 20 (qualifying_products a m pvf avf) <= qualifying_products a m pvf avf.
Proof.
  assert (H : ranks_of ds a m
                (recommendations ds (calcular_top_product pvf)
                                 (calcular_top_ctr avf))
              = seq 1 (Nat.min 20 (qualifying_products a m pvf avf))).
  { rewrite ranks_of_recommendations, top_product_ranks, top_ctr_ranks.
    unfold qualifying_products.
    destruct (String.eqb_spec m "top_product") as [-> | Hm].
    - simpl String.eqb. now rewrite app_nil_r.
    - destruct (String.eqb_spec m "top_ctr"); reflexivity. }
  repeat split.
  - exact H.
  - rewrite ranks_of_store. exact H.
  - rewrite H. apply seq_NoDup.
  - apply Nat.le_min_l.
  - apply Nat.le_min_r.
Qed.

(** *** FiltrarDatos *)

Lemma unique_from_NoDup (l seen : list cell) : NoDup (unique_from seen l).
Proof.
  revert seen. induction l as [|c l IH]; intros seen; simpl; [constructor |].
  destruct (isin c seen); [apply IH |].
  constructor; [| apply IH].
  intros H. apply unique_from_In in H. destruct H as [_ H].
  apply H. now left.
Qed.

Lemma filtered_In {A : Type} (adv : A -> cell) (advertisers : list cell)
    (rows : list A) (r : A) :
  In r (filter (fun x => isin (adv x) (unique advertisers)) rows) <->
  In r rows /\ In (adv r) advertisers.
Proof. rewrite filter_In, isin_unique, isin_In. tauto. Qed.

(** C7.  The active set is the list of distinct advertiser_id values of the
    registry, and each filtered log is the sub-list (same order, same
    multiplicities) of the rows whose advertiser_id is in it; rows of other
    advertisers are left out, and with an empty active set both outputs are
    empty.  FiltrarDatos is a total function of the three tables: no input
    makes it fail. *)
Theorem filtrar_datos_subset (advertisers : list cell)
    (product_views : list ProductView) (ads_views : list AdView) :
  NoDup (unique advertisers) /\
  (forall c, In c (unique advertisers) <-> In c advertisers) /\
  (exists keep,
     (forall r, keep r = true <-> In (pv_advertiser_id r) (unique advertisers)) /\
     fst (filtrar_datos advertisers product_views ads_views)
     = filter keep product_views) /\
  (exists keep,
     (forall r, keep r = true <-> In (av_advertiser_id r) (unique advertisers)) /\
     snd (filtrar_datos advertisers product_views ads_views)
     = filter keep ads_views) /\
  (forall r, In r (fst (filtrar_datos advertisers product_views ads_views)) <->
             In r product_views /\ In (pv_advertiser_id r) advertisers) /\
  (forall r, In r (snd (filtrar_datos advertisers product_views ads_views)) <->
             In r ads_views /\ In (av_advertiser_id r) advertisers) /\
  (unique advertisers = [] ->
   filtrar_datos advertisers product_views ads_views = ([], [])).
Proof.
  split; [apply unique_from_NoDup |].
  split; [intros c; apply unique_In |].
  split.
  { exists (fun r => isin (pv_advertiser_id r) (unique advertisers)).
    split; [intros r; apply isin_In | reflexivity]. }
  split.
  { exists (fun r => isin (av_advertiser_id r) (unique advertisers)).
    split; [intros r; apply isin_In | reflexivity]. }
  split; [intros r; apply (filtered_In pv_advertiser_id) |].
  split; [intros r; apply (filtered_In av_advertiser_id) |].
  intros H. unfold filtrar_datos. rewrite H. simpl.
  now rewrite !filter_none by reflexivity.
Qed.

Lemma filtered_keeps {A : Type} (adv : A -> cell) (advertisers : list cell)
    (rows : list A) (r : A) :
  In r rows ->
  (In r (filter (fun x => isin (adv x) (unique advertisers)) rows) <->
   In (adv r) advertisers).
Proof. intros Hr. rewrite filtered_In. tauto. Qed.

(** *** The read services *)

Lemma json_int_finite (v : option nat) : json_finite (json_int v) = true.
Proof. destruct v; reflexivity. Qed.

Lemma safe_float_finite (v : option pyfloat) :
  json_finite (json_float (ApiMain.safe_float v)) = true.
Proof. destruct v as [[q| | |]|]; reflexivity. Qed.

Lemma api_main_item_finite (r : RankingRecord) :
  item_finite (ApiMain.rec_item r) = true.
Proof.
  unfold item_finite, ApiMain.rec_item. cbn [forallb snd json_finite].
  now rewrite !json_int_finite, safe_float_finite.
Qed.

Lemma api_main_response_finite (today adv model : string) (s s' : Session)
    (resp : Response) :
  ApiMain.get_recommendations today adv model s = (Ok resp, s') ->
  forallb item_finite (resp_recommendations resp) = true.
Proof.
  unfold ApiMain.get_recommendations.
  destruct (negb _); [discriminate |].
  destruct (select_rows today adv (lower model) (table s)) as [|r rows];
    [discriminate |].
  intros H. inversion H; subst. cbn [resp_recommendations].
  apply forallb_forall. intros it Hit.
  change (In it (map ApiMain.rec_item (r :: rows))) in Hit.
  apply in_map_iff in Hit. destruct Hit as [x [<- _]].
  apply api_main_item_finite.
Qed.

(** C9.  After a run of the DAG on the worked example the three top_product
    rows of the store carry ctr = NaN.  [history] of tp-api/app/main.py
    answers GET /history/A1 with these items as fetched, ctr = NaN, while
    [get_history] of main.py answers the same request with null in their
    place; [get_recommendations] of main.py never returns a non-finite float
    either (the counts are integer columns). *)
Theorem tp_api_history_returns_nan :
  fst (TpDb.history int_of_default_port "A1" "2025-11-26"
         (TpDb.mkProcess minimal_environ None
            (store_after "2025-12-03" [Some "A1"] example_product_views
               example_ads_views [] [])
            []))
  = TpDb.Return
      ("A1",
       [("2025-12-03",
         [("top_ctr",
           [[("rank", JInt 1); ("product_id", JStr "P2"); ("views", JNull);
             ("impressions", JInt 4); ("clicks", JInt 4);
             ("ctr", JFloat (Finite (4 # 4)))];
            [("rank", JInt 2); ("product_id", JStr "P1"); ("views", JNull);
             ("impressions", JInt 10); ("clicks", JInt 5);
             ("ctr", JFloat (Finite (5 # 10)))]]);
          ("top_product",
           [[("rank", JInt 1); ("product_id", JStr "P1"); ("views", JInt 3);
             ("impressions", JNull); ("clicks", JNull);
             ("ctr", JFloat NaN)];
            [("rank", JInt 2); ("product_id", JStr "P2"); ("views", JInt 3);
             ("impressions", JNull); ("clicks", JNull);
             ("ctr", JFloat NaN)];
            [("rank", JInt 3); ("product_id", JStr "P3"); ("views", JInt 1);
             ("impressions", JNull); ("clicks", JNull);
             ("ctr", JFloat NaN)]])])]) /\
  fst (MainIo.get_history "2025-12-03" "2025-11-26" "A1"
         (MainIo.mkServer
            (store_after "2025-12-03" [Some "A1"] example_product_views
               example_ads_views [] [])
            0 []))
  = MainIo.Return
      (MainIo.mkHistory
         [("advertiser_id", JStr "A1"); ("from_date", JStr "2025-11-26");
          ("to_date", JStr "2025-12-03"); ("num_records", JInt 5)]
         [[("date", JStr "2025-12-03"); ("advertiser_id", JStr "A1");
           ("model", JStr "top_ctr"); ("product_id", JStr "P2");
           ("rank", JInt 1); ("views", JNull); ("impressions", JInt 4);
           ("clicks", JInt 4); ("ctr", JFloat (Finite (4 # 4)))];
          [("date", JStr "2025-12-03"); ("advertiser_id", JStr "A1");
           ("model", JStr "top_ctr"); ("product_id", JStr "P1");
           ("rank", JInt 2); ("views", JNull); ("impressions", JInt 10);
           ("clicks", JInt 5); ("ctr", JFloat (Finite (5 # 10)))];
          [("date", JStr "2025-12-03"); ("advertiser_id", JStr "A1");
           ("model", JStr "top_product"); ("product_id", JStr "P1");
           ("rank", JInt 1); ("views", JInt 3); ("impressions", JNull);
           ("clicks", JNull); ("ctr", JNull)];
          [("date", JStr "2025-12-03"); ("advertiser_id", JStr "A1");
           ("model", JStr "top_product"); ("product_id", JStr "P2");
           ("rank", JInt 2); ("views", JInt 3); ("impressions", JNull);
           ("clicks", JNull); ("ctr", JNull)];
          [("date", JStr "2025-12-03"); ("advertiser_id", JStr "A1");
           ("model", JStr "top_product"); ("product_id", JStr "P3");
           ("rank", JInt 3); ("views", JInt 1); ("impressions", JNull);
           ("clicks", JNull); ("ctr", JNull)]]) /\
  (forall today adv model s s' resp,
     ApiMain.get_recommendations today adv model s = (Ok resp, s') ->
     forallb item_finite (resp_recommendations resp) = true).
Proof.
  split; [vm_compute; reflexivity |].
  split; [vm_compute; reflexivity |].
  exact api_main_response_finite.
Qed.

(** C10.  When the lower-cased model is neither top_product nor top_ctr,
    both services answer /recommendations/{adv}/{model} with status 400 for
    every advertiser, and the session is as before: no statement has been
    sent to the database. *)
Theorem invalid_model_rejected (today adv model : string) (s : Session) :
  valid_model (lower model) = false ->
  ApiMain.get_recommendations today adv model s = (HTTPException 400, s) /\
  TpApi.recommendations adv model s = (HTTPException 400, s).
Proof.
  unfold valid_model. intros H. split.
  - unfold ApiMain.get_recommendations. now rewrite H.
  - unfold TpApi.recommendations, TpApi.ALLOWED_MODELS. cbn [existsb].
    rewrite orb_false_r, H. reflexivity.
Qed.

(** Model "Top_Views" lower-cases to neither accepted name. *)
Lemma invalid_model_rejected_witness :
  ApiMain.get_recommendations "2025-12-03" "A1" "Top_Views"
    (new_session example_store)
  = (HTTPException 400, new_session example_store) /\
  TpApi.recommendations "A1" "Top_Views" (new_session example_store)
  = (HTTPException 400, new_session example_store).
Proof.
  apply (invalid_model_rejected "2025-12-03" "A1" "Top_Views"
           (new_session example_store)).
  vm_compute. reflexivity.
Defined.

(** ** Further properties of the pipeline *)

(** *** Sorted lists *)

Lemma StronglySorted_filter_keep {A : Type} (before : A -> A -> Prop)
    (f : A -> bool) (l : list A) :
  StronglySorted before l -> StronglySorted before (filter f l).
Proof.
  induction 1 as [|x l Hs IH Hall]; simpl; [constructor |].
  destruct (f x); [| exact IH].
  constructor; [exact IH |].
  rewrite Forall_forall in *. intros z Hz. apply filter_In in Hz.
  apply Hall. tauto.
Qed.

(** A strict order lists a set in one way only. *)
Lemma sorted_unique {A : Type} (before : A -> A -> Prop) (l1 l2 : list A) :
  (forall x, ~ before x x) ->
  (forall x y z, before x y -> before y z -> before x z) ->
  StronglySorted before l1 -> StronglySorted before l2 ->
  (forall x, In x l1 <-> In x l2) -> l1 = l2.
Proof.
  intros Hirr Htr H1. revert l2.
  induction H1 as [|x l1 Hs1 IH Hall1]; intros l2 H2 Hmem.
  - destruct l2 as [|y l2]; [reflexivity |].
    destruct (proj2 (Hmem y)). now left.
  - destruct H2 as [|y l2 Hs2 Hall2].
    + destruct (proj1 (Hmem x)). now left.
    + rewrite Forall_forall in Hall1, Hall2.
      assert (Hxy : x = y).
      { destruct (proj1 (Hmem x) (or_introl eq_refl)) as [E | Hx]; [auto |].
        destruct (proj2 (Hmem y) (or_introl eq_refl)) as [E | Hy]; [auto |].
        exfalso. apply (Hirr x). eapply Htr; [apply Hall1 | apply Hall2]; eauto. }
      subst y. f_equal. apply IH; [exact Hs2 |].
      intros z. split; intros Hz.
      * destruct (proj1 (Hmem z) (or_intror Hz)) as [E | Hz']; [| exact Hz'].
        subst z. exfalso. exact (Hirr x (Hall1 x Hz)).
      * destruct (proj2 (Hmem z) (or_intror Hz)) as [E | Hz']; [| exact Hz'].
        subst z. exfalso. exact (Hirr x (Hall2 x Hz)).
Qed.

Lemma group_keys_same (ks ks' : list key) :
  (forall k, In k ks <-> In k ks') -> group_keys ks = group_keys ks'.
Proof.
  intros H. apply (sorted_unique key_before).
  - exact key_before_irrefl.
  - exact key_before_trans.
  - apply group_keys_sorted.
  - apply group_keys_sorted.
  - intros k. rewrite !group_keys_In. apply H.
Qed.

Lemma present_keys_perm {R : Type} (keyof : R -> option key)
    (rows rows' : list R) (k : key) :
  Permutation rows rows' ->
  (In k (present_keys keyof rows) <-> In k (present_keys keyof rows')).
Proof.
  intros HP. rewrite !present_keys_In.
  split; intros [r [Hr Hk]]; exists r; (split; [| exact Hk]).
  - eapply Permutation_in; eauto.
  - eapply Permutation_in; [symmetry |]; eauto.
Qed.

(** *** TopProduct does not depend on the order of the log *)

Lemma top_product_views_nf (rows : list ProductView) :
  map (fun g => mkViews (fst (fst g)) (snd (fst g)) (List.length (snd g)))
      (groupby pv_key rows)
  = map (fun k => mkViews (fst k) (snd k) (count_views (fst k) (snd k) rows))
        (group_keys (present_keys pv_key rows)).
Proof.
  unfold groupby. rewrite map_map. apply map_ext. intros [a p]. simpl.
  f_equal. unfold count_views. f_equal. apply filter_ext.
  intros v. apply in_group_pv_key.
Qed.

Lemma count_views_perm (a p : string) (rows rows' : list ProductView) :
  Permutation rows rows' -> count_views a p rows = count_views a p rows'.
Proof. intros HP. unfold count_views. now apply perm_filter_length. Qed.

(** X1.  The product views are an unordered collection for TopProduct: two
    logs with the same rows in any order give the same ranking, row for
    row. *)
Theorem top_product_order_independent (rows rows' : list ProductView) :
  Permutation rows rows' ->
  calcular_top_product rows = calcular_top_product rows'.
Proof.
  intros HP. unfold calcular_top_product.
  rewrite !top_product_views_nf.
  rewrite (group_keys_same (present_keys pv_key rows) (present_keys pv_key rows'))
    by (intros k; now apply present_keys_perm).
  rewrite (map_ext
             (fun k => mkViews (fst k) (snd k) (count_views (fst k) (snd k) rows))
             (fun k => mkViews (fst k) (snd k) (count_views (fst k) (snd k) rows')))
    by (intros k; f_equal; now apply count_views_perm).
  reflexivity.
Qed.

Lemma top_product_order_independent_witness :
  calcular_top_product example_product_views
  = calcular_top_product (rev example_product_views).
Proof.
  apply (top_product_order_independent example_product_views
           (rev example_product_views)).
  apply Permutation_rev.
Defined.

(** X2.  A product view with no advertiser_id or no product_id is not
    counted: TopProduct gives the same ranking with or without it. *)
Theorem top_product_skips_missing_ids (v : ProductView)
    (rows : list ProductView) :
  pv_key v = None ->
  calcular_top_product (v :: rows) = calcular_top_product rows.
Proof.
  intros Hv. unfold calcular_top_product, groupby.
  cbn [present_keys]. rewrite Hv.
  rewrite (map_ext
             (fun k => (k, filter (in_group pv_key k) (v :: rows)))
             (fun k => (k, filter (in_group pv_key k) rows))).
  - reflexivity.
  - intros k. cbn [filter]. unfold in_group at 1. now rewrite Hv.
Qed.

Lemma top_product_skips_missing_ids_witness :
  calcular_top_product (mkProductView (Some "A1") None :: example_product_views)
  = calcular_top_product example_product_views.
Proof.
  apply (top_product_skips_missing_ids (mkProductView (Some "A1") None)
           example_product_views).
  reflexivity.
Defined.

(** *** TopCTR as a function of the group totals *)

Lemma ctr_rows_agg (avf : list AdView) :
  map (fun g => mkCtr (fst (fst g)) (snd (fst g)) (fst (snd g))
                      (snd (snd g)) (divide (snd (snd g)) (fst (snd g))))
      (filter (fun g => 0 <? fst (snd g))
         (map (fun g => (fst g, (list_sum (map ad_impression (snd g)),
                                 list_sum (map ad_click (snd g)))))
              (groupby ad_key (map with_flags avf))))
  = ctr_rows avf.
Proof.
  unfold groupby, ctr_rows.
  rewrite map_map, filter_map_swap, map_map. reflexivity.
Qed.

Lemma calcular_top_ctr_rows (avf : list AdView) :
  calcular_top_ctr avf = rank_top_ctr (sort_values ctr_leb (ctr_rows avf)).
Proof.
  unfold calcular_top_ctr, rank_top_ctr. rewrite ctr_rows_agg. reflexivity.
Qed.

Lemma sum_filter_perm {A : Type} (col : A -> nat) (f : A -> bool)
    (l l' : list A) :
  Permutation l l' ->
  list_sum (map col (filter f l)) = list_sum (map col (filter f l')).
Proof.
  induction 1 as [| x l l' HP IH | x y l | l l' l'' HP1 IH1 HP2 IH2]; simpl.
  - reflexivity.
  - destruct (f x); simpl; congruence.
  - destruct (f x), (f y); simpl; lia.
  - congruence.
Qed.

Lemma sum_filter_positive {A : Type} (col : A -> nat) (f : A -> bool)
    (l : list A) :
  0 < list_sum (map col (filter f l)) -> exists x, In x l /\ f x = true.
Proof.
  induction l as [|x l IH]; simpl; [lia |].
  destruct (f x) eqn:E.
  - intros _. exists x. auto.
  - intros H. destruct (IH H) as [y [Hy Hf]]. exists y. auto.
Qed.

Lemma ctr_rows_ext (avf avf' : list AdView) :
  (forall k, group_impressions k avf = group_impressions k avf') ->
  (forall k, group_clicks k avf = group_clicks k avf') ->
  ctr_rows avf = ctr_rows avf'.
Proof.
  intros Hi Hc. unfold ctr_rows.
  assert (Hkeys :
            filter (fun k => 0 <? group_impressions k avf)
                   (group_keys (present_keys ad_key (map with_flags avf)))
            = filter (fun k => 0 <? group_impressions k avf')
                     (group_keys (present_keys ad_key (map with_flags avf')))).
  { assert (Hin : forall l k,
              0 < group_impressions k l ->
              In k (present_keys ad_key (map with_flags l))).
    { intros l k Hpos. unfold group_impressions in Hpos.
      apply sum_filter_positive in Hpos. destruct Hpos as [r [Hr Hg]].
      apply present_keys_In. exists r. split; [exact Hr |].
      unfold in_group in Hg. destruct (ad_key r) as [k'|]; [| discriminate].
      apply key_eqb_eq in Hg. now subst. }
    apply (sorted_unique key_before).
    - exact key_before_irrefl.
    - exact key_before_trans.
    - apply StronglySorted_filter_keep, group_keys_sorted.
    - apply StronglySorted_filter_keep, group_keys_sorted.
    - intros k. rewrite !filter_In, !group_keys_In, !Nat.ltb_lt, <- Hi.
      split; intros [_ Hpos]; (split; [| exact Hpos]).
      + apply Hin. now rewrite <- Hi.
      + now apply Hin. }
  rewrite Hkeys. apply map_ext. intros k. now rewrite Hi, Hc.
Qed.

(** X3.  The ad views are an unordered collection for TopCTR: two logs with
    the same rows in any order give the same ranking, row for row. *)
Theorem top_ctr_order_independent (rows rows' : list AdView) :
  Permutation rows rows' -> calcular_top_ctr rows = calcular_top_ctr rows'.
Proof.
  intros HP. rewrite !calcular_top_ctr_rows. do 2 f_equal.
  apply ctr_rows_ext; intros k; unfold group_impressions, group_clicks;
    apply sum_filter_perm; now apply Permutation_map.
Qed.

Lemma top_ctr_order_independent_witness :
  calcular_top_ctr example_ads_views = calcular_top_ctr (rev example_ads_views).
Proof.
  apply (top_ctr_order_independent example_ads_views (rev example_ads_views)).
  apply Permutation_rev.
Defined.

Lemma untyped_flags (v : AdView) :
  untyped v = true ->
  ad_impression (with_flags v) = 0 /\ ad_click (with_flags v) = 0.
Proof.
  unfold untyped, with_flags. cbn [ad_impression ad_click].
  rewrite !type_is_count, andb_true_iff, !negb_true_iff.
  intros [-> ->]. auto.
Qed.

(** X4.  An ad view whose type is neither impression nor click (or is
    missing) counts for nothing: TopCTR gives the same ranking with or
    without it. *)
Theorem top_ctr_skips_untyped (v : AdView) (rows : list AdView) :
  untyped v = true -> calcular_top_ctr (v :: rows) = calcular_top_ctr rows.
Proof.
  intros Hv. destruct (untyped_flags v Hv) as [Hi Hc].
  rewrite !calcular_top_ctr_rows. do 2 f_equal.
  apply ctr_rows_ext; intros k; unfold group_impressions, group_clicks;
    cbn [map filter];
    destruct (in_group ad_key k (with_flags v)); cbn [map list_sum];
    rewrite ?Hi, ?Hc; reflexivity.
Qed.

Lemma top_ctr_skips_untyped_witness :
  calcular_top_ctr (adrow "A1" "P9" "view" :: example_ads_views)
  = calcular_top_ctr example_ads_views.
Proof.
  apply (top_ctr_skips_untyped (adrow "A1" "P9" "view") example_ads_views).
  reflexivity.
Defined.

(** *** The order of TopCTR *)

Lemma Qle_bool_false (x y : Q) : Qle_bool x y = false -> (y < x)%Q.
Proof.
  intros H. apply Qnot_le_lt. intros Hle.
  apply Qle_bool_iff in Hle. congruence.
Qed.

Lemma ctr_leb_keep (x y : CtrRow) :
  ctr_leb x y = true -> key_before (cr_key x) (cr_key y) -> cr_before x y.
Proof.
  unfold ctr_leb, key_before, cr_before, cr_key. simpl.
  destruct (String.compare (cr_advertiser_id x) (cr_advertiser_id y)) eqn:E.
  - apply str_compare_eq in E. intros Hv [Hlt | [_ Hp]].
    + rewrite E in Hlt. now apply str_lt_irrefl in Hlt.
    + apply Qle_bool_iff in Hv. right. split; [assumption |].
      destruct (Qle_lt_or_eq _ _ Hv) as [Hlt | Heq];
        [left; exact Hlt | right; split; [symmetry; exact Heq | exact Hp]].
  - intros _ _. now left.
  - discriminate.
Qed.

Lemma ctr_leb_swap (x y : CtrRow) : ctr_leb x y = false -> cr_before y x.
Proof.
  unfold ctr_leb, cr_before.
  destruct (String.compare (cr_advertiser_id x) (cr_advertiser_id y)) eqn:E.
  - apply str_compare_eq in E. intros Hv. apply Qle_bool_false in Hv.
    right. split; [now symmetry | now left].
  - discriminate.
  - intros _. left. now apply str_compare_gt.
Qed.

Lemma ctr_leb_chain (x y z : CtrRow) :
  ctr_leb x y = true -> cr_before y z -> ctr_leb x z = true.
Proof.
  unfold ctr_leb, cr_before.
  destruct (String.compare (cr_advertiser_id x) (cr_advertiser_id y)) eqn:E.
  - apply str_compare_eq in E. rewrite E. intros Hv [Hlt | [Ea Hz]].
    + unfold str_lt in Hlt. now rewrite Hlt.
    + rewrite <- Ea, str_compare_refl. apply Qle_bool_iff in Hv.
      apply Qle_bool_iff. destruct Hz as [Hz | [Hz _]].
      * apply Qlt_le_weak. eapply Qlt_le_trans; eauto.
      * rewrite <- Hz. exact Hv.
  - intros _ [Hlt | [Ea _]].
    + assert (H : str_lt (cr_advertiser_id x) (cr_advertiser_id z))
        by (eapply str_lt_trans; eauto).
      unfold str_lt in H. now rewrite H.
    + rewrite <- Ea, E. reflexivity.
  - discriminate.
Qed.

Lemma ctr_rows_sorted (avf : list AdView) :
  StronglySorted (fun x y => key_before (cr_key x) (cr_key y)) (ctr_rows avf).
Proof.
  unfold ctr_rows.
  apply StronglySorted_map_impl with (RA := key_before); [auto |].
  apply StronglySorted_filter_keep, group_keys_sorted.
Qed.

Lemma sorted_ctr_rows (avf : list AdView) :
  StronglySorted cr_before (sort_values ctr_leb (ctr_rows avf)).
Proof.
  apply sort_values_sorted
    with (before0 := fun x y => key_before (cr_key x) (cr_key y)).
  - exact ctr_leb_keep.
  - exact ctr_leb_swap.
  - exact ctr_leb_chain.
  - apply ctr_rows_sorted.
Qed.

(** X5.  The rows of TopCTR come by advertiser and, within an advertiser, by
    ctr descending; products with equal ctr come in ascending product_id,
    and the ranks of an advertiser grow along that order. *)
Theorem top_ctr_ranking (ads_views_filtered : list AdView) :
  StronglySorted tc_before (calcular_top_ctr ads_views_filtered) /\
  StronglySorted tc_rank_order (calcular_top_ctr ads_views_filtered).
Proof.
  rewrite calcular_top_ctr_rows. unfold rank_top_ctr. split.
  - apply StronglySorted_map_impl
      with (RA := fun p q => cr_before (fst p) (fst q)); [auto |].
    apply StronglySorted_combine_l.
    apply head_from_sorted. apply sorted_ctr_rows.
  - eapply StronglySorted_map_impl;
      [| apply (cumcount_from_increasing cr_advertiser_id)].
    unfold tc_rank_order. simpl. intros p q H E. specialize (H E). lia.
Qed.

(** *** What head(20) leaves out *)

Section HeadLeavesOut.
Context {R : Type} (adv : R -> string).

Lemma head_from_full (n : nat) (a : string) (l : list R) (seen : list string)
    (y : R) :
  n <= seen_count a seen -> In y (head_from adv n seen l) -> adv y <> a.
Proof.
  revert seen. induction l as [|r l IH]; intros seen Hn; simpl; [tauto |].
  assert (Hn' : n <= seen_count a (adv r :: seen)).
  { pose proof (seen_count_cons_le a (adv r) seen). lia. }
  destruct (Nat.ltb_spec (seen_count (adv r) seen) n) as [Hlt | Hge].
  - intros [<- | Hy]; [| now apply (IH _ Hn')].
    intros E. rewrite E in Hlt. lia.
  - now apply IH.
Qed.

Lemma head_from_dropped (before : R -> R -> Prop) (n : nat) (l : list R)
    (seen : list string) (x y : R) :
  StronglySorted before l ->
  In x l -> ~ In x (head_from adv n seen l) ->
  In y (head_from adv n seen l) -> adv y = adv x -> before y x.
Proof.
  intros Hs. revert seen.
  induction Hs as [|r l Hs IH Hall]; intros seen Hx Hnx Hy E; [destruct Hx |].
  rewrite Forall_forall in Hall. simpl in Hnx, Hy.
  destruct (Nat.ltb_spec (seen_count (adv r) seen) n) as [Hlt | Hge].
  - destruct Hx as [-> | Hx]; [exfalso; apply Hnx; now left |].
    destruct Hy as [<- | Hy]; [now apply Hall |].
    apply (IH (adv r :: seen)); auto. intros H. apply Hnx. now right.
  - destruct Hx as [-> | Hx]; [| now apply (IH (adv r :: seen))].
    exfalso. apply (head_from_full n (adv x) l (adv x :: seen) y); auto.
    rewrite seen_count_cons_eq. lia.
Qed.

Lemma firstn_misses {A : Type} (n : nat) (x : A) (l : list A) :
  In x l -> ~ In x (firstn n l) -> n < List.length l.
Proof.
  intros Hx Hnx. destruct (Nat.lt_ge_cases n (List.length l)) as [H | H];
    [exact H |].
  rewrite firstn_all2 in Hnx by exact H. contradiction.
Qed.

Lemma head_leaves_out (before : R -> R -> Prop) (l : list R) (x : R) :
  StronglySorted before l ->
  In x l -> ~ In x (groupby_head adv 20 l) ->
  20 < List.length (filter (of_adv adv (adv x)) l) /\
  forall y, In y (groupby_head adv 20 l) -> adv y = adv x -> before y x.
Proof.
  intros Hs Hx Hnx. split.
  - apply (firstn_misses 20 x).
    + apply filter_In. split; [exact Hx | apply String.eqb_refl].
    + intros H.
      assert (H' : In x (filter (of_adv adv (adv x)) (groupby_head adv 20 l))).
      { unfold groupby_head. rewrite head_from_filter.
        unfold seen_count. simpl count_occ. now rewrite Nat.sub_0_r. }
      apply filter_In in H'. tauto.
  - intros y Hy E. eapply head_from_dropped; eauto.
Qed.

Lemma cumcount_covers (l : list R) (seen : list string) (v : R) :
  In v l -> exists n, In (v, n) (combine l (cumcount_from adv seen l)).
Proof.
  revert seen. induction l as [|r l IH]; intros seen; simpl; [tauto |].
  intros [-> | Hv].
  - eexists. left. reflexivity.
  - destruct (IH (adv r :: seen) Hv) as [n Hn]. exists n. now right.
Qed.
End HeadLeavesOut.

Lemma top_product_row_of (pvf : list ProductView) (v : ViewsRow) :
  In v (groupby_head vw_advertiser_id 20
          (sort_values views_leb
             (map (fun g => mkViews (fst (fst g)) (snd (fst g))
                                    (List.length (snd g)))
                  (groupby pv_key pvf)))) ->
  exists r, In r (calcular_top_product pvf) /\
            tp_advertiser_id r = vw_advertiser_id v /\
            tp_product_id r = vw_product_id v /\ tp_views r = vw_views v.
Proof.
  intros Hv. unfold calcular_top_product.
  destruct (cumcount_covers vw_advertiser_id _ [] v Hv) as [n Hn].
  eexists. split.
  - apply in_map_iff. exists (v, n). split; [reflexivity | exact Hn].
  - simpl. auto.
Qed.

(** X6.  TopProduct leaves a viewed product of an advertiser out only when
    the advertiser has more than 20 viewed products, and then every ranked
    product of that advertiser has at least as many views. *)
Theorem top_product_keeps_most_viewed (pvf : list ProductView) (a p : string) :
  In p (viewed_products a pvf) ->
  (forall r, In r (calcular_top_product pvf) ->
             ~ (tp_advertiser_id r = a /\ tp_product_id r = p)) ->
  20 < distinct (viewed_products a pvf) /\
  forall r, In r (calcular_top_product pvf) -> tp_advertiser_id r = a ->
            count_views a p pvf <= tp_views r.
Proof.
  intros Hp Hout.
  set (views := map (fun g => mkViews (fst (fst g)) (snd (fst g))
                                      (List.length (snd g)))
                    (groupby pv_key pvf)).
  set (g := mkViews a p (count_views a p pvf)).
  assert (Hg : In g (sort_values views_leb views)).
  { apply sort_values_In. unfold views. rewrite top_product_views_nf.
    apply in_map_iff. exists (a, p). split; [reflexivity |].
    apply group_keys_In. now apply viewed_products_In. }
  assert (Hng : ~ In g (groupby_head vw_advertiser_id 20
                          (sort_values views_leb views))).
  { intros H. destruct (top_product_row_of pvf g H) as [r [Hr [Ha [Hpr _]]]].
    apply (Hout r Hr). auto. }
  destruct (head_leaves_out vw_advertiser_id vw_before _ g
              (top_product_views_sorted pvf) Hg Hng) as [Hlen Hdom].
  split.
  - rewrite <- (top_product_groups a pvf). fold views.
    rewrite <- (perm_filter_length _ _ _ (sort_values_perm views_leb views)).
    exact Hlen.
  - intros r Hr Ha. unfold calcular_top_product in Hr. fold views in Hr.
    apply ranked_In in Hr. destruct Hr as [y [n [Hy ->]]]. simpl in *.
    destruct (Hdom y Hy Ha) as [Hlt | [_ [Hlt | [Heq _]]]].
    + simpl in Hlt. rewrite Ha in Hlt. now apply str_lt_irrefl in Hlt.
    + simpl in Hlt. lia.
    + simpl in Heq. lia.
Qed.

Lemma top_product_keeps_most_viewed_witness :
  20 < distinct (viewed_products "A1" crowded_product_views) /\
  forall r, In r (calcular_top_product crowded_product_views) ->
            tp_advertiser_id r = "A1" ->
            count_views "A1" "P21" crowded_product_views <= tp_views r.
Proof.
  apply (top_product_keeps_most_viewed crowded_product_views "A1" "P21").
  - vm_compute. tauto.
  - intros r Hr [_ Hp]. vm_compute in Hr.
    repeat (destruct Hr as [<- | Hr]; [discriminate Hp |]). exact Hr.
Defined.

Lemma top_ctr_row_of (avf : list AdView) (v : CtrRow) :
  In v (groupby_head cr_advertiser_id 20 (sort_values ctr_leb (ctr_rows avf))) ->
  exists r, In r (calcular_top_ctr avf) /\
            tc_advertiser_id r = cr_advertiser_id v /\
            tc_product_id r = cr_product_id v /\ tc_ctr r = cr_ctr v.
Proof.
  intros Hv. rewrite calcular_top_ctr_rows. unfold rank_top_ctr.
  destruct (cumcount_covers cr_advertiser_id _ [] v Hv) as [n Hn].
  eexists. split.
  - apply in_map_iff. exists (v, n). split; [reflexivity | exact Hn].
  - simpl. auto.
Qed.

Lemma group_totals (a p : string) (avf : list AdView) :
  group_impressions (a, p) avf = count_ads "impression" a p avf /\
  group_clicks (a, p) avf = count_ads "click" a p avf.
Proof.
  unfold group_impressions, group_clicks.
  split; apply sum_flag_count; reflexivity.
Qed.

Lemma ctr_rows_groups (a : string) (avf : list AdView) :
  List.length (filter (of_adv cr_advertiser_id a) (ctr_rows avf))
  = distinct (impressed_products a avf).
Proof. rewrite <- ctr_rows_agg. apply top_ctr_groups. Qed.

(** X7.  TopCTR leaves a product with an impression out only when its
    advertiser has more than 20 such products, and then every ranked product
    of that advertiser has at least its ctr. *)
Theorem top_ctr_keeps_best_ctr (avf : list AdView) (a p : string) :
  In p (impressed_products a avf) ->
  (forall r, In r (calcular_top_ctr avf) ->
             ~ (tc_advertiser_id r = a /\ tc_product_id r = p)) ->
  20 < distinct (impressed_products a avf) /\
  forall r, In r (calcular_top_ctr avf) -> tc_advertiser_id r = a ->
            (divide (count_ads "click" a p avf) (count_ads "impression" a p avf)
             <= tc_ctr r)%Q.
Proof.
  intros Hp Hout.
  destruct (group_totals a p avf) as [Hi Hc].
  set (g := mkCtr a p (group_impressions (a, p) avf) (group_clicks (a, p) avf)
                  (divide (group_clicks (a, p) avf)
                          (group_impressions (a, p) avf))).
  assert (Hg : In g (sort_values ctr_leb (ctr_rows avf))).
  { apply sort_values_In. unfold ctr_rows.
    apply in_map_iff. exists (a, p). split; [reflexivity |].
    apply impressed_products_In in Hp. destruct Hp as [Hk Hpos].
    apply filter_In. split; [now apply group_keys_In | exact Hpos]. }
  assert (Hng : ~ In g (groupby_head cr_advertiser_id 20
                          (sort_values ctr_leb (ctr_rows avf)))).
  { intros H. destruct (top_ctr_row_of avf g H) as [r [Hr [Ha [Hpr _]]]].
    apply (Hout r Hr). auto. }
  destruct (head_leaves_out cr_advertiser_id cr_before _ g
              (sorted_ctr_rows avf) Hg Hng) as [Hlen Hdom].
  split.
  - rewrite <- (ctr_rows_groups a avf).
    rewrite <- (perm_filter_length _ _ _ (sort_values_perm ctr_leb (ctr_rows avf))).
    exact Hlen.
  - intros r Hr Ha. rewrite calcular_top_ctr_rows in Hr.
    unfold rank_top_ctr in Hr.
    apply ranked_In in Hr. destruct Hr as [y [n [Hy ->]]].
    cbn [tc_ctr tc_advertiser_id fst snd] in *. rewrite <- Hi, <- Hc.
    destruct (Hdom y Hy Ha) as [Hlt | [_ [Hlt | [Heq _]]]];
      unfold g in *; cbn [cr_advertiser_id cr_ctr] in *.
    + rewrite Ha in Hlt. now apply str_lt_irrefl in Hlt.
    + now apply Qlt_le_weak.
    + rewrite Heq. apply Qle_refl.
Qed.

Lemma top_ctr_keeps_best_ctr_witness :
  20 < distinct (impressed_products "A1" crowded_ads_views) /\
  forall r, In r (calcular_top_ctr crowded_ads_views) ->
            tc_advertiser_id r = "A1" ->
            (divide (count_ads "click" "A1" "P21" crowded_ads_views)
                    (count_ads "impression" "A1" "P21" crowded_ads_views)
             <= tc_ctr r)%Q.
Proof.
  apply (top_ctr_keeps_best_ctr crowded_ads_views "A1" "P21").
  - vm_compute. tauto.
  - intros r Hr [_ Hp]. vm_compute in Hr.
    repeat (destruct Hr as [<- | Hr]; [discriminate Hp |]). exact Hr.
Defined.

(** *** One stored row per advertiser, model and product *)

Lemma head_from_NoDup_map {R B : Type} (adv : R -> string) (f : R -> B)
    (n : nat) (l : list R) (seen : list string) :
  NoDup (map f l) -> NoDup (map f (head_from adv n seen l)).
Proof.
  revert seen. induction l as [|r l IH]; intros seen Hnd; simpl; [constructor |].
  inversion Hnd as [|? ? Hnotin Hnd']; subst.
  destruct (seen_count (adv r) seen <? n); [| now apply IH].
  simpl. constructor; [| now apply IH].
  intros H. apply Hnotin. apply in_map_iff in H.
  destruct H as [x [Hx Hin]]. apply in_map_iff. exists x.
  split; [exact Hx | eapply head_from_In; eauto].
Qed.

Lemma map_combine_fst {A B C : Type} (g : A -> C) (l : list A) (l2 : list B) :
  List.length l2 = List.length l ->
  map (fun p => g (fst p)) (combine l l2) = map g l.
Proof.
  revert l2. induction l as [|x l IH]; intros [|y l2] H; simpl in *;
    try discriminate; [reflexivity |].
  f_equal. apply IH. congruence.
Qed.

Lemma group_keys_NoDup (ks : list key) : NoDup (group_keys ks).
Proof.
  apply StronglySorted_NoDup with (before := key_before).
  - exact key_before_irrefl.
  - apply group_keys_sorted.
Qed.

Lemma top_product_keys_NoDup (pvf : list ProductView) :
  NoDup (map (fun r => (tp_advertiser_id r, tp_product_id r))
             (calcular_top_product pvf)).
Proof.
  unfold calcular_top_product. rewrite map_map.
  rewrite (map_ext _ (fun p => vw_key (fst p))) by (intros [v n]; reflexivity).
  rewrite (map_combine_fst vw_key)
    by (unfold cumcount; apply cumcount_from_length).
  apply head_from_NoDup_map.
  apply (Permutation_NoDup
           (Permutation_map vw_key
              (Permutation_sym (sort_values_perm views_leb _)))).
  rewrite top_product_views_nf, map_map. cbn [vw_key vw_advertiser_id vw_product_id].
  rewrite (map_ext _ (fun k => k)) by (intros [a p]; reflexivity).
  rewrite map_id. apply group_keys_NoDup.
Qed.

Lemma top_ctr_keys_NoDup (avf : list AdView) :
  NoDup (map (fun r => (tc_advertiser_id r, tc_product_id r))
             (calcular_top_ctr avf)).
Proof.
  rewrite calcular_top_ctr_rows. unfold rank_top_ctr. rewrite map_map.
  rewrite (map_ext _ (fun p => cr_key (fst p))) by (intros [v n]; reflexivity).
  rewrite (map_combine_fst cr_key)
    by (unfold cumcount; apply cumcount_from_length).
  apply head_from_NoDup_map.
  apply (Permutation_NoDup
           (Permutation_map cr_key
              (Permutation_sym (sort_values_perm ctr_leb _)))).
  unfold ctr_rows. rewrite map_map. cbn [cr_key cr_advertiser_id cr_product_id].
  rewrite (map_ext _ (fun k => k)) by (intros [a p]; reflexivity).
  rewrite map_id. apply NoDup_filter, group_keys_NoDup.
Qed.

(** X8.  The rows DBWriting inserts for a run hold every (advertiser_id,
    model, product_id) at most once. *)
Theorem recommendations_keys_unique (ds : string) (pvf : list ProductView)
    (avf : list AdView) :
  NoDup (map record_key
           (recommendations ds (calcular_top_product pvf)
                               (calcular_top_ctr avf))).
Proof.
  rewrite recommendations_records, map_app, !map_map.
  unfold record_key, top_product_record, top_ctr_record.
  cbn [advertiser_id model product_id].
  apply NoDup_app.
  - rewrite (map_ext_in _ (fun r => (tp_advertiser_id r, "top_product",
                                     tp_product_id r)))
      by (intros r Hr; cbv beta; now rewrite (top_product_model _ _ Hr)).
    rewrite <- (map_map (fun r => (tp_advertiser_id r, tp_product_id r))
                        (fun k => (fst k, "top_product", snd k))).
    apply NoDup_map_NoDup_ForallPairs; [| apply top_product_keys_NoDup].
    intros [a p] [a' p'] _ _ H. simpl in H. congruence.
  - rewrite (map_ext_in _ (fun r => (tc_advertiser_id r, "top_ctr",
                                     tc_product_id r)))
      by (intros r Hr; cbv beta; now rewrite (top_ctr_model _ _ Hr)).
    rewrite <- (map_map (fun r => (tc_advertiser_id r, tc_product_id r))
                        (fun k => (fst k, "top_ctr", snd k))).
    apply NoDup_map_NoDup_ForallPairs; [| apply top_ctr_keys_NoDup].
    intros [a p] [a' p'] _ _ H. simpl in H. congruence.
  - intros k H1 H2. apply in_map_iff in H1. destruct H1 as [r1 [<- Hr1]].
    apply in_map_iff in H2. destruct H2 as [r2 [E Hr2]].
    rewrite (top_product_model _ _ Hr1), (top_ctr_model _ _ Hr2) in E.
    discriminate.
Qed.

(** *** Advertisers outside the registry *)

(** X9.  Every row of either ranking of a run belongs to an advertiser of the
    registry: an advertiser that is not registered gets no recommendation. *)
Theorem rankings_only_for_registered (advertisers : list cell)
    (product_views : list ProductView) (ads_views : list AdView) :
  (forall r, In r (dag_top_product advertisers product_views ads_views) ->
             In (Some (tp_advertiser_id r)) advertisers) /\
  (forall r, In r (dag_top_ctr advertisers product_views ads_views) ->
             In (Some (tc_advertiser_id r)) advertisers).
Proof.
  split; intros r Hr.
  - apply top_product_row_origin in Hr. destruct Hr as [Hv Hpos].
    rewrite Hv in Hpos. unfold count_views in Hpos.
    apply filter_inhabited in Hpos. destruct Hpos as [v [Hin Hf]].
    apply (filtered_In pv_advertiser_id) in Hin. destruct Hin as [_ Hin].
    apply andb_true_iff in Hf. destruct Hf as [Ha _].
    apply cell_eqb_eq in Ha. now rewrite <- Ha.
  - apply top_ctr_row_origin in Hr. destruct Hr as [Hi [_ [Hpos _]]].
    rewrite Hi in Hpos. unfold count_ads in Hpos.
    apply filter_inhabited in Hpos. destruct Hpos as [v [Hin Hf]].
    apply (filtered_In av_advertiser_id) in Hin. destruct Hin as [_ Hin].
    apply andb_true_iff in Hf. destruct Hf as [Hf _].
    apply andb_true_iff in Hf. destruct Hf as [Ha _].
    apply cell_eqb_eq in Ha. now rewrite <- Ha.
Qed.

(** *** FiltrarDatos and the registry *)

Lemma isin_same (c : cell) (l l' : list cell) :
  (forall x, In x l <-> In x l') -> isin c l = isin c l'.
Proof.
  intros H. destruct (isin c l') eqn:E.
  - apply isin_In. apply H. now apply isin_In.
  - destruct (isin c l) eqn:E'; [| reflexivity].
    apply (proj1 (isin_In _ _)) in E'. apply H in E'.
    apply (proj2 (isin_In _ _)) in E'. congruence.
Qed.

(** X10.  Only the set of advertiser_id values of the registry matters to
    FiltrarDatos: repeated or reordered registry rows give the same filtered
    logs. *)
Theorem filtrar_datos_registry_set (advertisers advertisers' : list cell)
    (product_views : list ProductView) (ads_views : list AdView) :
  (forall c, In c advertisers <-> In c advertisers') ->
  filtrar_datos advertisers product_views ads_views
  = filtrar_datos advertisers' product_views ads_views.
Proof.
  intros H. unfold filtrar_datos. f_equal; apply filter_ext; intros r;
    rewrite !isin_unique; now apply isin_same.
Qed.

Lemma filtrar_datos_registry_set_witness :
  filtrar_datos [Some "A1"; Some "A2"; Some "A1"] example_product_views
                example_ads_views
  = filtrar_datos [Some "A2"; Some "A1"] example_product_views
                  example_ads_views.
Proof.
  apply (filtrar_datos_registry_set [Some "A1"; Some "A2"; Some "A1"]
           [Some "A2"; Some "A1"] example_product_views example_ads_views).
  intros c. simpl. tauto.
Defined.

(** X11.  Filtering filtered logs again with the same registry changes
    nothing. *)
Theorem filtrar_datos_idempotent (advertisers : list cell)
    (product_views : list ProductView) (ads_views : list AdView) :
  filtrar_datos advertisers
    (fst (filtrar_datos advertisers product_views ads_views))
    (snd (filtrar_datos advertisers product_views ads_views))
  = filtrar_datos advertisers product_views ads_views.
Proof.
  unfold filtrar_datos. cbn [fst snd]. rewrite !filter_filter_and.
  f_equal; apply filter_ext; intros r; apply andb_diag.
Qed.

(** *** A run without active advertisers *)

(** X12.  With an empty registry a run inserts nothing: when none of its
    three database calls (connect, DELETE, COMMIT) raises it leaves only the
    rows of the other dates, and when one raises it leaves the store as it
    was. *)
Theorem empty_registry_run (ds : string) (product_views : list ProductView)
    (ads_views : list AdView) (db : Table) (fs : list bool) :
  if any_fault 3 fs
  then run_outcome ds [] product_views ads_views db fs = Raised /\
       store_after ds [] product_views ads_views db fs = db
  else run_outcome ds [] product_views ads_views db fs = Returned tt /\
       store_after ds [] product_views ads_views db fs = other_dates ds db.
Proof.
  unfold run_outcome, store_after. rewrite pipeline_db_writing.
  assert (Htp : dag_top_product [] product_views ads_views = []).
  { unfold dag_top_product, filtrar_datos. cbn [fst unique unique_from].
    now rewrite filter_none by reflexivity. }
  assert (Htc : dag_top_ctr [] product_views ads_views = []).
  { unfold dag_top_ctr, filtrar_datos. cbn [snd unique unique_from].
    now rewrite filter_none by reflexivity. }
  rewrite Htp, Htc.
  destruct (db_writing_run ds [] [] db fs) as [Hok Hfail].
  change (db_calls (recommendations ds [] [])) with 3 in Hok, Hfail.
  destruct (any_fault 3 fs).
  - destruct (Hfail eq_refl) as [c [-> Hc]]. auto.
  - destruct (Hok eq_refl) as [c [-> Hc]]. cbn [fst snd].
    rewrite Hc. change (recommendations ds [] []) with (@nil RankingRecord).
    now rewrite app_nil_r.
Qed.

(** ** Further properties of the read services *)

(** *** The latest date of an advertiser and model *)











(** *** Serving what a run has stored *)








(** ** Properties of the statistics of main.py *)

Import MainStats.

Lemma overlap_of_entry (kv : string * models) (o : Overlap) :
  In o (overlap_of kv) ->
  fst (snd kv) <> [] /\ snd (snd kv) <> [] /\
  ov_advertiser_id o = fst kv /\
  intersection_size o
  = List.length (intersection (fst (snd kv)) (snd (snd kv))) /\
  union_size o = List.length (union (fst (snd kv)) (snd (snd kv))) /\
  1 <= union_size o /\
  jaccard o = divide (intersection_size o) (union_size o).
Proof.
  destruct kv as [k [tp tc]]. unfold overlap_of. cbn [fst snd].
  destruct tp as [|x tp]; [intros [] |].
  destruct tc as [|y tc]; [intros [] |].
  intros [<- | []]. cbn [ov_advertiser_id intersection_size union_size jaccard].
  repeat split; try discriminate; try reflexivity;
    unfold union; cbn [app List.length]; lia.
Qed.

Lemma intersection_le_union (tp tc : list string) :
  List.length (intersection tp tc) <= List.length (union tp tc).
Proof.
  unfold intersection, union. rewrite length_app.
  pose proof (filter_length_le (fun x => set_mem x tc) tp). lia.
Qed.

(** X16.  Every entry of [overlaps] in [get_stats] has a non-empty union, so
    the division is defined and the 0.0 fallback is never taken; its
    intersection is no larger than its union, and its jaccard is
    intersection_size / union_size, a value between 0 and 1. *)
Theorem overlaps_bounds (rows : list (string * string * string)) (o : Overlap) :
  In o (overlaps_of (adv_models rows)) ->
  intersection_size o <= union_size o /\
  1 <= union_size o /\
  (jaccard o == inject_Z (Z.of_nat (intersection_size o))
                / inject_Z (Z.of_nat (union_size o)))%Q /\
  (0 <= jaccard o)%Q /\ (jaccard o <= 1)%Q.
Proof.
  unfold overlaps_of. intros H. apply in_flat_map in H.
  destruct H as [kv [_ Ho]]. apply overlap_of_entry in Ho.
  destruct Ho as [_ [_ [_ [Hi [Hu [Hpos Hj]]]]]].
  assert (Hle : intersection_size o <= union_size o)
    by (rewrite Hi, Hu; apply intersection_le_union).
  repeat split; try assumption.
  - rewrite Hj. now apply divide_quotient.
  - rewrite Hj. apply divide_nonneg.
  - rewrite Hj. now apply divide_le_1.
Qed.

Lemma overlaps_bounds_witness :
  let o := mkOverlap "A1" 1 2 (1 # 2) in
  intersection_size o <= union_size o /\
  1 <= union_size o /\
  (jaccard o == inject_Z (Z.of_nat (intersection_size o))
                / inject_Z (Z.of_nat (union_size o)))%Q /\
  (0 <= jaccard o)%Q /\ (jaccard o <= 1)%Q.
Proof.
  apply (overlaps_bounds
           [("A1", "top_product", "P1"); ("A1", "top_ctr", "P1");
            ("A1", "top_ctr", "P2")]
           (mkOverlap "A1" 1 2 (1 # 2))).
  vm_compute. left. reflexivity.
Defined.

Lemma inject_succ (n : nat) :
  (inject_Z (Z.of_nat (S n)) == inject_Z (Z.of_nat n) + 1)%Q.
Proof. rewrite Nat2Z.inj_succ, <- Z.add_1_r, inject_Z_plus. reflexivity. Qed.

Lemma jaccard_sum_bounds (l : list Overlap) (acc : Q) :
  (forall o, In o l -> (0 <= jaccard o)%Q /\ (jaccard o <= 1)%Q) ->
  (acc <= fold_left (fun a o => a + jaccard o) l acc)%Q /\
  (fold_left (fun a o => a + jaccard o) l acc
   <= acc + inject_Z (Z.of_nat (List.length l)))%Q.
Proof.
  revert acc. induction l as [|o l IH]; intros acc H.
  - cbn [fold_left List.length Z.of_nat].
    change (inject_Z 0) with 0%Q. split; lra.
  - cbn [fold_left List.length].
    pose proof (inject_succ (List.length l)) as Hs.
    destruct (H o (or_introl eq_refl)) as [H0 H1].
    destruct (IH (acc + jaccard o)%Q) as [Hlo Hhi].
    + intros x Hx. apply H. now right.
    + split; lra.
Qed.

(** X17.  [avg_jaccard_top_product_vs_top_ctr] of [get_stats] lies between 0
    and 1, and is 0 when no advertiser has both models. *)
Theorem avg_jaccard_bounds (rows : list (string * string * string)) :
  (0 <= avg_jaccard (overlaps_of (adv_models rows)))%Q /\
  (avg_jaccard (overlaps_of (adv_models rows)) <= 1)%Q /\
  (overlaps_of (adv_models rows) = [] ->
   avg_jaccard (overlaps_of (adv_models rows)) = 0%Q).
Proof.
  assert (Hb : forall o, In o (overlaps_of (adv_models rows)) ->
                         (0 <= jaccard o)%Q /\ (jaccard o <= 1)%Q).
  { intros o Ho. unfold overlaps_of in Ho. apply in_flat_map in Ho.
    destruct Ho as [kv [_ Ho]]. apply overlap_of_entry in Ho.
    destruct Ho as [_ [_ [_ [Hi [Hu [Hpos Hj]]]]]]. rewrite Hj. split.
    - apply divide_nonneg.
    - apply divide_le_1; [lia |]. rewrite Hi, Hu.
      apply intersection_le_union. }
  destruct (overlaps_of (adv_models rows)) as [|o l] eqn:E.
  - simpl. repeat split; try reflexivity; lra.
  - unfold avg_jaccard.
    destruct (jaccard_sum_bounds (o :: l) 0 Hb) as [Hlo Hhi].
    assert (Hn : (0 < inject_Z (Z.of_nat (List.length (o :: l))))%Q).
    { change 0%Q with (inject_Z 0). rewrite <- Zlt_Qlt.
      cbn [List.length]. lia. }
    split; [| split; [| discriminate]].
    + apply Qle_shift_div_l; [exact Hn | lra].
    + apply Qle_shift_div_r; [exact Hn | lra].
Qed.

(** *** The two top-5 lists *)

Lemma sorted_app_inv {A : Type} (before : A -> A -> Prop) (l1 l2 : list A) :
  StronglySorted before (l1 ++ l2) ->
  StronglySorted before l1 /\ StronglySorted before l2 /\
  forall x y, In x l1 -> In y l2 -> before x y.
Proof.
  induction l1 as [|a l1 IH]; simpl; intros H.
  - repeat split; [constructor | exact H | intros x y []].
  - inversion H as [|? ? Hs Hall]; subst.
    destruct (IH Hs) as [H1 [H2 H12]]. rewrite Forall_forall in Hall.
    repeat split; [| exact H2 |].
    + constructor; [exact H1 |]. apply Forall_forall. intros z Hz.
      apply Hall. apply in_or_app. now left.
    + intros x y [<- | Hx] Hy; [| now apply H12].
      apply Hall. apply in_or_app. now right.
Qed.

Lemma sorted_rev {A : Type} (before : A -> A -> Prop) (l : list A) :
  StronglySorted before l -> StronglySorted (fun x y => before y x) (rev l).
Proof.
  induction 1 as [|a l Hs IH Hall]; simpl; [constructor |].
  rewrite Forall_forall in Hall.
  assert (G : forall l1 : list A,
             StronglySorted (fun x y => before y x) l1 ->
             (forall z, In z l1 -> before a z) ->
             StronglySorted (fun x y => before y x) (l1 ++ [a])).
  { induction l1 as [|b l1 IH1]; simpl; intros H1 H2.
    - repeat constructor.
    - inversion H1 as [|? ? Hs1 Hall1]; subst. constructor.
      + apply IH1; [exact Hs1 | intros z Hz; apply H2; now right].
      + apply Forall_forall. intros z Hz. apply in_app_or in Hz.
        rewrite Forall_forall in Hall1.
        destruct Hz as [Hz | [<- | []]]; [now apply Hall1 |].
        apply H2. now left. }
  apply G; [exact IH |]. intros z Hz. apply Hall. now apply in_rev.
Qed.

Lemma overlaps_sorted_desc (overlaps : list Overlap) :
  StronglySorted (fun x y => (jaccard y <= jaccard x)%Q)
                 (overlaps_sorted overlaps).
Proof.
  unfold overlaps_sorted.
  apply sort_values_sorted with (before0 := fun _ _ => True).
  - intros x y H _. now apply Qle_bool_iff.
  - intros x y H. apply Qlt_le_weak. now apply Qle_bool_false.
  - intros x y z H1 H2. apply Qle_bool_iff. apply Qle_bool_iff in H1.
    eapply Qle_trans; eauto.
  - induction overlaps; constructor; [assumption |].
    apply Forall_forall. auto.
Qed.

Lemma overlaps_sorted_In (overlaps : list Overlap) (o : Overlap) :
  In o (overlaps_sorted overlaps) <-> In o overlaps.
Proof. apply sort_values_In. Qed.

Lemma overlaps_sorted_length (overlaps : list Overlap) :
  List.length (overlaps_sorted overlaps) = List.length overlaps.
Proof. apply Permutation_length, sort_values_perm. Qed.

(** X18.  [top_5_advertisers_mas_similares] holds min(5, n) entries in
    descending jaccard and [top_5_advertisers_menos_similares] holds
    min(5, n) entries in ascending jaccard; no entry outside the first list
    has a greater jaccard than one inside, none outside the second has a
    smaller one, and with at most five entries the second list is the first
    one reversed. *)
Theorem top_5_lists (overlaps : list Overlap) :
  List.length (top_5_mas_similares overlaps)
  = Nat.min 5 (List.length overlaps) /\
  List.length (top_5_menos_similares overlaps)
  = Nat.min 5 (List.length overlaps) /\
  StronglySorted (fun x y => (jaccard y <= jaccard x)%Q)
                 (top_5_mas_similares overlaps) /\
  StronglySorted (fun x y => (jaccard x <= jaccard y)%Q)
                 (top_5_menos_similares overlaps) /\
  (forall x o, In x (top_5_mas_similares overlaps) -> In o overlaps ->
               ~ In o (top_5_mas_similares overlaps) ->
               (jaccard o <= jaccard x)%Q) /\
  (forall x o, In x (top_5_menos_similares overlaps) -> In o overlaps ->
               ~ In o (top_5_menos_similares overlaps) ->
               (jaccard x <= jaccard o)%Q) /\
  (List.length overlaps <= 5 ->
   top_5_menos_similares overlaps = rev (top_5_mas_similares overlaps)).
Proof.
  unfold top_5_mas_similares, top_5_menos_similares, last_n.
  set (l := overlaps_sorted overlaps).
  assert (Hlen : List.length l = List.length overlaps)
    by apply overlaps_sorted_length.
  set (k := List.length l - 5).
  pose proof (overlaps_sorted_desc overlaps) as Hs. fold l in Hs.
  assert (H5 : StronglySorted (fun x y => (jaccard y <= jaccard x)%Q)
                 (firstn 5 l ++ skipn 5 l)) by now rewrite firstn_skipn.
  assert (Hk : StronglySorted (fun x y => (jaccard y <= jaccard x)%Q)
                 (firstn k l ++ skipn k l)) by now rewrite firstn_skipn.
  apply sorted_app_inv in H5. destruct H5 as [H5a [_ H5c]].
  apply sorted_app_inv in Hk. destruct Hk as [_ [Hkb Hkc]].
  assert (Hmem : forall n o, In o overlaps -> ~ In o (firstn n l) ->
                             In o (skipn n l)).
  { intros n o Ho Hn. apply overlaps_sorted_In in Ho. fold l in Ho.
    rewrite <- (firstn_skipn n l) in Ho. apply in_app_or in Ho. tauto. }
  assert (Hmem' : forall n o, In o overlaps -> ~ In o (skipn n l) ->
                              In o (firstn n l)).
  { intros n o Ho Hn. apply overlaps_sorted_In in Ho. fold l in Ho.
    rewrite <- (firstn_skipn n l) in Ho. apply in_app_or in Ho. tauto. }
  split; [rewrite length_firstn; lia |].
  split; [rewrite length_rev, length_skipn; unfold k; lia |].
  split; [exact H5a |].
  split; [exact (sorted_rev _ _ Hkb) |].
  split; [intros x o Hx Ho Hno; apply H5c; auto |].
  split.
  - intros x o Hx Ho Hno. apply in_rev in Hx. apply Hkc; [| exact Hx].
    apply Hmem'; [exact Ho |]. intros H. apply Hno. now apply in_rev in H.
  - intros Hle. unfold k. replace (List.length l - 5) with 0 by lia.
    rewrite firstn_all2 by lia. reflexivity.
Qed.

(** *** The dict of advertisers and the sizes it yields *)

Lemma set_mem_In (x : string) (l : list string) :
  set_mem x l = true <-> In x l.
Proof.
  unfold set_mem. rewrite existsb_exists. split.
  - intros [y [Hy E]]. apply String.eqb_eq in E. now subst.
  - intros H. exists x. split; [exact H | apply String.eqb_refl].
Qed.

Lemma set_add_In (x y : string) (l : list string) :
  In y (set_add x l) <-> y = x \/ In y l.
Proof.
  unfold set_add. destruct (set_mem x l) eqn:E.
  - apply set_mem_In in E. split; [auto | intros [-> | H]; auto].
  - rewrite in_app_iff. simpl. intuition.
Qed.

Lemma set_add_NoDup (x : string) (l : list string) :
  NoDup l -> NoDup (set_add x l).
Proof.
  intros H. unfold set_add. destruct (set_mem x l) eqn:E; [exact H |].
  apply NoDup_app; [exact H | repeat constructor; intros [] |].
  intros a Ha [<- | []]. apply set_mem_In in Ha. congruence.
Qed.

Lemma dict_has_In (k : string) (d : list (string * models)) :
  dict_has k d = true <-> In k (map fst d).
Proof.
  unfold dict_has. rewrite existsb_exists, in_map_iff. split.
  - intros [kv [H E]]. apply String.eqb_eq in E. exists kv. auto.
  - intros [kv [E H]]. exists kv. split; [exact H |].
    now apply String.eqb_eq.
Qed.

Lemma dict_update_keys (k : string) (f : models -> models)
    (d : list (string * models)) :
  map fst (dict_update k f d) = map fst d.
Proof.
  induction d as [|[k' v] d IH]; simpl; [reflexivity |].
  destruct (String.eqb k' k); simpl; congruence.
Qed.

Lemma dict_update_In (k k' : string) (f : models -> models) (v' : models)
    (d : list (string * models)) :
  NoDup (map fst d) ->
  (In (k', v') (dict_update k f d) <->
   (k' <> k /\ In (k', v') d) \/
   (k' = k /\ exists v, In (k, v) d /\ v' = f v)).
Proof.
  induction d as [|[k0 v0] d IH]; simpl; intros Hnd.
  - split; [tauto | intros [[_ []] | [_ [v [[] _]]]]].
  - inversion Hnd as [|? ? Hnotin Hnd']; subst.
    destruct (String.eqb_spec k0 k) as [-> | Hne]; simpl.
    + split.
      * intros [E | H].
        -- inversion E; subst. right. split; [reflexivity |].
           exists v0. auto.
        -- left. split; [| now right].
           intros ->. apply Hnotin. apply in_map_iff. exists (k, v'). auto.
      * intros [[Hk [E | H]] | [-> [v [[E | H] ->]]]].
        -- inversion E; subst. congruence.
        -- now right.
        -- inversion E; subst. now left.
        -- exfalso. apply Hnotin. apply in_map_iff. exists (k, v). auto.
    + rewrite (IH Hnd'). split.
      * intros [E | [[Hk H] | [-> [v [H ->]]]]].
        -- inversion E; subst. left. split; [exact Hne | now left].
        -- left. split; [exact Hk | now right].
        -- right. split; [reflexivity |]. exists v. split; [now right | reflexivity].
      * intros [[Hk [E | H]] | [-> [v [[E | H] ->]]]].
        -- now left.
        -- right. left. auto.
        -- inversion E; subst. congruence.
        -- right. right. split; [reflexivity |]. exists v. auto.
Qed.

Lemma dict_of_nil : dict_of [] [].
Proof.
  split; [constructor |]. split.
  - intros k. simpl. split; [tauto | intros [m [p []]]].
  - intros k tp tc [].
Qed.

Lemma dict_of_new_key (d : list (string * models))
    (l : list (string * string * string)) (a : string) :
  dict_of d l ->
  let d1 := if dict_has a d then d else d ++ [(a, ([], []))] in
  NoDup (map fst d1) /\
  (forall k, In k (map fst d1) <-> k = a \/ exists m p, In (k, m, p) l) /\
  (exists v, In (a, v) d1) /\
  (forall k tp tc, In (k, (tp, tc)) d1 ->
     NoDup tp /\ NoDup tc /\
     (forall p, In p tp <-> In (k, "top_product", p) l) /\
     (forall p, In p tc <-> In (k, "top_ctr", p) l)).
Proof.
  intros [Hnd [Hkeys Hsets]]. destruct (dict_has a d) eqn:E; cbv zeta.
  - apply dict_has_In in E. repeat split; auto.
    + intros H. right. now apply Hkeys.
    + intros [-> | H]; [exact E | now apply Hkeys].
    + apply in_map_iff in E. destruct E as [[k v] [Hk Hin]].
      simpl in Hk. subst. now exists v.
    + now apply (Hsets k tp tc).
    + now apply (Hsets k tp tc).
    + now apply (Hsets k tp tc).
    + now apply (Hsets k tp tc).
    + now apply (Hsets k tp tc).
    + now apply (Hsets k tp tc).
  - assert (Ha : ~ In a (map fst d)).
    { intros H. apply dict_has_In in H. congruence. }
    assert (Hrows : forall m p, ~ In (a, m, p) l).
    { intros m p H. apply Ha. apply Hkeys. eauto. }
    split; [| split; [| split]].
    + rewrite map_app. apply NoDup_app; [exact Hnd | repeat constructor; intros [] |].
      intros k Hk [<- | []]. contradiction.
    + intros k. rewrite map_app, in_app_iff, Hkeys. simpl. intuition.
    + exists ([], []). apply in_or_app. right. now left.
    + intros k tp tc H. apply in_app_or in H.
      destruct H as [H | [Enew | []]]; [now apply Hsets |].
      inversion Enew; subst. repeat split; try constructor;
        intros H;
        first [exact (match H with end) | exfalso; eapply Hrows; exact H].
Qed.

Lemma dict_of_add_row (d : list (string * models))
    (l : list (string * string * string)) (row : string * string * string) :
  dict_of d l -> dict_of (add_row d row) (l ++ [row]).
Proof.
  intros Hd. destruct row as [[a m] p]. unfold add_row. cbn [fst snd].
  destruct (dict_of_new_key d l a Hd) as [Hnd [Hkeys [[va Hva] Hsets]]].
  set (d1 := if dict_has a d then d else d ++ [(a, ([], []))]) in *.
  assert (Hkeys' : forall k, k = a \/ (exists m0 p0, In (k, m0, p0) l) <->
                             exists m0 p0, In (k, m0, p0) (l ++ [(a, m, p)])).
  { intros k. split.
    - intros [-> | [m0 [p0 H]]].
      + exists m, p. apply in_or_app. right. now left.
      + exists m0, p0. apply in_or_app. now left.
    - intros [m0 [p0 H]]. apply in_app_or in H.
      destruct H as [H | [E | []]]; [right; eauto |].
      inversion E. now left. }
  assert (Hold : forall k m0 p0,
             In (k, m0, p0) (l ++ [(a, m, p)]) <->
             In (k, m0, p0) l \/ (k = a /\ m0 = m /\ p0 = p)).
  { intros k m0 p0. rewrite in_app_iff. simpl. split.
    - intros [H | [E | []]]; [now left |]. inversion E. auto.
    - intros [H | [-> [-> ->]]]; auto. }
  destruct (String.eqb m "top_product" || String.eqb m "top_ctr") eqn:Ev.
  - split; [now rewrite dict_update_keys |].
    split; [intros k; rewrite dict_update_keys, Hkeys; apply Hkeys' |].
    intros k tp tc Hin. apply (dict_update_In _ _ _ _ _ Hnd) in Hin.
    destruct Hin as [[Hk Hin] | [-> [[tp0 tc0] [Hin E]]]].
    + destruct (Hsets k tp tc Hin) as [H1 [H2 [H3 H4]]].
      repeat split; auto; intros H.
      * apply Hold. left. now apply H3.
      * apply Hold in H. destruct H as [H | [E _]]; [now apply H3 | contradiction].
      * apply Hold. left. now apply H4.
      * apply Hold in H. destruct H as [H | [E _]]; [now apply H4 | contradiction].
    + destruct (Hsets a tp0 tc0 Hin) as [H1 [H2 [H3 H4]]].
      cbn [fst snd] in E.
      destruct (String.eqb_spec m "top_product") as [-> | Hm].
      * inversion E; subst.
        split; [now apply set_add_NoDup |]. split; [exact H2 |].
        split; intros p0; rewrite Hold.
        -- rewrite set_add_In, H3. intuition.
        -- rewrite H4. split; [auto | intros [H | [_ [H _]]]; [exact H | discriminate]].
      * simpl in Ev. apply String.eqb_eq in Ev. subst m.
        inversion E; subst.
        split; [exact H1 |]. split; [now apply set_add_NoDup |].
        split; intros p0; rewrite Hold.
        -- rewrite H3. split; [auto | intros [H | [_ [H _]]]; [exact H | discriminate]].
        -- rewrite set_add_In, H4. intuition.
  - apply orb_false_iff in Ev. destruct Ev as [E1 E2].
    apply String.eqb_neq in E1, E2.
    split; [exact Hnd |].
    split; [intros k; rewrite Hkeys; apply Hkeys' |].
    intros k tp tc Hin. destruct (Hsets k tp tc Hin) as [H1 [H2 [H3 H4]]].
    repeat split; auto; intros H.
    + apply Hold. left. now apply H3.
    + apply Hold in H. destruct H as [H | [_ [E _]]]; [now apply H3 | congruence].
    + apply Hold. left. now apply H4.
    + apply Hold in H. destruct H as [H | [_ [E _]]]; [now apply H4 | congruence].
Qed.

Lemma dict_of_fold (rows l : list (string * string * string))
    (d : list (string * models)) :
  dict_of d l -> dict_of (fold_left add_row rows d) (l ++ rows).
Proof.
  revert d l. induction rows as [|row rows IH]; intros d l H; simpl.
  - now rewrite app_nil_r.
  - replace (l ++ row :: rows) with ((l ++ [row]) ++ rows)
      by (rewrite <- app_assoc; reflexivity).
    apply IH. now apply dict_of_add_row.
Qed.

Lemma adv_models_dict (rows : list (string * string * string)) :
  dict_of (adv_models rows) rows.
Proof. exact (dict_of_fold rows [] [] dict_of_nil). Qed.

Lemma products_of_In (adv m p : string) (rows : list (string * string * string)) :
  In p (products_of adv m rows) <-> In (adv, m, p) rows.
Proof.
  unfold products_of. rewrite in_map_iff. split.
  - intros [[[a m0] p0] [Hp H]]. apply filter_In in H. destruct H as [H E].
    simpl in *. apply andb_true_iff in E. destruct E as [Ea Em].
    apply String.eqb_eq in Ea, Em. now subst.
  - intros H. exists (adv, m, p). split; [reflexivity |].
    apply filter_In. split; [exact H |]. simpl. now rewrite !String.eqb_refl.
Qed.

Lemma same_elements_length (l1 l2 : list string) :
  NoDup l1 -> (forall x, In x l1 <-> In x l2) -> List.length l1 = distinct l2.
Proof.
  intros Hnd H. unfold distinct. apply Permutation_length.
  apply NoDup_Permutation; [exact Hnd | apply NoDup_nodup |].
  intros x. now rewrite nodup_In.
Qed.

Lemma overlaps_of_In (d : list (string * models)) (o : Overlap) :
  In o (overlaps_of d) <-> exists kv, In kv d /\ In o (overlap_of kv).
Proof. unfold overlaps_of. apply in_flat_map. Qed.

Lemma overlaps_of_advertisers (d : list (string * models)) :
  NoDup (map fst d) -> NoDup (map ov_advertiser_id (overlaps_of d)).
Proof.
  induction d as [|kv d IH]; simpl; intros Hnd; [constructor |].
  inversion Hnd as [|? ? Hnotin Hnd']; subst.
  rewrite map_app. apply NoDup_app; [| now apply IH |].
  - destruct kv as [k [[|x tp] [|y tc]]]; simpl;
      repeat constructor; intros [].
  - intros a Ha Hb. apply in_map_iff in Ha. destruct Ha as [o [<- Ho]].
    apply overlap_of_entry in Ho. destruct Ho as [_ [_ [Hk _]]].
    apply in_map_iff in Hb. destruct Hb as [o' [E Ho']].
    apply overlaps_of_In in Ho'. destruct Ho' as [kv' [Hkv' Ho']].
    apply overlap_of_entry in Ho'. destruct Ho' as [_ [_ [Hk' _]]].
    apply Hnotin. apply in_map_iff. exists kv'. split; [congruence | exact Hkv'].
Qed.

(** X19.  [get_stats] lists an advertiser in [overlaps] exactly when today it
    has a top_product row and a top_ctr row, and lists it once; its
    intersection_size and union_size are the numbers of distinct products in
    the intersection and in the union of its two product sets. *)
Theorem overlaps_are_set_sizes (rows : list (string * string * string)) :
  NoDup (map ov_advertiser_id (overlaps_of (adv_models rows))) /\
  (forall a,
     In a (map ov_advertiser_id (overlaps_of (adv_models rows))) <->
     products_of a "top_product" rows <> [] /\
     products_of a "top_ctr" rows <> []) /\
  (forall o, In o (overlaps_of (adv_models rows)) ->
     intersection_size o
     = distinct (filter (fun p => set_mem p
                                    (products_of (ov_advertiser_id o) "top_ctr" rows))
                        (products_of (ov_advertiser_id o) "top_product" rows)) /\
     union_size o
     = distinct (products_of (ov_advertiser_id o) "top_product" rows ++
                 products_of (ov_advertiser_id o) "top_ctr" rows)).
Proof.
  destruct (adv_models_dict rows) as [Hnd [Hkeys Hsets]].
  assert (Hne : forall (a m : string),
             products_of a m rows <> [] <-> exists p, In (a, m, p) rows).
  { intros a m. split.
    - destruct (products_of a m rows) as [|p l] eqn:E; [congruence |].
      intros _. exists p. apply products_of_In. rewrite E. now left.
    - intros [p H] E. apply products_of_In in H. rewrite E in H. destruct H. }
  split; [now apply overlaps_of_advertisers |]. split.
  - intros a. rewrite in_map_iff. split.
    + intros [o [<- Ho]]. apply overlaps_of_In in Ho.
      destruct Ho as [[k [tp tc]] [Hin Ho]]. apply overlap_of_entry in Ho.
      cbn [fst snd] in Ho. destruct Ho as [Htp [Htc [-> _]]].
      destruct (Hsets k tp tc Hin) as [_ [_ [H3 H4]]].
      rewrite !Hne. split.
      * destruct tp as [|x tp]; [congruence |]. exists x. apply H3. now left.
      * destruct tc as [|x tc]; [congruence |]. exists x. apply H4. now left.
    + rewrite !Hne. intros [[p Hp] [q Hq]].
      assert (Hk : In a (map fst (adv_models rows))) by (apply Hkeys; eauto).
      apply in_map_iff in Hk. destruct Hk as [[k [tp tc]] [E Hin]].
      simpl in E. subst k.
      destruct (Hsets a tp tc Hin) as [_ [_ [H3 H4]]].
      apply H3 in Hp. apply H4 in Hq.
      destruct tp as [|x tp]; [destruct Hp |].
      destruct tc as [|y tc]; [destruct Hq |].
      eexists. split; [| apply overlaps_of_In; exists (a, (x :: tp, y :: tc));
                         split; [exact Hin | left; reflexivity]].
      reflexivity.
  - intros o Ho. apply overlaps_of_In in Ho.
    destruct Ho as [[k [tp tc]] [Hin Ho]]. apply overlap_of_entry in Ho.
    cbn [fst snd] in Ho. destruct Ho as [_ [_ [-> [-> [-> _]]]]].
    destruct (Hsets k tp tc Hin) as [H1 [H2 [H3 H4]]]. split.
    + apply same_elements_length.
      * unfold intersection. now apply NoDup_filter.
      * intros x. unfold intersection.
        rewrite !filter_In, !set_mem_In, !products_of_In, H3, H4. tauto.
    + apply same_elements_length.
      * unfold union. apply NoDup_app; [exact H1 | now apply NoDup_filter |].
        intros x Hx Hx'. apply filter_In in Hx'. destruct Hx' as [_ Hx'].
        apply negb_true_iff in Hx'. apply set_mem_In in Hx. congruence.
      * intros x. unfold union.
        rewrite !in_app_iff, filter_In, !products_of_In, negb_true_iff, H3, H4.
        split; [tauto |]. intros [H | H]; [now left |].
        destruct (set_mem x tp) eqn:E; [| tauto].
        left. apply H3. now apply set_mem_In.
Qed.

(** ** Properties of the connections *)

(** *** main.py closes what it opens *)

Lemma main_take_fault_keeps (s : MainIo.Server) :
  MainIo.srv_open (snd (MainIo.take_fault s)) = MainIo.srv_open s /\
  MainIo.srv_table (snd (MainIo.take_fault s)) = MainIo.srv_table s.
Proof. unfold MainIo.take_fault. destruct (MainIo.srv_faults s); auto. Qed.

Lemma main_get_connection_cases (s : MainIo.Server) :
  (exists s', MainIo.get_connection s = (MainIo.Return tt, s') /\
              MainIo.srv_open s' = S (MainIo.srv_open s) /\
              MainIo.srv_table s' = MainIo.srv_table s) \/
  (exists s', MainIo.get_connection s = (MainIo.RaiseDb, s') /\
              MainIo.srv_open s' = MainIo.srv_open s /\
              MainIo.srv_table s' = MainIo.srv_table s).
Proof.
  unfold MainIo.get_connection.
  destruct (main_take_fault_keeps s) as [Ho Ht].
  destruct (MainIo.take_fault s) as [[|] s1]; cbn [snd] in *.
  - right. eexists. split; [reflexivity | auto].
  - left. eexists. split; [reflexivity |]. cbn. auto.
Qed.

Lemma main_execute_fetch_keeps {A : Type} (q : Table -> A) (s : MainIo.Server) :
  MainIo.srv_open (snd (MainIo.execute_fetch q s)) = MainIo.srv_open s /\
  MainIo.srv_table (snd (MainIo.execute_fetch q s)) = MainIo.srv_table s /\
  (fst (MainIo.execute_fetch q s) = MainIo.RaiseDb \/
   fst (MainIo.execute_fetch q s) = MainIo.Return (q (MainIo.srv_table s))).
Proof.
  unfold MainIo.execute_fetch.
  destruct (main_take_fault_keeps s) as [Ho Ht].
  destruct (MainIo.take_fault s) as [[|] s1]; cbn [fst snd] in *;
    repeat split; auto.
  right. now rewrite Ht.
Qed.

Lemma main_stats_queries_keeps (today : string) (s : MainIo.Server) :
  MainIo.srv_open (snd (MainIo.stats_queries today s)) = MainIo.srv_open s /\
  MainIo.srv_table (snd (MainIo.stats_queries today s)) = MainIo.srv_table s.
Proof.
  unfold MainIo.stats_queries.
  repeat match goal with
  | |- context [MainIo.execute_fetch ?q ?x] =>
      let Ho := fresh "Ho" in
      let Ht := fresh "Ht" in
      let Hr := fresh "Hr" in
      destruct (main_execute_fetch_keeps q x) as [Ho [Ht Hr]];
      destruct (MainIo.execute_fetch q x) as [[?|?|] ?];
      cbn [fst snd] in *
  end; split; congruence.
Qed.

(** X20.  [get_history], [get_stats] and [health] of main.py close the
    connection they open on every path, also when a statement raises, and
    never change the table. *)
Theorem main_closes_connections (today seven_days_ago adv : string)
    (s : MainIo.Server) :
  (MainIo.srv_open (snd (MainIo.get_history today seven_days_ago adv s))
   = MainIo.srv_open s /\
   MainIo.srv_table (snd (MainIo.get_history today seven_days_ago adv s))
   = MainIo.srv_table s) /\
  (MainIo.srv_open (snd (MainIo.get_stats today s)) = MainIo.srv_open s /\
   MainIo.srv_table (snd (MainIo.get_stats today s)) = MainIo.srv_table s) /\
  (MainIo.srv_open (snd (MainIo.health s)) = MainIo.srv_open s /\
   MainIo.srv_table (snd (MainIo.health s)) = MainIo.srv_table s).
Proof.
  split; [| split].
  - unfold MainIo.get_history.
    destruct (main_get_connection_cases s) as [[s1 [-> [Ho Ht]]] | [s1 [-> [Ho Ht]]]];
      [| auto].
    destruct (main_execute_fetch_keeps
                (MainIo.select_history adv seven_days_ago today) s1)
      as [Ho2 [Ht2 _]].
    destruct (MainIo.execute_fetch _ s1) as [[[|r rows]|c|] s2];
      cbn [fst snd MainIo.close MainIo.srv_open MainIo.srv_table] in *;
      split; try congruence; lia.
  - unfold MainIo.get_stats.
    destruct (main_get_connection_cases s) as [[s1 [-> [Ho Ht]]] | [s1 [-> [Ho Ht]]]];
      [| auto].
    destruct (main_stats_queries_keeps today s1) as [Ho2 Ht2].
    destruct (MainIo.stats_queries today s1) as [[[[n t] rows]|c|] s2];
      cbn [fst snd MainIo.close MainIo.srv_open MainIo.srv_table] in *;
      split; try congruence; lia.
  - unfold MainIo.health.
    destruct (main_get_connection_cases s) as [[s1 [-> [Ho Ht]]] | [s1 [-> [Ho Ht]]]];
      cbn [fst snd MainIo.close MainIo.srv_open MainIo.srv_table];
      split; try congruence; lia.
Qed.

(** X21.  When [get_history] of main.py returns, its history is not empty,
    num_records is its length, and no item holds a non-finite float: ctr has
    gone through [safe_float]. *)
Theorem get_history_sanitised (today seven_days_ago adv : string)
    (s s' : MainIo.Server) (h : MainIo.History) :
  MainIo.get_history today seven_days_ago adv s = (MainIo.Return h, s') ->
  MainIo.hist_history h <> [] /\
  In ("num_records", JInt (List.length (MainIo.hist_history h)))
     (MainIo.hist_fields h) /\
  forallb item_finite (MainIo.hist_history h) = true /\
  MainIo.hist_history h
  = map ApiMain.rec_item
        (MainIo.select_history adv seven_days_ago today (MainIo.srv_table s)).
Proof.
  unfold MainIo.get_history.
  destruct (main_get_connection_cases s) as [[s1 [-> [Ho Ht]]] | [s1 [-> _]]];
    [| discriminate].
  destruct (main_execute_fetch_keeps
              (MainIo.select_history adv seven_days_ago today) s1)
    as [_ [_ Hr]].
  destruct (MainIo.execute_fetch _ s1) as [[[|r rows]|c|] s2];
    try discriminate.
  cbn [fst] in Hr. destruct Hr as [Hr | Hr]; [discriminate |].
  inversion Hr as [Hrows]. rewrite Ht in Hrows.
  intros H. inversion H; subst.
  cbn [MainIo.hist_history MainIo.hist_fields]. rewrite <- Hrows.
  split; [discriminate |]. split; [simpl; tauto |]. split; [| reflexivity].
  apply forallb_forall. intros it Hit.
  change (In it (map ApiMain.rec_item (r :: rows))) in Hit.
  apply (proj1 (in_map_iff _ _ _)) in Hit. destruct Hit as [x [<- _]].
  apply api_main_item_finite.
Qed.

Lemma get_history_sanitised_witness :
  exists h s',
    MainIo.get_history "2025-12-03" "2025-11-26" "A1"
      (MainIo.mkServer nan_store 0 []) = (MainIo.Return h, s') /\
    MainIo.hist_history h <> [] /\
    forallb item_finite (MainIo.hist_history h) = true.
Proof.
  eexists. eexists. split; [vm_compute; reflexivity |].
  match goal with
  | |- MainIo.hist_history ?h <> [] /\ _ =>
      destruct (get_history_sanitised "2025-12-03" "2025-11-26" "A1"
                  (MainIo.mkServer nan_store 0 [])
                  (MainIo.mkServer nan_store 0 []) h eq_refl)
        as [H1 [_ [H3 _]]]
  end.
  split; assumption.
Defined.

(** *** The pool of tp-api *)

Section PoolFacts.
Variable py_int : string -> option Z.

Lemma tp_take_fault_keeps (p : TpDb.Process) :
  TpDb._pool (snd (TpDb.take_fault p)) = TpDb._pool p /\
  TpDb.db (snd (TpDb.take_fault p)) = TpDb.db p /\
  TpDb.environ (snd (TpDb.take_fault p)) = TpDb.environ p.
Proof. unfold TpDb.take_fault. destruct (TpDb.faults p); auto. Qed.

Lemma get_pool_cases (p : TpDb.Process) :
  (exists p' pl, TpDb.get_pool py_int p = (TpDb.Return tt, p') /\
                 TpDb._pool p' = Some pl /\
                 checked_out p' = checked_out p /\
                 (forall pl0, TpDb._pool p = Some pl0 -> p' = p) /\
                 TpDb.db p' = TpDb.db p /\
                 TpDb.environ p' = TpDb.environ p) \/
  (exists p' e, TpDb.get_pool py_int p = (TpDb.Raise e, p') /\
                TpDb._pool p = None /\ TpDb._pool p' = None /\
                TpDb.db p' = TpDb.db p /\
                TpDb.environ p' = TpDb.environ p).
Proof.
  unfold TpDb.get_pool, checked_out.
  destruct (TpDb._pool p) as [pl|] eqn:Ep.
  - left. exists p, pl. rewrite Ep. repeat split; auto.
  - destruct (TpDb.pool_config py_int (TpDb.environ p)) as [cfg|e].
    + destruct (tp_take_fault_keeps p) as [H1 [H2 H3]].
      destruct (TpDb.take_fault p) as [[|] p1]; cbn [snd] in *.
      * right. exists p1, TpDb.OperationalError.
        repeat split; auto. congruence.
      * left. eexists. eexists. split; [reflexivity |].
        cbn. repeat split; auto. discriminate.
    + right. exists p, e. rewrite Ep. repeat split; auto.
Qed.

Lemma getconn_cases (p : TpDb.Process) (pl : TpDb.Pool) :
  TpDb._pool p = Some pl ->
  (exists p' pl', TpDb.getconn p = (TpDb.Return tt, p') /\
                  TpDb._pool p' = Some pl' /\
                  TpDb.in_use pl' = S (TpDb.in_use pl) /\
                  TpDb.config pl' = TpDb.config pl /\
                  TpDb.db p' = TpDb.db p /\
                  TpDb.environ p' = TpDb.environ p) \/
  (exists p' e, TpDb.getconn p = (TpDb.Raise e, p') /\
                TpDb._pool p' = Some pl /\
                TpDb.db p' = TpDb.db p /\
                TpDb.environ p' = TpDb.environ p).
Proof.
  intros Ep. unfold TpDb.getconn. rewrite Ep.
  destruct (TpDb.idle pl) as [|n].
  - destruct (TpDb.in_use pl =? 5).
    + right. exists p, TpDb.PoolError. repeat split; auto.
    + destruct (tp_take_fault_keeps p) as [H1 [H2 H3]].
      destruct (TpDb.take_fault p) as [[|] p1]; cbn [snd] in *.
      * right. exists p1, TpDb.OperationalError.
        repeat split; auto. congruence.
      * left. eexists. eexists. split; [reflexivity |].
        cbn. repeat split; auto.
  - left. eexists. eexists. split; [reflexivity |].
    cbn. repeat split; auto.
Qed.

Lemma run_query_keeps {A : Type} (q : Table -> A) (p : TpDb.Process) :
  TpDb._pool (snd (TpDb.run_query q p)) = TpDb._pool p /\
  TpDb.db (snd (TpDb.run_query q p)) = TpDb.db p /\
  TpDb.environ (snd (TpDb.run_query q p)) = TpDb.environ p.
Proof.
  unfold TpDb.run_query.
  destruct (tp_take_fault_keeps p) as [H1 [H2 H3]].
  destruct (TpDb.take_fault p) as [[|] p1]; cbn [snd] in *; auto.
Qed.

Lemma with_conn_of_pool_keeps {A : Type} (q : Table -> A) (p : TpDb.Process) :
  checked_out (snd (TpDb.with_conn_of_pool py_int q p)) = checked_out p /\
  TpDb.db (snd (TpDb.with_conn_of_pool py_int q p)) = TpDb.db p /\
  TpDb.environ (snd (TpDb.with_conn_of_pool py_int q p)) = TpDb.environ p /\
  (forall pl, TpDb._pool p = Some pl ->
     exists pl', TpDb._pool (snd (TpDb.with_conn_of_pool py_int q p)) = Some pl' /\
                 TpDb.config pl' = TpDb.config pl).
Proof.
  unfold TpDb.with_conn_of_pool.
  destruct (get_pool_cases p)
    as [[p1 [pl1 [-> [Ep1 [Hc1 [Hsame [Hd1 He1]]]]]]]
       | [p1 [e [-> [Ep [Ep1 [Hd1 He1]]]]]]].
  - destruct (getconn_cases p1 pl1 Ep1)
      as [[p2 [pl2 [-> [Ep2 [Hu2 [Hcf2 [Hd2 He2]]]]]]]
         | [p2 [e [-> [Ep2 [Hd2 He2]]]]]].
    + destruct (run_query_keeps q p2) as [Ep3 [Hd3 He3]].
      destruct (TpDb.run_query q p2) as [r p3]. cbn [snd] in *.
      unfold TpDb.putconn. rewrite Ep3, Ep2.
      cbn [TpDb.db TpDb.environ TpDb._pool]. unfold checked_out at 1.
      cbn [TpDb._pool TpDb.in_use].
      split; [| split; [| split]]; try congruence.
      * rewrite Hu2, <- Hc1. unfold checked_out. rewrite Ep1. lia.
      * intros pl Hpl. specialize (Hsame pl Hpl). subst p1.
        eexists. split; [reflexivity |].
        cbn [TpDb.config]. congruence.
    + cbn [snd]. split; [| split; [| split]]; try congruence.
      * rewrite <- Hc1. unfold checked_out. now rewrite Ep2, Ep1.
      * intros pl Hpl. specialize (Hsame pl Hpl). subst p1.
        exists pl1. split; [assumption | congruence].
  - cbn [snd]. split; [| split; [| split]]; try congruence.
    unfold checked_out. now rewrite Ep1, Ep.
Qed.

Lemma with_conn_of_pool_environ {A : Type} (q : Table -> A)
    (p : TpDb.Process) (pl : TpDb.Pool) (env : list (string * string)) :
  TpDb._pool p = Some pl ->
  fst (TpDb.with_conn_of_pool py_int q
         (TpDb.mkProcess env (TpDb._pool p) (TpDb.db p) (TpDb.faults p)))
  = fst (TpDb.with_conn_of_pool py_int q p).
Proof.
  intros Ep. destruct p as [env0 pool t fs]. cbn in Ep. subst pool.
  cbn [TpDb._pool TpDb.db TpDb.faults].
  unfold TpDb.with_conn_of_pool, TpDb.get_pool, TpDb.getconn.
  cbn [TpDb._pool].
  destruct (TpDb.idle pl) as [|n].
  - destruct (TpDb.in_use pl =? 5); [reflexivity |].
    unfold TpDb.take_fault. cbn [TpDb.faults].
    destruct fs as [|[|] fs]; try reflexivity;
      unfold TpDb.run_query, TpDb.take_fault; cbn [TpDb.faults TpDb.db];
      destruct fs as [|[|] fs]; reflexivity.
  - unfold TpDb.run_query, TpDb.take_fault. cbn [TpDb.faults TpDb.db].
    destruct fs as [|[|] fs]; reflexivity.
Qed.

Lemma pool_config_needs (env : list (string * string)) :
  TpDb.environ_get "DB_HOST" env = None \/
  TpDb.environ_get "DB_USER" env = None \/
  TpDb.environ_get "DB_PASSWORD" env = None ->
  exists e, TpDb.pool_config py_int env = TpDb.Raise e /\
            (e = TpDb.ValueError \/ exists k, e = TpDb.KeyError k).
Proof.
  intros H. unfold TpDb.pool_config.
  destruct (TpDb.environ_get "DB_HOST" env) as [h|];
    [| eexists; split; [reflexivity | right; eexists; reflexivity]].
  destruct (py_int _) as [n|];
    [| eexists; split; [reflexivity | left; reflexivity]].
  destruct (TpDb.environ_get "DB_USER" env) as [u|];
    [| eexists; split; [reflexivity | right; eexists; reflexivity]].
  destruct (TpDb.environ_get "DB_PASSWORD" env) as [pw|];
    [| eexists; split; [reflexivity | right; eexists; reflexivity]].
  destruct H as [H | [H | H]]; discriminate.
Qed.

Lemma with_conn_of_pool_needs {A : Type} (q : Table -> A) (p : TpDb.Process) :
  TpDb._pool p = None ->
  TpDb.environ_get "DB_HOST" (TpDb.environ p) = None \/
  TpDb.environ_get "DB_USER" (TpDb.environ p) = None \/
  TpDb.environ_get "DB_PASSWORD" (TpDb.environ p) = None ->
  exists e, TpDb.with_conn_of_pool py_int q p = (TpDb.Raise e, p) /\
            (e = TpDb.ValueError \/ exists k, e = TpDb.KeyError k).
Proof.
  intros Ep H. destruct (pool_config_needs _ H) as [e [He Hk]].
  exists e. split; [| assumption].
  unfold TpDb.with_conn_of_pool, TpDb.get_pool. now rewrite Ep, He.
Qed.

End PoolFacts.

(** X22.  [fetch_all] and [fetch_one] of db.py hand back the connection they
    take: whatever the pool, the environment and the failures of the
    database, the number of connections checked out is the same after the
    call as before, and the table is not changed. *)
Theorem fetch_returns_connection {A : Type} (py_int : string -> option Z)
    (q : Table -> list A) (p : TpDb.Process) :
  (checked_out (snd (TpDb.fetch_all py_int q p)) = checked_out p /\
   TpDb.db (snd (TpDb.fetch_all py_int q p)) = TpDb.db p) /\
  (checked_out (snd (TpDb.fetch_one py_int q p)) = checked_out p /\
   TpDb.db (snd (TpDb.fetch_one py_int q p)) = TpDb.db p).
Proof.
  unfold TpDb.fetch_all, TpDb.fetch_one. split.
  - destruct (with_conn_of_pool_keeps py_int q p) as [H1 [H2 _]]. now split.
  - destruct (with_conn_of_pool_keeps py_int
                (fun t => hd_error (q t)) p) as [H1 [H2 _]].
    now split.
Qed.

(** X23.  Once the pool of db.py is built it is kept, with the settings it
    was built with: a later [fetch_all] or [fetch_one] does not read the
    environment again, so its result is the same under any environment. *)
Theorem pool_built_once {A : Type} (py_int : string -> option Z)
    (q : Table -> list A) (p : TpDb.Process) (pl : TpDb.Pool)
    (env : list (string * string)) :
  TpDb._pool p = Some pl ->
  (exists pl', TpDb._pool (snd (TpDb.fetch_all py_int q p)) = Some pl' /\
               TpDb.config pl' = TpDb.config pl) /\
  (exists pl', TpDb._pool (snd (TpDb.fetch_one py_int q p)) = Some pl' /\
               TpDb.config pl' = TpDb.config pl) /\
  fst (TpDb.fetch_all py_int q
         (TpDb.mkProcess env (TpDb._pool p) (TpDb.db p) (TpDb.faults p)))
  = fst (TpDb.fetch_all py_int q p) /\
  fst (TpDb.fetch_one py_int q
         (TpDb.mkProcess env (TpDb._pool p) (TpDb.db p) (TpDb.faults p)))
  = fst (TpDb.fetch_one py_int q p).
Proof.
  intros Ep. unfold TpDb.fetch_all, TpDb.fetch_one.
  split; [| split; [| split]].
  - now apply (with_conn_of_pool_keeps py_int q p).
  - now apply (with_conn_of_pool_keeps py_int (fun t => hd_error (q t)) p).
  - now apply with_conn_of_pool_environ with (pl := pl).
  - now apply with_conn_of_pool_environ with (pl := pl).
Qed.

Lemma pool_built_once_witness :
  TpDb._pool
    (TpDb.mkProcess minimal_environ
       (Some (TpDb.mkPool
                (TpDb.mkPoolConfig "db.example" 5432 "postgres" "api" "secret")
                1 0))
       example_store [])
  = Some (TpDb.mkPool
            (TpDb.mkPoolConfig "db.example" 5432 "postgres" "api" "secret")
            1 0) /\
  fst (TpDb.fetch_all int_of_default_port (fun t => t)
         (TpDb.mkProcess userless_environ
            (Some (TpDb.mkPool
                     (TpDb.mkPoolConfig "db.example" 5432 "postgres" "api"
                        "secret")
                     1 0))
            example_store []))
  = fst (TpDb.fetch_all int_of_default_port (fun t => t)
           (TpDb.mkProcess minimal_environ
              (Some (TpDb.mkPool
                       (TpDb.mkPoolConfig "db.example" 5432 "postgres" "api"
                          "secret")
                       1 0))
              example_store [])).
Proof.
  split; [reflexivity |].
  exact (proj1 (proj2 (proj2
    (pool_built_once int_of_default_port (fun t : Table => t)
       (TpDb.mkProcess minimal_environ
          (Some (TpDb.mkPool
                   (TpDb.mkPoolConfig "db.example" 5432 "postgres" "api"
                      "secret")
                   1 0))
          example_store [])
       _ userless_environ eq_refl)))).
Defined.

(** X24.  While no pool is built and DB_HOST, DB_USER or DB_PASSWORD is not
    set, [fetch_all] and [fetch_one] raise KeyError (or ValueError, when
    DB_PORT is read first and is no number) before any connection is tried,
    and leave the process as it was: the next call fails the same way. *)
Theorem fetch_needs_credentials {A : Type} (py_int : string -> option Z)
    (q : Table -> list A) (p : TpDb.Process) :
  TpDb._pool p = None ->
  TpDb.environ_get "DB_HOST" (TpDb.environ p) = None \/
  TpDb.environ_get "DB_USER" (TpDb.environ p) = None \/
  TpDb.environ_get "DB_PASSWORD" (TpDb.environ p) = None ->
  (exists e, TpDb.fetch_all py_int q p = (TpDb.Raise e, p) /\
             (e = TpDb.ValueError \/ exists k, e = TpDb.KeyError k)) /\
  (exists e, TpDb.fetch_one py_int q p = (TpDb.Raise e, p) /\
             (e = TpDb.ValueError \/ exists k, e = TpDb.KeyError k)).
Proof.
  intros Ep H. unfold TpDb.fetch_all, TpDb.fetch_one.
  split; now apply with_conn_of_pool_needs.
Qed.

Lemma fetch_needs_credentials_witness :
  exists e,
    TpDb.fetch_all int_of_default_port (fun t => t)
      (TpDb.mkProcess userless_environ None example_store [])
    = (TpDb.Raise e, TpDb.mkProcess userless_environ None example_store []) /\
    (e = TpDb.ValueError \/ exists k, e = TpDb.KeyError k).
Proof.
  apply (fetch_needs_credentials int_of_default_port (fun t : Table => t)
           (TpDb.mkProcess userless_environ None example_store [])).
  - reflexivity.
  - right. left. reflexivity.
Defined.

(** ** Properties of the histories *)

Lemma history_leb_keep (x y : RankingRecord) :
  MainIo.history_leb x y = true -> hist_before x y.
Proof.
  unfold MainIo.history_leb, hist_before.
  destruct (String.compare (date y) (date x)) eqn:Ed; try discriminate.
  - apply str_compare_eq in Ed.
    destruct (String.compare (model x) (model y)) eqn:Em; try discriminate.
    + apply str_compare_eq in Em. intros H. apply Nat.leb_le in H.
      right. split; [congruence |]. right. now split.
    + intros _. right. split; [congruence |]. now left.
  - intros _. now left.
Qed.

Lemma history_leb_swap (x y : RankingRecord) :
  MainIo.history_leb x y = false -> hist_before y x.
Proof.
  unfold MainIo.history_leb, hist_before.
  destruct (String.compare (date y) (date x)) eqn:Ed; try discriminate.
  - apply str_compare_eq in Ed.
    destruct (String.compare (model x) (model y)) eqn:Em; try discriminate.
    + apply str_compare_eq in Em. intros H. apply Nat.leb_gt in H.
      right. split; [congruence |]. right. split; [congruence | lia].
    + intros _. apply str_compare_gt in Em.
      right. split; [congruence |]. now left.
  - intros _. apply str_compare_gt in Ed. now left.
Qed.

Lemma hist_before_trans (x y z : RankingRecord) :
  hist_before x y -> hist_before y z -> hist_before x z.
Proof.
  unfold hist_before.
  intros [Hxy | [Dxy Hxy]] [Hyz | [Dyz Hyz]].
  - left. eapply str_lt_trans; eauto.
  - left. now rewrite <- Dyz.
  - left. now rewrite Dxy.
  - right. split; [congruence |].
    destruct Hxy as [Mxy | [Mxy Rxy]], Hyz as [Myz | [Myz Ryz]].
    + left. eapply str_lt_trans; eauto.
    + left. now rewrite <- Myz.
    + left. now rewrite Mxy.
    + right. split; [congruence | lia].
Qed.

Lemma history_leb_complete (x y : RankingRecord) :
  hist_before x y -> MainIo.history_leb x y = true.
Proof.
  unfold hist_before, MainIo.history_leb, str_lt.
  intros [H | [D [H | [M H]]]].
  - now rewrite H.
  - rewrite D, str_compare_refl. now rewrite H.
  - rewrite D, M, !str_compare_refl. now apply Nat.leb_le.
Qed.

Lemma history_sorted (l : list RankingRecord) :
  StronglySorted hist_before (sort_values MainIo.history_leb l).
Proof.
  set (before0 := fun _ _ : RankingRecord => True).
  assert (H0 : StronglySorted before0 l).
  { induction l; constructor; [assumption |].
    apply Forall_forall. intros; exact I. }
  apply (sort_values_sorted MainIo.history_leb before0 hist_before);
    [| | | exact H0].
  - intros x y H _. now apply history_leb_keep.
  - apply history_leb_swap.
  - intros x y z Hxy Hyz. apply history_leb_complete.
    eapply hist_before_trans; [apply history_leb_keep |]; eauto.
Qed.

Lemma StronglySorted_snoc {X : Type} (R : X -> X -> Prop) (l : list X) (k : X) :
  StronglySorted R l -> Forall (fun x => R x k) l ->
  StronglySorted R (l ++ [k]).
Proof.
  induction 1 as [|x l Hs IH Hall]; intros Hk; cbn [app].
  - repeat constructor.
  - inversion Hk as [|? ? Hxk Hlk]; subst.
    constructor; [now apply IH |].
    apply Forall_app. split; [assumption | now constructor].
Qed.

Lemma StronglySorted_unsnoc {X : Type} (R : X -> X -> Prop) (l : list X) (k : X) :
  StronglySorted R (l ++ [k]) ->
  StronglySorted R l /\ Forall (fun x => R x k) l.
Proof.
  induction l as [|x l IH]; cbn [app]; intros H.
  - split; constructor.
  - inversion H as [|? ? Hs Hall]; subst.
    destruct (IH Hs) as [Hl Hk].
    apply Forall_app in Hall. destruct Hall as [Hxl Hxk].
    inversion Hxk; subst.
    split; constructor; assumption.
Qed.

(** *** Dicts built with setdefault *)

Lemma dict_get_setdefault_update {V : Type} (k k' : string) (dflt : V)
    (f : V -> V) (d : list (string * V)) :
  dict_get k' (TpDb.setdefault_update k dflt f d)
  = if String.eqb k k'
    then Some (f (match dict_get k d with Some v => v | None => dflt end))
    else dict_get k' d.
Proof.
  induction d as [|[k0 v0] d IH]; cbn [TpDb.setdefault_update dict_get].
  - destruct (String.eqb k k'); reflexivity.
  - destruct (String.eqb_spec k0 k) as [-> | Hk0].
    + cbn [dict_get]. destruct (String.eqb k k'); reflexivity.
    + cbn [dict_get]. rewrite IH.
      destruct (String.eqb_spec k0 k') as [-> | Hk0'].
      * destruct (String.eqb_spec k k'); [congruence | reflexivity].
      * reflexivity.
Qed.

Lemma keys_setdefault_update {V : Type} (k : string) (dflt : V)
    (f : V -> V) (d : list (string * V)) :
  map fst (TpDb.setdefault_update k dflt f d)
  = match dict_get k d with
    | Some _ => map fst d
    | None => map fst d ++ [k]
    end.
Proof.
  induction d as [|[k0 v0] d IH]; cbn [TpDb.setdefault_update dict_get map app];
    [reflexivity |].
  destruct (String.eqb_spec k0 k) as [-> | Hk0]; [reflexivity |].
  cbn [map fst]. rewrite IH. now destruct (dict_get k d).
Qed.

Lemma dict_get_None {V : Type} (k : string) (d : list (string * V)) :
  dict_get k d = None <-> ~ In k (map fst d).
Proof.
  induction d as [|[k0 v0] d IH]; cbn [dict_get map fst In]; [tauto |].
  destruct (String.eqb_spec k0 k) as [-> | Hk0].
  - split; [discriminate | tauto].
  - rewrite IH. tauto.
Qed.

Lemma group_history_snoc (rows : list RankingRecord) (r : RankingRecord) :
  TpDb.group_history (rows ++ [r])
  = TpDb.add_history (TpDb.group_history rows) r.
Proof. unfold TpDb.group_history. now rewrite fold_left_app. Qed.

Lemma of_date_model_snoc (d m : string) (rows : list RankingRecord)
    (r : RankingRecord) :
  of_date_model d m (rows ++ [r])
  = if String.eqb (date r) d && String.eqb (model r) m
    then of_date_model d m rows ++ [r]
    else of_date_model d m rows.
Proof.
  unfold of_date_model. rewrite filter_app. cbn [filter].
  destruct (String.eqb (date r) d && String.eqb (model r) m);
    [reflexivity | apply app_nil_r].
Qed.

Lemma history_get_group (d m : string) (rows : list RankingRecord) :
  history_get d m (TpDb.group_history rows)
  = map TpDb.hist_item (of_date_model d m rows).
Proof.
  induction rows as [|r rows IH] using rev_ind; [reflexivity |].
  rewrite group_history_snoc, of_date_model_snoc.
  unfold history_get in *. unfold TpDb.add_history.
  rewrite dict_get_setdefault_update.
  destruct (String.eqb_spec (date r) d) as [<- | Hd]; cbn [andb].
  - rewrite dict_get_setdefault_update.
    destruct (String.eqb_spec (model r) m) as [<- | Hm].
    + rewrite map_app. cbn [map]. rewrite <- IH.
      destruct (dict_get (date r) (TpDb.group_history rows)) as [bm|];
        [| reflexivity].
      now destruct (dict_get (model r) bm).
    + rewrite <- IH.
      destruct (dict_get (date r) (TpDb.group_history rows)) as [bm|];
        reflexivity.
  - exact IH.
Qed.

Lemma group_history_keys (rows : list RankingRecord) :
  NoDup (map fst (TpDb.group_history rows)) /\
  (forall d, In d (map fst (TpDb.group_history rows)) <->
             In d (map date rows)) /\
  (forall d by_model,
     dict_get d (TpDb.group_history rows) = Some by_model ->
     NoDup (map fst by_model) /\
     forall m, In m (map fst by_model) <-> of_date_model d m rows <> []).
Proof.
  induction rows as [|r rows IH] using rev_ind.
  - split; [constructor |]. split; [cbn; tauto |]. intros d bm H. discriminate.
  - destruct IH as [Hnd [Hkeys Hin]].
    rewrite group_history_snoc. unfold TpDb.add_history.
    split; [| split].
    + rewrite keys_setdefault_update.
      destruct (dict_get (date r) (TpDb.group_history rows)) eqn:E;
        [assumption |].
      apply dict_get_None in E.
      apply NoDup_app; [assumption | repeat constructor; auto | ].
      intros x Hx [<- | []]. contradiction.
    + intros d. rewrite keys_setdefault_update, map_app, in_app_iff.
      cbn [map In]. rewrite <- Hkeys.
      destruct (dict_get (date r) (TpDb.group_history rows)) eqn:E.
      * assert (Hr : In (date r) (map fst (TpDb.group_history rows))).
        { destruct (in_dec string_dec (date r)
                      (map fst (TpDb.group_history rows))) as [H | H];
            [assumption |].
          apply dict_get_None in H. congruence. }
        split; [tauto |]. intros [H | [<- | []]]; assumption.
      * rewrite in_app_iff. cbn [In]. tauto.
    + intros d bm. rewrite dict_get_setdefault_update.
      destruct (String.eqb_spec (date r) d) as [<- | Hd].
      * intros H. inversion H as [Hbm]. clear H.
        assert (Hold :
          NoDup (map fst (match dict_get (date r) (TpDb.group_history rows) with
                          | Some v => v | None => [] end)) /\
          forall m, In m (map fst (match dict_get (date r)
                                           (TpDb.group_history rows) with
                                   | Some v => v | None => [] end)) <->
                    of_date_model (date r) m rows <> []).
        { destruct (dict_get (date r) (TpDb.group_history rows)) as [bm0|] eqn:E.
          - now apply Hin.
          - split; [constructor |]. intros m. cbn [map In].
            split; [tauto |]. intros Hne. exfalso.
            apply dict_get_None in E. apply E. apply Hkeys.
            destruct (of_date_model (date r) m rows) as [|x l] eqn:Ex;
              [congruence |].
            assert (Hx : In x (of_date_model (date r) m rows))
              by (rewrite Ex; now left).
            unfold of_date_model in Hx. apply filter_In in Hx.
            destruct Hx as [Hx Hb]. apply andb_true_iff in Hb.
            destruct Hb as [Hb _]. apply String.eqb_eq in Hb.
            rewrite <- Hb. now apply in_map. }
        destruct Hold as [Hnd0 Hin0].
        set (bm0 := match dict_get (date r) (TpDb.group_history rows) with
                    | Some v => v | None => [] end) in *.
        split.
        -- rewrite keys_setdefault_update.
           destruct (dict_get (model r) bm0) eqn:E; [assumption |].
           apply dict_get_None in E.
           apply NoDup_app; [assumption | repeat constructor; auto | ].
           intros x Hx [<- | []]. contradiction.
        -- intros m. rewrite keys_setdefault_update, of_date_model_snoc.
           rewrite String.eqb_refl. cbn [andb].
           destruct (String.eqb_spec (model r) m) as [<- | Hm].
           ++ split; [intros _; now destruct (of_date_model _ _ rows) |].
              intros _.
              destruct (dict_get (model r) bm0) eqn:E.
              ** destruct (in_dec string_dec (model r) (map fst bm0))
                   as [H | H]; [assumption |].
                 apply dict_get_None in H. congruence.
              ** apply in_app_iff. right. now left.
           ++ rewrite <- Hin0.
              destruct (dict_get (model r) bm0);
                [tauto |].
              rewrite in_app_iff. cbn [In]. tauto.
      * intros H. destruct (Hin d bm H) as [Hnd0 Hin0].
        split; [assumption |]. intros m.
        rewrite of_date_model_snoc.
        destruct (String.eqb_spec (date r) d); [contradiction |].
        cbn [andb]. apply Hin0.
Qed.

Lemma of_date_model_row (d m : string) (rows : list RankingRecord) :
  of_date_model d m rows <> [] ->
  exists x, In x rows /\ date x = d /\ model x = m.
Proof.
  intros Hne. destruct (of_date_model d m rows) as [|x l] eqn:Ex;
    [congruence |].
  assert (Hx : In x (of_date_model d m rows)) by (rewrite Ex; now left).
  unfold of_date_model in Hx. apply filter_In in Hx.
  destruct Hx as [Hx Hb]. apply andb_true_iff in Hb.
  destruct Hb as [Hd Hm]. apply String.eqb_eq in Hd, Hm.
  exists x. auto.
Qed.

Lemma group_history_sorted (rows : list RankingRecord) :
  StronglySorted hist_before rows ->
  StronglySorted (fun a b => str_lt b a) (map fst (TpDb.group_history rows)) /\
  (forall d by_model,
     dict_get d (TpDb.group_history rows) = Some by_model ->
     StronglySorted str_lt (map fst by_model)).
Proof.
  induction rows as [|r rows IH] using rev_ind; intros Hs.
  - split; [constructor |]. intros d bm H. discriminate.
  - apply StronglySorted_unsnoc in Hs. destruct Hs as [Hs Hr].
    destruct (IH Hs) as [Hk Hm]. clear IH.
    destruct (group_history_keys rows) as [_ [Hkeys Hin]].
    rewrite Forall_forall in Hr.
    rewrite group_history_snoc. unfold TpDb.add_history. split.
    + rewrite keys_setdefault_update.
      destruct (dict_get (date r) (TpDb.group_history rows)) eqn:E;
        [assumption |].
      apply dict_get_None in E.
      apply StronglySorted_snoc; [assumption |].
      apply Forall_forall. intros k Hkin.
      pose proof (proj1 (Hkeys k) Hkin) as Hd.
      apply (proj1 (in_map_iff _ _ _)) in Hd. destruct Hd as [x [Hxk Hx]].
      destruct (Hr x Hx) as [Hlt | [Heq _]].
      * now rewrite <- Hxk.
      * exfalso. apply E. rewrite <- Heq, Hxk. exact Hkin.
    + intros d bm. rewrite dict_get_setdefault_update.
      destruct (String.eqb_spec (date r) d) as [<- | Hd]; [| apply Hm].
      intros H. inversion H as [Hbm]. clear H Hbm.
      rewrite keys_setdefault_update.
      destruct (dict_get (date r) (TpDb.group_history rows)) as [bm0|] eqn:E.
      * destruct (dict_get (model r) bm0) eqn:Em; [now apply (Hm (date r)) |].
        apply dict_get_None in Em.
        apply StronglySorted_snoc; [now apply (Hm (date r)) |].
        apply Forall_forall. intros m Hmin.
        destruct (Hin _ _ E) as [_ Hmod].
        destruct (of_date_model_row _ _ _ (proj1 (Hmod m) Hmin))
          as [x [Hx [Hxd Hxm]]].
        destruct (Hr x Hx) as [Hlt | [_ [Hlt | [Heq _]]]].
        -- rewrite Hxd in Hlt. now apply str_lt_irrefl in Hlt.
        -- now rewrite <- Hxm.
        -- exfalso. apply Em. rewrite <- Heq, Hxm. exact Hmin.
      * cbn. repeat constructor.
Qed.

Lemma of_date_model_sorted (d m : string) (rows : list RankingRecord) :
  StronglySorted hist_before rows ->
  StronglySorted (fun x y => rank x <= rank y) (of_date_model d m rows).
Proof.
  unfold of_date_model.
  induction 1 as [|x l Hs IH Hall]; cbn [filter]; [constructor |].
  destruct (String.eqb_spec (date x) d) as [Hd | Hd]; cbn [andb];
    [| assumption].
  destruct (String.eqb_spec (model x) m) as [Hm | Hm]; [| assumption].
  constructor; [assumption |].
  rewrite Forall_forall in *. intros y Hy.
  apply filter_In in Hy. destruct Hy as [Hy Hb].
  apply andb_true_iff in Hb. destruct Hb as [Hyd Hym].
  apply String.eqb_eq in Hyd, Hym.
  destruct (Hall y Hy) as [Hlt | [_ [Hlt | [_ Hle]]]].
  - rewrite Hd, Hyd in Hlt. now apply str_lt_irrefl in Hlt.
  - rewrite Hm, Hym in Hlt. now apply str_lt_irrefl in Hlt.
  - exact Hle.
Qed.

Lemma with_conn_of_pool_result {A : Type} (py_int : string -> option Z)
    (q : Table -> A) (p : TpDb.Process) (a : A) :
  fst (TpDb.with_conn_of_pool py_int q p) = TpDb.Return a ->
  a = q (TpDb.db p).
Proof.
  unfold TpDb.with_conn_of_pool.
  destruct (get_pool_cases py_int p)
    as [[p1 [pl1 [-> [Ep1 [_ [_ [Hd1 _]]]]]]] | [p1 [e [-> _]]]];
    [| discriminate].
  destruct (getconn_cases p1 pl1 Ep1)
    as [[p2 [pl2 [-> [_ [_ [_ [Hd2 _]]]]]]] | [p2 [e [-> _]]]];
    [| discriminate].
  unfold TpDb.run_query.
  destruct (tp_take_fault_keeps p2) as [_ [Hd3 _]].
  destruct (TpDb.take_fault p2) as [[|] p3]; cbn [fst snd] in *;
    [discriminate |].
  intros H. inversion H. congruence.
Qed.

Lemma pool_config_raises (py_int : string -> option Z)
    (env : list (string * string)) (e : TpDb.exn) (c : nat) :
  TpDb.pool_config py_int env = TpDb.Raise e -> e <> TpDb.HTTPException c.
Proof.
  unfold TpDb.pool_config.
  repeat match goal with
  | |- context [match ?x with _ => _ end] => destruct x
  end; intros H; inversion H; discriminate.
Qed.

Lemma with_conn_of_pool_raises {A : Type} (py_int : string -> option Z)
    (q : Table -> A) (p : TpDb.Process) (e : TpDb.exn) (c : nat) :
  fst (TpDb.with_conn_of_pool py_int q p) = TpDb.Raise e ->
  e <> TpDb.HTTPException c.
Proof.
  unfold TpDb.with_conn_of_pool, TpDb.get_pool.
  destruct (TpDb._pool p) as [pl|] eqn:Ep.
  - unfold TpDb.getconn. rewrite Ep.
    destruct (TpDb.idle pl) as [|n].
    + destruct (TpDb.in_use pl =? 5);
        [cbn; intros H; inversion H; discriminate |].
      destruct (TpDb.take_fault p) as [[|] p1];
        [cbn; intros H; inversion H; discriminate |].
      unfold TpDb.run_query.
      destruct (TpDb.take_fault _) as [[|] p2]; cbn;
        intros H; inversion H; discriminate.
    + unfold TpDb.run_query.
      destruct (TpDb.take_fault _) as [[|] p2]; cbn;
        intros H; inversion H; discriminate.
  - destruct (TpDb.pool_config py_int (TpDb.environ p)) as [cfg|e0] eqn:Ec.
    + destruct (TpDb.take_fault p) as [[|] p1];
        [cbn; intros H; inversion H; discriminate |].
      unfold TpDb.getconn. cbn [TpDb._pool TpDb.idle].
      unfold TpDb.run_query.
      destruct (TpDb.take_fault _) as [[|] p2]; cbn;
        intros H; inversion H; discriminate.
    + cbn. intros H. inversion H; subst.
      eapply pool_config_raises; eauto.
Qed.

(** X25.  /history of tp-api answers 404 exactly when the advertiser has no
    row since [since]; otherwise its answer holds each date once and under
    it each model once, and the list under a date and a model is the items
    of the selected rows of that date and model, in the order of the
    statement.  A failure of the database is the only other outcome. *)
Theorem tp_history_groups (py_int : string -> option Z) (adv since : string)
    (p : TpDb.Process) :
  match fst (TpDb.history py_int adv since p) with
  | TpDb.Return (a, out) =>
      a = adv /\
      TpDb.select_since adv since (TpDb.db p) <> [] /\
      NoDup (map fst out) /\
      (forall d by_model, dict_get d out = Some by_model ->
                          NoDup (map fst by_model)) /\
      (forall d m,
         history_get d m out
         = map TpDb.hist_item
             (of_date_model d m (TpDb.select_since adv since (TpDb.db p))))
  | TpDb.Raise (TpDb.HTTPException c) =>
      c = 404 /\ TpDb.select_since adv since (TpDb.db p) = []
  | TpDb.Raise _ => True
  end.
Proof.
  unfold TpDb.history, TpDb.fetch_all.
  pose proof (with_conn_of_pool_result py_int
                (TpDb.select_since adv since) p) as Hres.
  pose proof (with_conn_of_pool_raises py_int
                (TpDb.select_since adv since) p) as Hexn.
  destruct (TpDb.with_conn_of_pool py_int (TpDb.select_since adv since) p)
    as [[rows|e] p1]; cbn [fst] in *.
  - specialize (Hres rows eq_refl). rewrite <- Hres.
    destruct rows as [|r rows]; cbn [fst]; [now split |].
    destruct (group_history_keys (r :: rows)) as [Hnd [_ Hin]].
    split; [reflexivity |]. split; [discriminate |].
    split; [assumption |]. split.
    + intros d bm H. now apply (Hin d bm).
    + intros d m. apply history_get_group.
  - destruct e as [k| | | |c]; try exact I.
    exfalso. now apply (Hexn (TpDb.HTTPException c) c).
Qed.

(** X26.  The answer of /history of tp-api follows the order of its
    statement: the dates come newest first, the models under a date in
    ascending order, and the rows behind the list of a date and a model in
    ascending rank. *)
Theorem tp_history_order (adv since : string) (t : Table) :
  StronglySorted (fun a b => str_lt b a)
    (map fst (TpDb.group_history (TpDb.select_since adv since t))) /\
  (forall d by_model,
     dict_get d (TpDb.group_history (TpDb.select_since adv since t))
     = Some by_model ->
     StronglySorted str_lt (map fst by_model)) /\
  (forall d m,
     StronglySorted (fun x y => rank x <= rank y)
       (of_date_model d m (TpDb.select_since adv since t))).
Proof.
  assert (Hs : StronglySorted hist_before (TpDb.select_since adv since t))
    by apply history_sorted.
  destruct (group_history_sorted _ Hs) as [H1 H2].
  split; [assumption |]. split; [assumption |].
  intros d m. now apply of_date_model_sorted.
Qed.

(** ** Malformed rows *)









(** FiltrarDatos keeps a malformed row of a registered advertiser; it is
    TopCTR that leaves it out. *)
Example malformed_row_left_out :
  In malformed_ad_view
     (snd (filtrar_datos [Some "A1"] []
             (malformed_ad_view :: example_ads_views))) /\
  dag_top_ctr [Some "A1"] [] (malformed_ad_view :: example_ads_views)
  = dag_top_ctr [Some "A1"] [] example_ads_views.
Proof. split; [left; reflexivity | vm_compute; reflexivity]. Qed.


